(** * TAIDE_law converters: document structuring, verified

    A shallow embedding of the converters of the repository,

      - [converters/dock_to_md.py]   ([clean_markdown], [beautify_structure],
        [add_metadata]): the Markdown renderer;
      - [converters/docx_to_json.py] ([docx_to_deep_structured_json]): the
        two-level tree builder;
      - [docx_to_json.py]            ([docx_to_json]): the flat paragraph dump;
      - [genQA_pair/gen_qa.py]       ([parse_json_response],
        [inject_source_document], [append_to_output]): the handling of the
        generated question-answer pairs,

    together with the part of the Python runtime they rest on: [str] as a
    sequence of Unicode code points, [str.strip], [str.splitlines],
    [str.join], [str.replace], [str.lower], [dict] as a list of items, and
    the backtracking semantics of [re] for the constructs the patterns of
    the program use. *)

From Stdlib Require Import String Ascii.
From Stdlib Require Import List NArith ZArith Bool Arith Lia.
Import ListNotations.

Local Open Scope N_scope.
Local Open Scope list_scope.

(** ** Python strings *)

(** A Python [str] is a sequence of code points. *)
Definition str : Type := list N.

(** Literals are written as UTF-8 text and decoded to code points. *)
Fixpoint bytes_of_string (s : String.string) : list N :=
  match s with
  | String.EmptyString => []
  | String.String a s' => Ascii.N_of_ascii a :: bytes_of_string s'
  end.

Fixpoint utf8_decode (need : nat) (acc : N) (bs : list N) : str :=
  match bs with
  | [] => []
  | b :: bs' =>
      match need with
      | O =>
          if b <? 128 then b :: utf8_decode 0 0 bs'
          else if b <? 224 then utf8_decode 1 (b - 192) bs'
          else if b <? 240 then utf8_decode 2 (b - 224) bs'
          else utf8_decode 3 (b - 240) bs'
      | S O => (acc * 64 + (b - 128)) :: utf8_decode 0 0 bs'
      | S n => utf8_decode n (acc * 64 + (b - 128)) bs'
      end
  end.

Definition u (s : String.string) : str := utf8_decode 0 0 (bytes_of_string s).

Definition NL : N := 10.
Definition CR : N := 13.

Fixpoint str_eqb (a b : str) : bool :=
  match a, b with
  | [], [] => true
  | x :: a', y :: b' => (x =? y) && str_eqb a' b'
  | _, _ => false
  end.

Definition in_set (cs : str) (c : N) : bool := existsb (N.eqb c) cs.

(** [str.isspace] on one code point; [\s] of [re] on [str] patterns is the
    same set (Unicode 14, CPython 3.11). *)
Definition space_chars : list N :=
  [9; 10; 11; 12; 13; 28; 29; 30; 31; 32; 133; 160; 5760;
   8192; 8193; 8194; 8195; 8196; 8197; 8198; 8199; 8200; 8201; 8202;
   8232; 8233; 8239; 8287; 12288].

Definition isspace (c : N) : bool := in_set space_chars c.

(** [\d] of [re] on [str] patterns: the code points of category Nd. *)
Definition Nd_ranges : list (N * N) :=
  [(48, 57); (1632, 1641); (1776, 1785); (1984, 1993); (2406, 2415);
   (2534, 2543); (2662, 2671); (2790, 2799); (2918, 2927); (3046, 3055);
   (3174, 3183); (3302, 3311); (3430, 3439); (3558, 3567); (3664, 3673);
   (3792, 3801); (3872, 3881); (4160, 4169); (4240, 4249); (6112, 6121);
   (6160, 6169); (6470, 6479); (6608, 6617); (6784, 6793); (6800, 6809);
   (6992, 7001); (7088, 7097); (7232, 7241); (7248, 7257); (42528, 42537);
   (43216, 43225); (43264, 43273); (43472, 43481); (43504, 43513);
   (43600, 43609); (44016, 44025); (65296, 65305); (66720, 66729);
   (68912, 68921); (69734, 69743); (69872, 69881); (69942, 69951);
   (70096, 70105); (70384, 70393); (70736, 70745); (70864, 70873);
   (71248, 71257); (71360, 71369); (71472, 71481); (71904, 71913);
   (72016, 72025); (72784, 72793); (73040, 73049); (73120, 73129);
   (92768, 92777); (92864, 92873); (93008, 93017); (120782, 120831);
   (123200, 123209); (123632, 123641); (125264, 125273); (130032, 130041)].

Definition isdecimal (c : N) : bool :=
  existsb (fun r => (fst r <=? c) && (c <=? snd r)) Nd_ranges.

(** The boundaries [str.splitlines] splits on. *)
Definition linebreak_chars : list N :=
  [10; 13; 11; 12; 28; 29; 30; 133; 8232; 8233].

Definition is_linebreak (c : N) : bool := in_set linebreak_chars c.

(** [str.lstrip()], [str.rstrip()], [str.strip()] *)
Fixpoint lstrip (s : str) : str :=
  match s with
  | [] => []
  | c :: s' => if isspace c then lstrip s' else s
  end.

Fixpoint rstrip (s : str) : str :=
  match s with
  | [] => []
  | c :: s' =>
      match rstrip s' with
      | [] => if isspace c then [] else [c]
      | r => c :: r
      end
  end.

Definition strip (s : str) : str := rstrip (lstrip s).

(** [str.splitlines()]: [\r\n] is one boundary, and a final boundary opens no
    further line. *)
Fixpoint splitlines (s : str) : list str :=
  match s with
  | [] => []
  | c :: s' =>
      if is_linebreak c then
        match s' with
        | d :: s'' =>
            if (c =? CR) && (d =? NL) then [] :: splitlines s''
            else [] :: splitlines s'
        | [] => [[]]
        end
      else
        match splitlines s' with
        | [] => [[c]]
        | l :: ls => (c :: l) :: ls
        end
  end.

(** [sep.join(ls)] *)
Fixpoint join (sep : str) (ls : list str) : str :=
  match ls with
  | [] => []
  | l :: ls' =>
      match ls' with
      | [] => l
      | _ :: _ => l ++ sep ++ join sep ls'
      end
  end.

Fixpoint starts_with (p s : str) : bool :=
  match p, s with
  | [], _ => true
  | x :: p', y :: s' => (x =? y) && starts_with p' s'
  | _ :: _, [] => false
  end.

(** [s.endswith(suffix)] *)
Definition ends_with (suffix s : str) : bool :=
  starts_with (rev suffix) (rev s).

(** [s.replace(old, new)] for a non-empty [old]: occurrences are replaced
    from the left, without overlap; [skip] counts the characters of an
    occurrence still to be dropped. *)
Fixpoint replace_from (old new : str) (skip : nat) (s : str) : str :=
  match s with
  | [] => []
  | c :: s' =>
      match skip with
      | S k => replace_from old new k s'
      | O =>
          if starts_with old s
          then new ++ replace_from old new (Nat.pred (length old)) s'
          else c :: replace_from old new 0 s'
      end
  end.

Definition replace (old new s : str) : str := replace_from old new 0 s.

(** ** The regular expressions of [re], as far as the program uses them

    Repetition is only ever applied to a single character class, which makes
    the backtracking matcher structurally recursive. *)
Inductive regex : Type :=
| Bol                                            (* ^ *)
| BolM                                           (* ^ under re.MULTILINE *)
| Eol                                            (* $ *)
| Cls (p : N -> bool)                            (* a literal or a class *)
| Rep (lazy : bool) (min : nat) (p : N -> bool)  (* p{min,} and p{min,}? *)
| Opt (r : regex)                                (* r? *)
| Grp (i : nat) (r : regex)                      (* ( r ), group number i *)
| Cat (r1 r2 : regex).

Declare Scope re_scope.
Delimit Scope re_scope with re.
Infix ";;" := Cat (at level 61, right associativity) : re_scope.

(** The groups set so far, latest first. *)
Definition caps : Type := list (nat * str).

Fixpoint group (i : nat) (c : caps) : option str :=
  match c with
  | [] => None
  | (j, s) :: c' => if Nat.eqb i j then Some s else group i c'
  end.

(** A continuation receives the character before the position, the rest of
    the subject and the groups. *)
Definition cont (A : Type) : Type := option N -> str -> caps -> option A.

Fixpoint rep_greedy {A} (p : N -> bool) (min : nat) (prev : option N)
    (s : str) (c : caps) (k : cont A) : option A :=
  match s with
  | x :: s' =>
      if p x then
        match rep_greedy p (Nat.pred min) (Some x) s' c k with
        | Some r => Some r
        | None => match min with O => k prev s c | S _ => None end
        end
      else match min with O => k prev s c | S _ => None end
  | [] => match min with O => k prev s c | S _ => None end
  end.

Fixpoint rep_lazy {A} (p : N -> bool) (min : nat) (prev : option N)
    (s : str) (c : caps) (k : cont A) {struct s} : option A :=
  match min with
  | O =>
      match k prev s c with
      | Some r => Some r
      | None =>
          match s with
          | x :: s' => if p x then rep_lazy p 0 (Some x) s' c k else None
          | [] => None
          end
      end
  | S n =>
      match s with
      | x :: s' => if p x then rep_lazy p n (Some x) s' c k else None
      | [] => None
      end
  end.

Fixpoint rmatch {A} (r : regex) (prev : option N) (s : str) (c : caps)
    (k : cont A) {struct r} : option A :=
  match r with
  | Bol => match prev with None => k prev s c | Some _ => None end
  | BolM =>
      match prev with
      | None => k prev s c
      | Some x => if x =? NL then k prev s c else None
      end
  | Eol =>
      match s with
      | [] => k prev s c
      | x :: s' =>
          match s' with
          | [] => if x =? NL then k prev s c else None
          | _ :: _ => None
          end
      end
  | Cls p =>
      match s with
      | x :: s' => if p x then k (Some x) s' c else None
      | [] => None
      end
  | Rep lazy min p =>
      if lazy then rep_lazy p min prev s c k else rep_greedy p min prev s c k
  | Opt r' =>
      match rmatch r' prev s c k with
      | Some v => Some v
      | None => k prev s c
      end
  | Grp i r' =>
      rmatch r' prev s c
        (fun prev' s' c' =>
           k prev' s' ((i, firstn (length s - length s') s) :: c'))
  | Cat r1 r2 =>
      rmatch r1 prev s c (fun prev' s' c' => rmatch r2 prev' s' c' k)
  end.

(** [pattern.match(s)]: the groups of the match at position 0, if any. *)
Definition re_match (r : regex) (s : str) : option caps :=
  rmatch r None s [] (fun _ _ c => Some c).

(** The length of the match of [r] at the current position. *)
Definition match_len (r : regex) (prev : option N) (s : str) : option nat :=
  rmatch r prev s [] (fun _ s' _ => Some (length s - length s')%nat).

(** [re.sub(r, repl, s)] for a constant [repl]: leftmost matches, without
    overlap.  [skip] counts the characters of a match still to be dropped.
    An empty match puts [repl] in front of the current character, and a
    match is tried once more at the end of the subject. *)
Fixpoint sub_from (r : regex) (repl : str) (skip : nat) (prev : option N)
    (s : str) : str :=
  match s with
  | [] =>
      match skip with
      | O => match match_len r prev [] with Some _ => repl | None => [] end
      | S _ => []
      end
  | x :: s' =>
      match skip with
      | S k => sub_from r repl k (Some x) s'
      | O =>
          match match_len r prev s with
          | Some O => repl ++ x :: sub_from r repl 0 (Some x) s'
          | Some (S n) => repl ++ sub_from r repl n (Some x) s'
          | None => x :: sub_from r repl 0 (Some x) s'
          end
      end
  end.

Definition re_sub (r : regex) (repl s : str) : str :=
  sub_from r repl 0 None s.

(** Character classes of the patterns. *)
Definition chr (s : string) : N := hd 0 (u s).
Definition lit (s : string) : N -> bool := fun c => c =? chr s.
Definition dot : N -> bool := fun c => negb (c =? NL).
Definition not_gt : N -> bool := fun c => negb (c =? chr ">").
Definition is_nl : N -> bool := fun c => c =? NL.

(** The truth value of a list or of a string: it is not empty. *)
Definition nonempty {A} (l : list A) : bool :=
  match l with [] => false | _ :: _ => true end.

Definition opt_str (o : option str) : str :=
  match o with Some s => s | None => [] end.

(** ** converters/dock_to_md.py *)

Definition CH_NUM : str := u "一二三四五六七八九十百千〇○".

Definition ch_num : N -> bool := in_set CH_NUM.

Local Open Scope re_scope.

(** [<[^>]+>] *)
Definition html_tag : regex :=
  Cls (lit "<") ;; Rep false 1 not_gt ;; Cls (lit ">").

(** [^>\s?] with [re.MULTILINE] *)
Definition blockquote : regex :=
  BolM ;; Cls (lit ">") ;; Opt (Cls isspace).

(** [\n{3,}] *)
Definition blank_run : regex := Rep false 3 is_nl.

(** [^\s*第([CH_NUM]+)編\s*(.+)?\s*$] *)
Definition p_part : regex :=
  Bol ;; Rep false 0 isspace ;; Cls (lit "第") ;; Grp 1 (Rep false 1 ch_num) ;;
  Cls (lit "編") ;; Rep false 0 isspace ;; Opt (Grp 2 (Rep false 1 dot)) ;;
  Rep false 0 isspace ;; Eol.

(** [^\s*([CH_NUM]+)、\s*(.+?)\s*$] *)
Definition p_article : regex :=
  Bol ;; Rep false 0 isspace ;; Grp 1 (Rep false 1 ch_num) ;; Cls (lit "、") ;;
  Rep false 0 isspace ;; Grp 2 (Rep true 1 dot) ;; Rep false 0 isspace ;; Eol.

(** [^\s*[\(（]([CH_NUM]+)[\)）]\s*(.+?)?\s*$] *)
Definition p_sub : regex :=
  Bol ;; Rep false 0 isspace ;; Cls (in_set (u "(（")) ;;
  Grp 1 (Rep false 1 ch_num) ;; Cls (in_set (u ")）")) ;;
  Rep false 0 isspace ;; Opt (Grp 2 (Rep true 1 dot)) ;;
  Rep false 0 isspace ;; Eol.

(** [^\s*(\d+)\.\s*(.+?)\s*$] *)
Definition p_num_item : regex :=
  Bol ;; Rep false 0 isspace ;; Grp 1 (Rep false 1 isdecimal) ;;
  Cls (lit ".") ;; Rep false 0 isspace ;; Grp 2 (Rep true 1 dot) ;;
  Rep false 0 isspace ;; Eol.

(** [^\d+\.\s], the test for a rendered list item *)
Definition list_item_start : regex :=
  Bol ;; Rep false 1 isdecimal ;; Cls (lit ".") ;; Cls isspace.

(** [^\s], the test for an indented raw line *)
Definition leading_space : regex := Bol ;; Cls isspace.

Local Close Scope re_scope.

Definition matches (r : regex) (s : str) : bool :=
  match re_match r s with Some _ => true | None => false end.

Definition clean_markdown (text : str) : str :=
  (* 1) remove HTML tags *)
  let text := re_sub html_tag [] text in
  (* 2) remove blockquote markers *)
  let text := re_sub blockquote [] text in
  (* 3) normalize line endings *)
  let text := replace [CR] [NL] (replace [CR; NL] [NL] text) in
  (* 4) trim trailing spaces on each line *)
  let text := join [NL] (map rstrip (splitlines text)) in
  (* 5) collapse excessive blank lines *)
  let text := re_sub blank_run [NL; NL] text in
  strip text.

(** [out and out[-1] != ""] *)
Definition last_nonblank (out : list str) : bool :=
  nonempty out && negb (str_eqb (last out []) []).

(** [if out and out[-1] != "": out.append("")] *)
Definition ensure_blank (out : list str) : list str :=
  if last_nonblank out then out ++ [[]] else out.

(** The state of the loop of [beautify_structure]: [out] and
    [prev_was_heading]. *)
Definition bstate : Type := (list str * bool)%type.

(** One iteration of the loop, on the raw line [raw]. *)
Definition beautify_line (st : bstate) (raw : str) : bstate :=
  let '(out, prev_was_heading) := st in
  let line := strip raw in
  if negb (nonempty line) then
    (* keep at most one blank line *)
    (ensure_blank out, false)
  else
  match re_match p_part line with
  | Some m =>
      let num := opt_str (group 1 m) in
      let title := strip (opt_str (group 2 m)) in
      let heading := rstrip (u "# 第" ++ num ++ u "編 " ++ title) in
      (ensure_blank out ++ [heading; []], true)
  | None =>
  match re_match p_article line with
  | Some m =>
      let num := opt_str (group 1 m) in
      let title := strip (opt_str (group 2 m)) in
      let heading := u "## " ++ num ++ u "、" ++ title in
      (ensure_blank out ++ [heading; []], true)
  | None =>
  match re_match p_sub line with
  | Some m =>
      let num := opt_str (group 1 m) in
      let title := strip (opt_str (group 2 m)) in
      let heading := rstrip (u "### （" ++ num ++ u "）" ++ title) in
      (ensure_blank out ++ [heading; []], true)
  | None =>
  match re_match p_num_item line with
  | Some m =>
      let idx := opt_str (group 1 m) in
      let body := strip (opt_str (group 2 m)) in
      let out :=
        if last_nonblank out && negb prev_was_heading
           && negb (matches list_item_start (last out []))
        then out ++ [[]] else out in
      (out ++ [idx ++ u ". " ++ body], false)
  | None =>
      (* default: keep as paragraph line *)
      let out :=
        if nonempty out && matches list_item_start (last out [])
           && negb (matches leading_space raw)
        then out ++ [[]] else out in
      (out ++ [line], false)
  end end end end.

Definition beautify_lines (lines : list str) : bstate :=
  fold_left beautify_line lines ([], false).

Definition beautify_structure (text : str) : str :=
  let out := fst (beautify_lines (splitlines text)) in
  let final := join [NL] out in
  strip (re_sub blank_run [NL; NL] final).

(** [os.path.splitext(p)[0]] of [posixpath]: the extension starts at the last
    dot of the last path component, leading dots of that component apart. *)
Fixpoint rfind_from (c : N) (s : str) (i : nat) (found : option nat)
  : option nat :=
  match s with
  | [] => found
  | x :: s' => rfind_from c s' (S i) (if x =? c then Some i else found)
  end.

Definition splitext_root (p : str) : str :=
  let start :=
    match rfind_from (chr "/") p 0 None with Some i => S i | None => O end in
  match rfind_from (chr ".") p 0 None with
  | Some d =>
      if Nat.leb start d
         && existsb (fun c => negb (c =? chr ".")) (firstn (d - start) (skipn start p))
      then firstn d p else p
  | None => p
  end.

Definition metadata_header (filename : str) : str :=
  let title := splitext_root filename in
  u "---" ++ [NL] ++ u "source: " ++ filename ++ [NL] ++
  u "title: " ++ title ++ [NL] ++ u "type: regulation" ++ [NL] ++
  u "---" ++ [NL] ++ [NL].

Definition add_metadata (filename body : str) : str :=
  metadata_header filename ++ strip body ++ [NL].

(** The text written for one document, the conversion by pandoc taken as
    given: [md_text] is what [pypandoc.convert_file] returned. *)
Definition render (md_text : str) : str :=
  beautify_structure (clean_markdown md_text).

(** The name of the file written for [filename]:
    [filename.replace(".docx", ".md")]. *)
Definition md_name (filename : str) : str :=
  replace (u ".docx") (u ".md") filename.

(** [str.lower()] on one code point (Unicode 14, CPython 3.11): the runs
    [(lo, hi, step, image of lo)] of code points with a lowercase mapping of
    one character; U+0130 alone has one of two characters. *)
Definition lower_runs : list (N * N * N * N) :=
  [(65, 90, 1, 97); (192, 214, 1, 224); (216, 222, 1, 248); (256, 302, 2, 257);
   (306, 310, 2, 307); (313, 327, 2, 314); (330, 374, 2, 331);
   (376, 376, 1, 255); (377, 381, 2, 378); (385, 385, 1, 595);
   (386, 388, 2, 387); (390, 390, 1, 596); (391, 391, 1, 392);
   (393, 394, 1, 598); (395, 395, 1, 396); (398, 398, 1, 477);
   (399, 399, 1, 601); (400, 400, 1, 603); (401, 401, 1, 402);
   (403, 403, 1, 608); (404, 404, 1, 611); (406, 406, 1, 617);
   (407, 407, 1, 616); (408, 408, 1, 409); (412, 412, 1, 623);
   (413, 413, 1, 626); (415, 415, 1, 629); (416, 420, 2, 417);
   (422, 422, 1, 640); (423, 423, 1, 424); (425, 425, 1, 643);
   (428, 428, 1, 429); (430, 430, 1, 648); (431, 431, 1, 432);
   (433, 434, 1, 650); (435, 437, 2, 436); (439, 439, 1, 658);
   (440, 440, 1, 441); (444, 444, 1, 445); (452, 452, 1, 454);
   (453, 453, 1, 454); (455, 455, 1, 457); (456, 456, 1, 457);
   (458, 458, 1, 460); (459, 475, 2, 460); (478, 494, 2, 479);
   (497, 497, 1, 499); (498, 500, 2, 499); (502, 502, 1, 405);
   (503, 503, 1, 447); (504, 542, 2, 505); (544, 544, 1, 414);
   (546, 562, 2, 547); (570, 570, 1, 11365); (571, 571, 1, 572);
   (573, 573, 1, 410); (574, 574, 1, 11366); (577, 577, 1, 578);
   (579, 579, 1, 384); (580, 580, 1, 649); (581, 581, 1, 652);
   (582, 590, 2, 583); (880, 882, 2, 881); (886, 886, 1, 887);
   (895, 895, 1, 1011); (902, 902, 1, 940); (904, 906, 1, 941);
   (908, 908, 1, 972); (910, 911, 1, 973); (913, 929, 1, 945);
   (931, 939, 1, 963); (975, 975, 1, 983); (984, 1006, 2, 985);
   (1012, 1012, 1, 952); (1015, 1015, 1, 1016); (1017, 1017, 1, 1010);
   (1018, 1018, 1, 1019); (1021, 1023, 1, 891); (1024, 1039, 1, 1104);
   (1040, 1071, 1, 1072); (1120, 1152, 2, 1121); (1162, 1214, 2, 1163);
   (1216, 1216, 1, 1231); (1217, 1229, 2, 1218); (1232, 1326, 2, 1233);
   (1329, 1366, 1, 1377); (4256, 4293, 1, 11520); (4295, 4295, 1, 11559);
   (4301, 4301, 1, 11565); (5024, 5103, 1, 43888); (5104, 5109, 1, 5112);
   (7312, 7354, 1, 4304); (7357, 7359, 1, 4349); (7680, 7828, 2, 7681);
   (7838, 7838, 1, 223); (7840, 7934, 2, 7841); (7944, 7951, 1, 7936);
   (7960, 7965, 1, 7952); (7976, 7983, 1, 7968); (7992, 7999, 1, 7984);
   (8008, 8013, 1, 8000); (8025, 8031, 2, 8017); (8040, 8047, 1, 8032);
   (8072, 8079, 1, 8064); (8088, 8095, 1, 8080); (8104, 8111, 1, 8096);
   (8120, 8121, 1, 8112); (8122, 8123, 1, 8048); (8124, 8124, 1, 8115);
   (8136, 8139, 1, 8050); (8140, 8140, 1, 8131); (8152, 8153, 1, 8144);
   (8154, 8155, 1, 8054); (8168, 8169, 1, 8160); (8170, 8171, 1, 8058);
   (8172, 8172, 1, 8165); (8184, 8185, 1, 8056); (8186, 8187, 1, 8060);
   (8188, 8188, 1, 8179); (8486, 8486, 1, 969); (8490, 8490, 1, 107);
   (8491, 8491, 1, 229); (8498, 8498, 1, 8526); (8544, 8559, 1, 8560);
   (8579, 8579, 1, 8580); (9398, 9423, 1, 9424); (11264, 11311, 1, 11312);
   (11360, 11360, 1, 11361); (11362, 11362, 1, 619); (11363, 11363, 1, 7549);
   (11364, 11364, 1, 637); (11367, 11371, 2, 11368); (11373, 11373, 1, 593);
   (11374, 11374, 1, 625); (11375, 11375, 1, 592); (11376, 11376, 1, 594);
   (11378, 11378, 1, 11379); (11381, 11381, 1, 11382); (11390, 11391, 1, 575);
   (11392, 11490, 2, 11393); (11499, 11501, 2, 11500);
   (11506, 11506, 1, 11507); (42560, 42604, 2, 42561);
   (42624, 42650, 2, 42625); (42786, 42798, 2, 42787);
   (42802, 42862, 2, 42803); (42873, 42875, 2, 42874); (42877, 42877, 1, 7545);
   (42878, 42886, 2, 42879); (42891, 42891, 1, 42892); (42893, 42893, 1, 613);
   (42896, 42898, 2, 42897); (42902, 42920, 2, 42903); (42922, 42922, 1, 614);
   (42923, 42923, 1, 604); (42924, 42924, 1, 609); (42925, 42925, 1, 620);
   (42926, 42926, 1, 618); (42928, 42928, 1, 670); (42929, 42929, 1, 647);
   (42930, 42930, 1, 669); (42931, 42931, 1, 43859); (42932, 42946, 2, 42933);
   (42948, 42948, 1, 42900); (42949, 42949, 1, 642); (42950, 42950, 1, 7566);
   (42951, 42953, 2, 42952); (42960, 42960, 1, 42961);
   (42966, 42968, 2, 42967); (42997, 42997, 1, 42998);
   (65313, 65338, 1, 65345); (66560, 66599, 1, 66600);
   (66736, 66771, 1, 66776); (66928, 66938, 1, 66967);
   (66940, 66954, 1, 66979); (66956, 66962, 1, 66995);
   (66964, 66965, 1, 67003); (68736, 68786, 1, 68800);
   (71840, 71871, 1, 71872); (93760, 93791, 1, 93792);
   (125184, 125217, 1, 125218)].

Definition lower_char (c : N) : str :=
  if c =? 304 then [105; 775]
  else
    match
      find (fun r : N * N * N * N =>
              let '(lo, hi, step, _) := r in
              (lo <=? c) && (c <=? hi) && ((c - lo) mod step =? 0))
        lower_runs
    with
    | Some (lo, _, _, image) => [image + (c - lo)]
    | None => [c]
    end.

Section Lower.

(** Whether the capital sigma at index [i] of the string stands in the
    Final_Sigma context; the rule rests on the case properties of the
    characters around it and is left open here. *)
Variable final_sigma : str -> nat -> bool.

Fixpoint lower_from (whole : str) (i : nat) (s : str) : str :=
  match s with
  | [] => []
  | c :: s' =>
      (if c =? 931 then [if final_sigma whole i then 962 else 963]
       else lower_char c)
      ++ lower_from whole (S i) s'
  end.

(** [s.lower()] *)
Definition lower (s : str) : str := lower_from s 0 s.

(** The files [convert_all_docx_to_md] converts:
    [filename.lower().endswith(".docx")]. *)
Definition is_md_source (filename : str) : bool :=
  ends_with (u ".docx") (lower filename).

End Lower.

(** ** converters/docx_to_json.py *)

Record sub_section : Type :=
  { sub_heading : str; content : list str }.

Record section : Type :=
  { heading : str; sub_sections : list sub_section }.

Record document : Type :=
  { document_name : str; sections : list section }.

Definition ten_num : N -> bool := in_set (u "一二三四五六七八九十").

Local Open Scope re_scope.

(** [^[一二三四五六七八九十]+、] *)
Definition main_heading_pattern : regex :=
  Bol ;; Rep false 1 ten_num ;; Cls (lit "、").

(** [^[(（][一二三四五六七八九十]+[)）]] *)
Definition sub_heading_pattern : regex :=
  Bol ;; Cls (in_set (u "(（")) ;; Rep false 1 ten_num ;;
  Cls (in_set (u ")）")).

Local Close Scope re_scope.

Definition FRONT : str := u "文件前言與大標".
Definition BODY : str := u "本文".

(** The state of the loop over the paragraphs: the sections stored in
    [document_data], [current_section] and [current_sub_section]. *)
Record tstate : Type :=
  { stored : list section;
    current_section : section;
    current_sub_section : sub_section }.

(** [if current_sub_section["content"] or
        current_sub_section["sub_heading"] != "本文":
          current_section["sub_sections"].append(current_sub_section)] *)
Definition close_sub (sec : section) (sub : sub_section) : section :=
  if nonempty (content sub) || negb (str_eqb (sub_heading sub) BODY)
  then {| heading := heading sec;
          sub_sections := sub_sections sec ++ [sub] |}
  else sec.

(** [if current_section["sub_sections"] or
        current_section["heading"] != "文件前言與大標":
          document_data["sections"].append(current_section)] *)
Definition close_section (secs : list section) (sec : section)
  : list section :=
  if nonempty (sub_sections sec) || negb (str_eqb (heading sec) FRONT)
  then secs ++ [sec] else secs.

Definition init_tstate : tstate :=
  {| stored := [];
     current_section := {| heading := FRONT; sub_sections := [] |};
     current_sub_section := {| sub_heading := BODY; content := [] |} |}.

(** One iteration of the loop, on the text of one paragraph. *)
Definition tree_para (st : tstate) (para_text : str) : tstate :=
  let text := strip para_text in
  if negb (nonempty text) then st
  else if matches main_heading_pattern text then
    let sec := close_sub (current_section st) (current_sub_section st) in
    {| stored := close_section (stored st) sec;
       current_section := {| heading := text; sub_sections := [] |};
       current_sub_section := {| sub_heading := BODY; content := [] |} |}
  else if matches sub_heading_pattern text then
    {| stored := stored st;
       current_section :=
         close_sub (current_section st) (current_sub_section st);
       current_sub_section := {| sub_heading := text; content := [] |} |}
  else
    {| stored := stored st;
       current_section := current_section st;
       current_sub_section :=
         {| sub_heading := sub_heading (current_sub_section st);
            content := content (current_sub_section st) ++ [text] |} |}.

(** The sections of [document_data] when the loop is over. *)
Definition tree_finish (st : tstate) : list section :=
  close_section (stored st)
    (close_sub (current_section st) (current_sub_section st)).

Definition tree_sections (paragraphs : list str) : list section :=
  tree_finish (fold_left tree_para paragraphs init_tstate).

(** The object dumped for the file [filename] with the given paragraph
    texts. *)
(** The files of the folder that are converted:
    [filename.endswith('.docx') and not filename.startswith('~')]. *)
Definition is_docx (filename : str) : bool :=
  ends_with (u ".docx") filename && negb (starts_with (u "~") filename).

(** The name of the file written: [filename.replace('.docx', '.json')]. *)
Definition json_name (filename : str) : str :=
  replace (u ".docx") (u ".json") filename.

Definition docx_to_deep_structured_json (filename : str)
    (paragraphs : list str) : document :=
  {| document_name := filename; sections := tree_sections paragraphs |}.

(** ** docx_to_json.py: the [content] list of the flat dump *)
Fixpoint docx_to_json (paragraphs : list str) : list str :=
  match paragraphs with
  | [] => []
  | para :: rest =>
      let text := strip para in
      if nonempty text then text :: docx_to_json rest
      else docx_to_json rest
  end.


(** ** genQA_pair/gen_qa.py *)

(** The values [json.loads] returns: [None], [bool], [int], [float], [str],
    [list] and [dict].  A [dict] keeps its keys in insertion order: it is the
    list of its items, with distinct keys.  A [float] is its IEEE 754 bit
    pattern. *)
#[warnings="-register-all"]
Inductive json : Type :=
| JNull
| JBool (b : bool)
| JInt (n : Z)
| JFloat (bits : N)
| JStr (s : str)
| JArr (items : list json)
| JObj (fields : list (str * json)).

(** [d.get(k)], with [None] for a missing key *)
Fixpoint dict_get (k : str) (d : list (str * json)) : option json :=
  match d with
  | [] => None
  | (k', v) :: d' => if str_eqb k k' then Some v else dict_get k d'
  end.

(** [d[k] = v]: the value of a key of [d] is replaced where it stands, a new
    key goes to the end. *)
Fixpoint dict_set (k : str) (v : json) (d : list (str * json))
  : list (str * json) :=
  match d with
  | [] => [(k, v)]
  | (k', v') :: d' =>
      if str_eqb k k' then (k, v) :: d' else (k', v') :: dict_set k v d'
  end.

Definition META : str := u "meta_info".
Definition SOURCE : str := u "source_document".
Definition QA_PAIRS : str := u "qa_pairs".

(** [re.search(r, s)] from a position with [prev] before it: the text of the
    leftmost match ([match.group()]), if any. *)
Fixpoint re_search_group (r : regex) (prev : option N) (s : str)
  : option str :=
  match s with
  | [] => match match_len r prev [] with Some n => Some [] | None => None end
  | x :: s' =>
      match match_len r prev s with
      | Some n => Some (firstn n s)
      | None => re_search_group r (Some x) s'
      end
  end.

Local Open Scope re_scope.

(** [\{.*\}] with [re.DOTALL]: the dot matches every character. *)
Definition brace_span : regex :=
  Cls (lit "{") ;; Rep false 0 (fun _ => true) ;; Cls (lit "}").

Local Close Scope re_scope.

Section ParseResponse.

(** [json.loads]: the value of a JSON text, [None] when it raises
    [JSONDecodeError]. *)
Variable loads : str -> option json.

(** [parse_json_response(raw)]; [None] when it raises [ValueError]. *)
Definition parse_json_response (raw : str) : option json :=
  let raw := strip raw in
  match loads raw with
  | Some v => Some v
  | None =>
      (* fallback: extract outermost {...} *)
      match re_search_group brace_span None raw with
      | Some g =>
          match loads g with
          | Some v => Some v
          | None => None
          end
      | None => None
      end
  end.

End ParseResponse.

(** The body of the loop of [inject_source_document]:
    [meta = pair.setdefault("meta_info", {})] and
    [meta["source_document"] = doc_name].  [None]: the statements raise
    ([AttributeError] when [pair] is no [dict], [TypeError] when [meta] is no
    [dict]).  [meta] is the object stored in [pair], so that [pair] sees the
    assignment.  ([pair] is written [qa_pair] here.) *)
Definition inject_pair (doc_name : str) (qa_pair : json) : option json :=
  match qa_pair with
  | JObj d =>
      match dict_get META d with
      | Some (JObj m) =>
          Some (JObj (dict_set META (JObj (dict_set SOURCE (JStr doc_name) m))
                        d))
      | Some _ => None
      | None =>
          Some (JObj (dict_set META (JObj [(SOURCE, JStr doc_name)]) d))
      end
  | _ => None
  end.

(** [inject_source_document(pairs, doc_name)]: the list returned, [None]
    when the loop raises. *)
Fixpoint inject_source_document (pairs : list json) (doc_name : str)
  : option (list json) :=
  match pairs with
  | [] => Some []
  | qa_pair :: rest =>
      match inject_pair doc_name qa_pair with
      | Some qa_pair' =>
          match inject_source_document rest doc_name with
          | Some rest' => Some (qa_pair' :: rest')
          | None => None
          end
      | None => None
      end
  end.

(** The file at [output_path]: missing, holding the JSON text of a value, or
    holding a text that [json.loads] rejects (the empty file is one). *)
Inductive out_file : Type :=
| NoFile
| BadFile
| FileOf (v : json).

(** A text can be written with [encoding="utf-8"] when it holds no
    surrogate code point; [json.dumps(..., ensure_ascii=False)] leaves the
    characters of the strings as they are. *)
Definition is_surrogate (c : N) : bool := (55296 <=? c) && (c <=? 57343).

Definition str_encodable (s : str) : bool :=
  forallb (fun c => negb (is_surrogate c)) s.

Fixpoint encodable (v : json) : bool :=
  match v with
  | JStr s => str_encodable s
  | JArr items => forallb encodable items
  | JObj fields =>
      forallb (fun kv => str_encodable (fst kv) && encodable (snd kv)) fields
  | _ => true
  end.

(** [append_to_output(output_path, new_pairs)]: the file afterwards, and the
    number returned, [None] when the function raises.  Reading raises before
    anything is written; [write_text] truncates the file when it opens it and
    raises [UnicodeEncodeError] before it writes. *)
Definition append_to_output (file : out_file) (new_pairs : list json)
  : out_file * option nat :=
  let existing_pairs :=
    match file with
    | NoFile => Some (JArr [])
    | BadFile => None
    | FileOf (JObj existing) =>
        match dict_get QA_PAIRS existing with
        | Some v => Some v
        | None => Some (JArr [])
        end
    | FileOf _ => None
    end in
  match existing_pairs with
  | Some (JArr pairs) =>
      let merged := pairs ++ new_pairs in
      if encodable (JArr merged)
      then (FileOf (JObj [(QA_PAIRS, JArr merged)]), Some (length merged))
      else (BadFile, None)
  | _ => (file, None)
  end.


(** * Notions used in the statements *)

(** ** The tree: content lines and sentinels *)

(** The content lines of a list of sections, in traversal order. *)
Definition section_lines (sec : section) : list str :=
  flat_map content (sub_sections sec).

Definition tree_lines (secs : list section) : list str :=
  flat_map section_lines secs.

(** A text unit is Plain for the tree builder when neither of its two
    heading patterns matches. *)
Definition is_plain (text : str) : bool :=
  negb (matches main_heading_pattern text)
  && negb (matches sub_heading_pattern text).

Definition pending_lines (st : tstate) : list str :=
  tree_lines (stored st) ++ section_lines (current_section st)
  ++ content (current_sub_section st).

(** What [close_sub] and [close_section] let through. *)
Definition sub_kept (sub : sub_section) : bool :=
  nonempty (content sub) || negb (str_eqb (sub_heading sub) BODY).

Definition section_kept (sec : section) : bool :=
  nonempty (sub_sections sec) || negb (str_eqb (heading sec) FRONT).

Definition section_wf (sec : section) : Prop :=
  section_kept sec = true /\
  Forall (fun sub => sub_kept sub = true) (sub_sections sec).

Definition tstate_wf (st : tstate) : Prop :=
  Forall section_wf (stored st) /\
  Forall (fun sub => sub_kept sub = true) (sub_sections (current_section st)).

(** Sections opened by a main heading. *)
Definition headed (sec : section) : Prop :=
  matches main_heading_pattern (heading sec) = true.

Definition tstate_headed (st : tstate) : Prop :=
  Forall headed (stored st) /\ headed (current_section st).

(** ** Test vectors *)

Definition heading_only_input : list str := [u "三、動物與環境"].

Definition five_line_input : list str :=
  [u "一、總則"; u "本規定依..."; u "(一) 適用範圍"; u "本規定適用於...";
   u "二、權責"].

(** The text units of a sequence, as the lines of one text. *)
Definition as_text (units : list str) : str := join [NL] units.

(** ** Prefixes in a character class *)

(** The longest prefix in a class, and what follows it. *)
Fixpoint take_while (p : N -> bool) (s : str) : str :=
  match s with
  | x :: s' => if p x then x :: take_while p s' else []
  | [] => []
  end.

Fixpoint drop_while (p : N -> bool) (s : str) : str :=
  match s with
  | x :: s' => if p x then drop_while p s' else s
  | [] => []
  end.

(** The character before the position, once [a] has been read. *)
Definition adv (prev : option N) (a : str) : option N :=
  fold_left (fun _ x => Some x) a prev.

(** ** Stripped strings *)

(** A string in which [rstrip] finds nothing to remove. *)
Definition rtrimmed (s : str) : Prop := rstrip s = s.

(** A string in which [lstrip] finds nothing to remove. *)
Definition ltrimmed (s : str) : Prop := lstrip s = s.

(** A stripped string: nothing to remove on either side. *)
Definition trimmed (s : str) : Prop := ltrimmed s /\ rtrimmed s.

(** No newline inside: every character is matched by [.]. *)
Definition one_line (s : str) : Prop := Forall (fun x => dot x = true) s.

(** ** The heading patterns, described directly *)

(** The groups after the title part of a pattern has read [r]. *)
Definition title_caps (r : str) (c : caps) : caps :=
  if nonempty r then (2%nat, lstrip r) :: c else c.

(** What [p_part] finds on a tidy line: 第, the numeral, 編, and the title
    behind it. *)
Definition part_spec (line : str) : option caps :=
  match line with
  | x :: s =>
      if lit "第" x then
        match drop_while ch_num s with
        | y :: r =>
            if nonempty (take_while ch_num s) && lit "編" y
            then Some (title_caps r [(1%nat, take_while ch_num s)])
            else None
        | [] => None
        end
      else None
  | [] => None
  end.

(** What [p_article] finds: the numeral, 、, and a title that is not
    empty. *)
Definition article_spec (line : str) : option caps :=
  match drop_while ch_num line with
  | y :: r =>
      if nonempty (take_while ch_num line) && lit "、" y && nonempty r
      then Some [(2%nat, lstrip r); (1%nat, take_while ch_num line)]
      else None
  | [] => None
  end.

(** What [p_sub] finds: a bracket of either width, the numeral, a closing
    bracket of either width, and the title behind it. *)
Definition sub_spec (line : str) : option caps :=
  match line with
  | x :: s =>
      if in_set (u "(（") x then
        match drop_while ch_num s with
        | y :: r =>
            if nonempty (take_while ch_num s) && in_set (u ")）") y
            then Some (title_caps r [(1%nat, take_while ch_num s)])
            else None
        | [] => None
        end
      else None
  | [] => None
  end.

(** What [p_num_item] finds: decimal digits, a point, and a body that is
    not empty. *)
Definition num_item_spec (line : str) : option caps :=
  match drop_while isdecimal line with
  | y :: r =>
      if nonempty (take_while isdecimal line) && lit "." y && nonempty r
      then Some [(2%nat, lstrip r); (1%nat, take_while isdecimal line)]
      else None
  | [] => None
  end.

(** A line as the loop of [beautify_structure] classifies it: stripped, and
    without a newline inside. *)
Definition tidy_line (line : str) : Prop := trimmed line /\ one_line line.

(** ** Runs of newlines, lines *)

(** The number of newlines a text starts with. *)
Definition nl_run (s : str) : nat := length (take_while is_nl s).

(** No three newlines in a row, anywhere. *)
Fixpoint no_blank_run (s : str) : bool :=
  match s with
  | [] => true
  | x :: s' => negb (3 <=? nl_run (x :: s'))%nat && no_blank_run s'
  end.

(** No line boundary inside. *)
Definition unbroken (s : str) : Prop :=
  Forall (fun x => is_linebreak x = false) s.

(** ** The loop body of [beautify_structure], case by case *)

Definition part_heading (m : caps) : str :=
  rstrip (u "# 第" ++ opt_str (group 1 m) ++ u "編 "
          ++ strip (opt_str (group 2 m))).

Definition article_heading (m : caps) : str :=
  u "## " ++ opt_str (group 1 m) ++ u "、" ++ strip (opt_str (group 2 m)).

Definition sub_heading_line (m : caps) : str :=
  rstrip (u "### （" ++ opt_str (group 1 m) ++ u "）"
          ++ strip (opt_str (group 2 m))).

Definition item_text (m : caps) : str :=
  opt_str (group 1 m) ++ u ". " ++ strip (opt_str (group 2 m)).

(** [out] before a list item is appended. *)
Definition before_item (out : list str) (prev_was_heading : bool)
  : list str :=
  if last_nonblank out && negb prev_was_heading
     && negb (matches list_item_start (last out []))
  then out ++ [[]] else out.

(** [out] before a paragraph line is appended. *)
Definition before_para (out : list str) (raw : str) : list str :=
  if nonempty out && matches list_item_start (last out [])
     && negb (matches leading_space raw)
  then out ++ [[]] else out.

Inductive line_case (out : list str) (flag : bool) (raw : str)
  : bstate -> Prop :=
| case_blank :
    nonempty (strip raw) = false ->
    line_case out flag raw (ensure_blank out, false)
| case_part m :
    nonempty (strip raw) = true ->
    re_match p_part (strip raw) = Some m ->
    line_case out flag raw
      (ensure_blank out ++ [part_heading m; []], true)
| case_article m :
    nonempty (strip raw) = true ->
    re_match p_part (strip raw) = None ->
    re_match p_article (strip raw) = Some m ->
    line_case out flag raw
      (ensure_blank out ++ [article_heading m; []], true)
| case_sub m :
    nonempty (strip raw) = true ->
    re_match p_part (strip raw) = None ->
    re_match p_article (strip raw) = None ->
    re_match p_sub (strip raw) = Some m ->
    line_case out flag raw
      (ensure_blank out ++ [sub_heading_line m; []], true)
| case_item m :
    nonempty (strip raw) = true ->
    re_match p_part (strip raw) = None ->
    re_match p_article (strip raw) = None ->
    re_match p_sub (strip raw) = None ->
    re_match p_num_item (strip raw) = Some m ->
    line_case out flag raw (before_item out flag ++ [item_text m], false)
| case_para :
    nonempty (strip raw) = true ->
    re_match p_part (strip raw) = None ->
    re_match p_article (strip raw) = None ->
    re_match p_sub (strip raw) = None ->
    re_match p_num_item (strip raw) = None ->
    line_case out flag raw (before_para out raw ++ [strip raw], false).

(** ** The classifier of the specification *)

Inductive level : Type := Part | Article | SubItem | NumberedItem | Plain.

(** The classifier as the specification words it: the four heading patterns
    in their fixed order, the first match wins, no match is Plain. *)
Definition classify (line : str) : level :=
  if matches p_part line then Part
  else if matches p_article line then Article
  else if matches p_sub line then SubItem
  else if matches p_num_item line then NumberedItem
  else Plain.

Definition all_in (p : N -> bool) (s : str) : Prop :=
  Forall (fun x => p x = true) s.

(** ** The shape of [out] *)

(** A rendered line that is not blank: stripped, and no line boundary or
    newline inside. *)
Definition solid (l : str) : Prop := l <> [] /\ trimmed l /\ unbroken l.

Definition heading_line (h : str) : Prop :=
  solid h /\ exists t, h = chr "#" :: t.

Definition item_line (l : str) : Prop :=
  exists idx body,
    l = idx ++ u ". " ++ body /\ idx <> [] /\ all_in isdecimal idx /\
    solid body.

Definition para_line (l : str) : Prop :=
  solid l /\ re_match p_part l = None /\ re_match p_article l = None /\
  re_match p_sub l = None /\ re_match p_num_item l = None.

(** [out] as the loop builds it: a blank line only after a line that is not
    blank, a heading only at the start or after a blank line, a list item
    at the start, after a blank line or after a list item. *)
Inductive shaped : list str -> Prop :=
| shaped_nil : shaped []
| shaped_blank out :
    shaped out -> last_nonblank out = true -> shaped (out ++ [[]])
| shaped_heading out h :
    shaped out -> last_nonblank out = false -> heading_line h ->
    shaped (out ++ [h])
| shaped_item out l :
    shaped out ->
    last_nonblank out = false \/
    matches list_item_start (last out []) = true ->
    item_line l -> shaped (out ++ [l])
| shaped_para out l : shaped out -> para_line l -> shaped (out ++ [l]).

(** The newlines a joined [out] ends with. *)
Definition open_blank (out : list str) : nat :=
  if last_nonblank out then 0%nat else if nonempty out then 1%nat else 0%nat.

(** The lines of the returned text: [out] without its final blank line. *)
Definition final_lines (out : list str) : list str :=
  if last_nonblank out then out else removelast out.

(** ** Lines of a rendered text *)

(** A blank line: empty, or white space only. *)
Definition is_blank (l : str) : bool := forallb isspace l.

(** No two blank lines in a row. *)
Fixpoint no_double_blank (ls : list str) : bool :=
  match ls with
  | [] => true
  | a :: rest =>
      match rest with
      | [] => true
      | b :: _ => negb (is_blank a && is_blank b) && no_double_blank rest
      end
  end.

(** [s.endswith("\n")] *)
Definition ends_with_newline (s : str) : bool := last s 0 =? NL.

(** What [^\d+\.\s] finds. *)
Definition list_item_spec (l : str) : bool :=
  match drop_while isdecimal l with
  | y :: w :: _ =>
      nonempty (take_while isdecimal l) && lit "." y && isspace w
  | _ => false
  end.

(** No list item line directly followed by a line that is neither blank nor
    a list item. *)
Fixpoint no_para_after_item (ls : list str) : bool :=
  match ls with
  | [] => true
  | p :: rest =>
      match rest with
      | [] => true
      | l :: _ =>
          (negb (matches list_item_start p) || negb (nonempty l)
           || matches list_item_start l)
          && no_para_after_item rest
      end
  end.

(** ** Searching a text for a pattern *)

(** [re.search(r, s) is not None], from a position with [prev] before it. *)
Fixpoint re_search (r : regex) (prev : option N) (s : str) : bool :=
  match s with
  | [] => match match_len r prev [] with Some _ => true | None => false end
  | x :: s' =>
      match match_len r prev s with
      | Some _ => true
      | None => re_search r (Some x) s'
      end
  end.

Definition sample_document : str :=
  u "第一編 總則" ++ [CR; NL] ++ u "一、目的  " ++ [NL] ++ [NL] ++ [NL]
  ++ u "> 本規定依<b>採購法</b>訂定。" ++ [NL] ++ u "（一）適用範圍" ++ [NL]
  ++ u "1.機關" ++ [NL] ++ u "2. 廠商" ++ [NL] ++ u "附則".

(** ** Angle brackets: the positions where [<[^>]+>] can match *)

(** Reading a text from the left: [Quiet], nothing pending; [Opened], the
    last character was a [<] that a [>] may still close at once; [Exposed],
    some [<] has been left open, so that any later [>] completes a tag;
    [Tagged], a tag is in the text. *)
Inductive angle : Type := Quiet | Opened | Exposed | Tagged.

Definition is_lt : N -> bool := fun c => c =? chr "<".
Definition is_gt : N -> bool := fun c => c =? chr ">".

Definition angle_step (q : angle) (c : N) : angle :=
  match q with
  | Quiet => if is_lt c then Opened else Quiet
  | Opened => if is_gt c then Quiet else Exposed
  | Exposed => if is_gt c then Tagged else Exposed
  | Tagged => Tagged
  end.

Definition angle_run (q : angle) (s : str) : angle := fold_left angle_step s q.

Definition untagged (q : angle) : bool :=
  match q with Tagged => false | _ => true end.

(** The state after at least one character that is no angle bracket. *)
Definition settle (q : angle) : angle :=
  match q with Opened => Exposed | _ => q end.

Definition calm (q : angle) : bool :=
  match q with Opened => false | _ => true end.

(** No angle bracket inside. *)
Definition plain_chars (s : str) : Prop :=
  Forall (fun c => is_lt c = false /\ is_gt c = false) s.

(** The state after each line of [ls], every one followed by a newline. *)
Definition angle_feed (q : angle) (ls : list str) : angle :=
  fold_left (fun q l => angle_run q (l ++ [NL])) ls q.

(** [^] under [re.MULTILINE]: at the start, or behind a newline. *)
Definition at_line_start (prev : option N) : bool :=
  match prev with None => true | Some x => x =? NL end.

(** ** The lines of a text, one by one *)

(** The line the loop of [beautify_structure] appends for a stripped line
    that is not blank: the heading, the list item, or the line itself. *)
Definition format_line (line : str) : str :=
  match re_match p_part line with
  | Some m => part_heading m
  | None =>
  match re_match p_article line with
  | Some m => article_heading m
  | None =>
  match re_match p_sub line with
  | Some m => sub_heading_line m
  | None =>
  match re_match p_num_item line with
  | Some m => item_text m
  | None => line
  end end end end.

(** The lines of a text that are not blank, stripped. *)
Definition text_lines (text : str) : list str :=
  filter nonempty (map strip (splitlines text)).

(** ** Texts with tidy line ends *)

(** The newline is the only line boundary in the text. *)
Definition newline_only (s : str) : Prop :=
  Forall (fun c => is_linebreak c = true -> c = NL) s.

(** No white space at the end of a line: a white space character other than
    the newline is followed by a character, and not by a newline. *)
Fixpoint line_ends_clean (s : str) : bool :=
  match s with
  | [] => true
  | x :: s' =>
      (negb (isspace x) || is_nl x
       || match s' with [] => false | y :: _ => negb (is_nl y) end)
      && line_ends_clean s'
  end.

(** ** The tree, read back as a sequence of text units *)

(** The text units of a tree in traversal order: headings and content, the
    two sentinel names left out. *)
Definition sub_units (sub : sub_section) : list str :=
  (if str_eqb (sub_heading sub) BODY then [] else [sub_heading sub])
  ++ content sub.

Definition section_units (sec : section) : list str :=
  (if str_eqb (heading sec) FRONT then [] else [heading sec])
  ++ flat_map sub_units (sub_sections sec).

Definition tree_units (secs : list section) : list str :=
  flat_map section_units secs.

Definition pending_units (st : tstate) : list str :=
  tree_units (stored st) ++ section_units (current_section st)
  ++ sub_units (current_sub_section st).

(** The headings of a tree that are not sentinels. *)
Definition named_sections (secs : list section) : list str :=
  filter (fun h => negb (str_eqb h FRONT)) (map heading secs).

Definition named_subs (sec : section) : list str :=
  filter (fun h => negb (str_eqb h BODY))
    (map sub_heading (sub_sections sec)).

(** A sub-item heading for the tree builder: the second pattern matches and
    the first does not. *)
Definition is_sub_heading (text : str) : bool :=
  negb (matches main_heading_pattern text)
  && matches sub_heading_pattern text.

(** Sub-sections opened by a sub-item heading. *)
Definition sub_headed (sub : sub_section) : Prop :=
  matches sub_heading_pattern (sub_heading sub) = true.

(** The loop state with the sections [secs] stored before its own. *)
Definition add_stored (secs : list section) (st : tstate) : tstate :=
  {| stored := secs ++ stored st;
     current_section := current_section st;
     current_sub_section := current_sub_section st |}.

(** Sentinels stand first: every section behind the first one of the list
    was opened by a heading, and so was every sub-section behind the first
    one of a section. *)
Definition subs_in_place (sec : section) : Prop :=
  Forall sub_headed (tl (sub_sections sec)).

Definition tstate_in_place (st : tstate) : Prop :=
  Forall headed (tl (stored st))
  /\ (stored st <> [] -> headed (current_section st))
  /\ Forall subs_in_place (stored st)
  /\ subs_in_place (current_section st)
  /\ (sub_sections (current_section st) <> [] ->
      sub_headed (current_sub_section st)).

(** ** Substrings *)

(** [old in s] *)
Fixpoint occurs (old s : str) : bool :=
  starts_with old s
  || match s with [] => false | _ :: s' => occurs old s' end.

(** ** Question-answer pairs *)

(** The text behind the last [}] of [s], if [s] holds one. *)
Fixpoint after_last_brace (s : str) : option str :=
  match s with
  | [] => None
  | x :: s' =>
      match after_last_brace s' with
      | Some r => Some r
      | None => if lit "}" x then Some s' else None
      end
  end.

(** A pair the loop of [inject_source_document] can handle: a [dict] whose
    ["meta_info"], when it has one, is a [dict]. *)
Definition injectable (qa_pair : json) : bool :=
  match qa_pair with
  | JObj d =>
      match dict_get META d with
      | Some (JObj _) | None => true
      | Some _ => false
      end
  | _ => false
  end.

(** The ["meta_info"] of a pair before the loop reaches it: its items, none
    when the key is missing. *)
Definition meta_fields (d : list (str * json)) : list (str * json) :=
  match dict_get META d with
  | Some (JObj m) => m
  | _ => []
  end.

(** A file [append_to_output] can add to: no file yet, or an object whose
    ["qa_pairs"], when it has one, is a list.  [stored_pairs] are the pairs
    it holds. *)
Definition stored_pairs (file : out_file) : option (list json) :=
  match file with
  | NoFile => Some []
  | BadFile => None
  | FileOf (JObj d) =>
      match dict_get QA_PAIRS d with
      | Some (JArr pairs) => Some pairs
      | Some _ => None
      | None => Some []
      end
  | FileOf _ => None
  end.

(** The three heading levels of the renderer. *)
Definition is_heading_level (l : level) : bool :=
  match l with
  | Part | Article | SubItem => true
  | NumberedItem | Plain => false
  end.

(** ** File extensions *)

(** ".docx" in any mix of upper and lower case. *)
Definition docx_variant (ext : str) : bool :=
  match ext with
  | [p; d; o; c; x] =>
      (p =? chr ".") && in_set (u "dD") d && in_set (u "oO") o
      && in_set (u "cC") c && in_set (u "xX") x
  | _ => false
  end.

(** * Properties *)

(** ** The tree builder *)

Lemma nonempty_false {A} (l : list A) : nonempty l = false -> l = [].
Proof. destruct l; simpl; congruence. Qed.

Lemma nonempty_true {A} (l : list A) : nonempty l = true -> l <> [].
Proof. destruct l; simpl; congruence. Qed.

Lemma is_plain_true text :
  is_plain text = true ->
  matches main_heading_pattern text = false /\
  matches sub_heading_pattern text = false.
Proof.
  unfold is_plain. intros H. apply andb_true_iff in H. destruct H as [H1 H2].
  now apply negb_true_iff in H1, H2.
Qed.

Lemma tree_para_cases st para :
  let text := strip para in
  (nonempty text = false /\ tree_para st para = st) \/
  (nonempty text = true /\ matches main_heading_pattern text = true /\
   tree_para st para =
   {| stored :=
        close_section (stored st)
          (close_sub (current_section st) (current_sub_section st));
      current_section := {| heading := text; sub_sections := [] |};
      current_sub_section := {| sub_heading := BODY; content := [] |} |}) \/
  (nonempty text = true /\ matches main_heading_pattern text = false /\
   matches sub_heading_pattern text = true /\
   tree_para st para =
   {| stored := stored st;
      current_section :=
        close_sub (current_section st) (current_sub_section st);
      current_sub_section := {| sub_heading := text; content := [] |} |}) \/
  (nonempty text = true /\ is_plain text = true /\
   tree_para st para =
   {| stored := stored st;
      current_section := current_section st;
      current_sub_section :=
        {| sub_heading := sub_heading (current_sub_section st);
           content := content (current_sub_section st) ++ [text] |} |}).
Proof.
  intros text. unfold tree_para, is_plain. fold text.
  destruct (nonempty text); [|now left].
  destruct (matches main_heading_pattern text); [right; left; now auto|].
  destruct (matches sub_heading_pattern text); right; right;
    [left|right]; now auto.
Qed.

Lemma section_lines_close_sub sec sub :
  section_lines (close_sub sec sub) = section_lines sec ++ content sub.
Proof.
  unfold close_sub, section_lines.
  destruct (nonempty (content sub)) eqn:E; cbn [orb].
  - cbn [sub_sections]. rewrite flat_map_app. cbn [flat_map].
    now rewrite app_nil_r.
  - apply nonempty_false in E. rewrite E.
    destruct (negb _); cbn [sub_sections];
      rewrite ?flat_map_app; cbn [flat_map]; now rewrite ?E, ?app_nil_r.
Qed.

Lemma tree_lines_close_section secs sec :
  tree_lines (close_section secs sec) = tree_lines secs ++ section_lines sec.
Proof.
  unfold close_section, tree_lines.
  destruct (nonempty (sub_sections sec)) eqn:E; cbn [orb].
  - rewrite flat_map_app. cbn [flat_map]. now rewrite app_nil_r.
  - apply nonempty_false in E.
    assert (Hs : section_lines sec = []) by (unfold section_lines; now rewrite E).
    destruct (negb _);
      rewrite ?flat_map_app; cbn [flat_map]; now rewrite ?Hs, ?app_nil_r.
Qed.

Lemma pending_lines_para st para :
  pending_lines (tree_para st para) =
  pending_lines st ++
  (if nonempty (strip para) && is_plain (strip para)
   then [strip para] else []).
Proof.
  destruct (tree_para_cases st para)
    as [[Hn ->]|[(Hn & Hm & ->)|[(Hn & Hm & Hb & ->)|(Hn & Hp & ->)]]];
    rewrite Hn; cbn [andb].
  - now rewrite app_nil_r.
  - unfold is_plain. rewrite Hm. cbn [negb andb].
    unfold pending_lines.
    cbn [stored current_section current_sub_section content section_lines
         sub_sections flat_map].
    rewrite tree_lines_close_section, section_lines_close_sub.
    now rewrite !app_nil_r, app_assoc.
  - unfold is_plain. rewrite Hm, Hb. cbn [negb andb].
    unfold pending_lines.
    cbn [stored current_section current_sub_section content].
    now rewrite section_lines_close_sub, !app_nil_r.
  - rewrite Hp. unfold pending_lines.
    cbn [stored current_section current_sub_section content].
    now rewrite !app_assoc.
Qed.

Lemma docx_to_json_cons para rest :
  docx_to_json (para :: rest) =
  (if nonempty (strip para) then [strip para] else [])
  ++ docx_to_json rest.
Proof. cbn [docx_to_json]. now destruct (nonempty (strip para)). Qed.

Lemma pending_lines_fold paragraphs : forall st,
  pending_lines (fold_left tree_para paragraphs st) =
  pending_lines st ++ filter is_plain (docx_to_json paragraphs).
Proof.
  induction paragraphs as [|para rest IH]; intros st.
  - cbn [fold_left docx_to_json filter]. now rewrite app_nil_r.
  - cbn [fold_left]. rewrite IH, pending_lines_para, docx_to_json_cons.
    rewrite filter_app, <- app_assoc. f_equal. f_equal.
    destruct (nonempty (strip para)); cbn [andb filter]; [|reflexivity].
    now destruct (is_plain (strip para)).
Qed.

Lemma tree_lines_finish st : tree_lines (tree_finish st) = pending_lines st.
Proof.
  unfold tree_finish, pending_lines.
  now rewrite tree_lines_close_section, section_lines_close_sub, app_assoc.
Qed.

Lemma tree_lines_sections paragraphs :
  tree_lines (tree_sections paragraphs) =
  filter is_plain (docx_to_json paragraphs).
Proof.
  unfold tree_sections. rewrite tree_lines_finish, pending_lines_fold.
  reflexivity.
Qed.

Lemma docx_to_json_filter paragraphs :
  docx_to_json paragraphs = filter nonempty (map strip paragraphs).
Proof.
  induction paragraphs as [|para rest IH]; [reflexivity|].
  cbn [docx_to_json map filter].
  destruct (nonempty (strip para)); now rewrite IH.
Qed.

Lemma tree_fold_drop_blank paragraphs : forall st,
  fold_left tree_para paragraphs st =
  fold_left tree_para
    (filter (fun para => nonempty (strip para)) paragraphs) st.
Proof.
  induction paragraphs as [|para rest IH]; intros st; [reflexivity|].
  cbn [fold_left filter].
  destruct (nonempty (strip para)) eqn:E.
  - cbn [fold_left]. apply IH.
  - destruct (tree_para_cases st para) as [[_ ->]|[H|[H|H]]];
      [apply IH|exfalso..];
      destruct H as [H _]; cbv zeta in H; congruence.
Qed.

Lemma in_tree_lines secs sec sub c :
  In sec secs -> In sub (sub_sections sec) -> In c (content sub) ->
  In c (tree_lines secs).
Proof.
  intros Hs Hb Hc. unfold tree_lines. apply in_flat_map. exists sec.
  split; [assumption|]. unfold section_lines. apply in_flat_map.
  now exists sub.
Qed.

Lemma str_eqb_eq a : forall b, str_eqb a b = true <-> a = b.
Proof.
  induction a as [|x a IH]; intros [|y b]; simpl; split; try congruence.
  - rewrite andb_true_iff, N.eqb_eq, IH. now intros [-> ->].
  - intros [= -> ->]. rewrite N.eqb_refl. now apply IH.
Qed.

Lemma str_eqb_refl a : str_eqb a a = true.
Proof. now apply str_eqb_eq. Qed.

Lemma close_sub_kept sec sub :
  Forall (fun sub => sub_kept sub = true) (sub_sections sec) ->
  Forall (fun sub => sub_kept sub = true) (sub_sections (close_sub sec sub)).
Proof.
  intros H. unfold close_sub. fold (sub_kept sub).
  destruct (sub_kept sub) eqn:E; [|assumption].
  cbn [sub_sections]. apply Forall_app. split; [assumption|]. now constructor.
Qed.

Lemma close_section_wf secs sec :
  Forall section_wf secs ->
  Forall (fun sub => sub_kept sub = true) (sub_sections sec) ->
  Forall section_wf (close_section secs sec).
Proof.
  intros Hs Hsec. unfold close_section. fold (section_kept sec).
  destruct (section_kept sec) eqn:E; [|assumption].
  apply Forall_app. split; [assumption|]. constructor; [|constructor].
  now split.
Qed.

Lemma tree_para_wf st para : tstate_wf st -> tstate_wf (tree_para st para).
Proof.
  intros [Hs Hc].
  destruct (tree_para_cases st para)
    as [[Hn ->]|[(Hn & Hm & ->)|[(Hn & Hm & Hb & ->)|(Hn & Hp & ->)]]];
    split; cbn [stored current_section sub_sections]; try assumption.
  - apply close_section_wf; [assumption|]. now apply close_sub_kept.
  - constructor.
  - now apply close_sub_kept.
Qed.

Lemma tree_fold_wf paragraphs : forall st,
  tstate_wf st -> tstate_wf (fold_left tree_para paragraphs st).
Proof.
  induction paragraphs as [|para rest IH]; intros st H; [assumption|].
  cbn [fold_left]. apply IH. now apply tree_para_wf.
Qed.

Lemma tree_sections_wf paragraphs :
  Forall section_wf (tree_sections paragraphs).
Proof.
  unfold tree_sections, tree_finish.
  destruct (tree_fold_wf paragraphs init_tstate) as [Hs Hc].
  { split; constructor. }
  apply close_section_wf; [assumption|]. now apply close_sub_kept.
Qed.

Lemma close_sub_heading sec sub : heading (close_sub sec sub) = heading sec.
Proof. unfold close_sub. now destruct (_ || _). Qed.

Lemma close_section_headed secs sec :
  Forall headed secs -> headed sec -> Forall headed (close_section secs sec).
Proof.
  intros Hs Hsec. unfold close_section. destruct (_ || _); [|assumption].
  apply Forall_app. split; [assumption|]. now constructor.
Qed.

Lemma tree_para_headed st para :
  tstate_headed st -> tstate_headed (tree_para st para).
Proof.
  intros [Hs Hc].
  destruct (tree_para_cases st para)
    as [[Hn ->]|[(Hn & Hm & ->)|[(Hn & Hm & Hb & ->)|(Hn & Hp & ->)]]];
    split; cbn [stored current_section]; try assumption.
  - apply close_section_headed; [assumption|].
    unfold headed. now rewrite close_sub_heading.
  - unfold headed. now rewrite close_sub_heading.
Qed.

Lemma tree_fold_headed paragraphs : forall st,
  tstate_headed st -> tstate_headed (fold_left tree_para paragraphs st).
Proof.
  induction paragraphs as [|para rest IH]; intros st H; [assumption|].
  cbn [fold_left]. apply IH. now apply tree_para_headed.
Qed.

Lemma front_not_heading : matches main_heading_pattern FRONT = false.
Proof. vm_compute. reflexivity. Qed.

Lemma headed_not_front sec : headed sec -> heading sec <> FRONT.
Proof.
  unfold headed. intros H E. rewrite E, front_not_heading in H. discriminate.
Qed.

(** A run of Plain paragraphs only grows the current sub-section. *)
Lemma tree_fold_plain paragraphs : forall st,
  Forall (fun t => is_plain t = true) (docx_to_json paragraphs) ->
  fold_left tree_para paragraphs st =
  {| stored := stored st;
     current_section := current_section st;
     current_sub_section :=
       {| sub_heading := sub_heading (current_sub_section st);
          content :=
            content (current_sub_section st) ++ docx_to_json paragraphs |} |}.
Proof.
  induction paragraphs as [|para rest IH]; intros st H.
  - cbn [fold_left docx_to_json]. rewrite app_nil_r. now destruct st as [? ? []].
  - cbn [fold_left]. rewrite docx_to_json_cons in H |- *.
    apply Forall_app in H. destruct H as [H1 H2].
    rewrite IH by assumption.
    destruct (tree_para_cases st para)
      as [[Hn ->]|[(Hn & Hm & ->)|[(Hn & Hm & Hb & ->)|(Hn & Hp & ->)]]];
      rewrite Hn in *; cbn [stored current_section current_sub_section
                             sub_heading content].
    + reflexivity.
    + apply Forall_inv in H1. apply is_plain_true in H1. destruct H1; congruence.
    + apply Forall_inv in H1. apply is_plain_true in H1. destruct H1; congruence.
    + now rewrite <- app_assoc.
Qed.

(** ** The test vectors and the tree *)

(** C5, the claim as stated, fails on the Markdown side: the renderer returns
    the heading line alone, and the text written after the front matter is
    the heading line and one newline; neither is the heading line followed by
    a blank line. *)
Lemma single_heading_no_blank_line :
  beautify_structure (as_text heading_only_input)
    <> u "## 三、動物與環境" ++ [NL] ++ [NL]
  /\ render (as_text heading_only_input)
    <> u "## 三、動物與環境" ++ [NL] ++ [NL]
  /\ strip (render (as_text heading_only_input)) ++ [NL]
    <> u "## 三、動物與環境" ++ [NL] ++ [NL].
Proof. repeat split; vm_compute; discriminate. Qed.

(** C5, amended: on the one-element input the renderer returns exactly the
    heading line "## 三、動物與環境" (the blank line put after a heading is
    removed again by the final strip), [add_metadata] writes it followed by
    exactly one newline, and the tree output is exactly one Section with that
    heading and no sub-sections. *)
Theorem single_heading_vector :
  beautify_structure (as_text heading_only_input) = u "## 三、動物與環境"
  /\ render (as_text heading_only_input) = u "## 三、動物與環境"
  /\ (forall filename,
        add_metadata filename (render (as_text heading_only_input)) =
        metadata_header filename ++ u "## 三、動物與環境" ++ [NL])
  /\ tree_sections heading_only_input =
       [{| heading := u "三、動物與環境"; sub_sections := [] |}].
Proof.
  split; [|split; [|split]]; vm_compute; reflexivity.
Qed.

(** C6: on the five-line input the tree has exactly 2 top-level sections;
    "一、總則" holds its default sub-section "本文" with ["本規定依..."] and
    exactly one explicit sub-section, "(一) 適用範圍", with
    ["本規定適用於..."]; "二、權責" has no sub-section. *)
Theorem five_line_vector :
  tree_sections five_line_input =
    [{| heading := u "一、總則";
        sub_sections :=
          [{| sub_heading := BODY; content := [u "本規定依..."] |};
           {| sub_heading := u "(一) 適用範圍";
              content := [u "本規定適用於..."] |}] |};
     {| heading := u "二、權責"; sub_sections := [] |}]
  /\ length (tree_sections five_line_input) = 2%nat
  /\ map (fun sec =>
            filter (fun sub => negb (str_eqb (sub_heading sub) BODY))
              (sub_sections sec))
       (tree_sections five_line_input) =
     [[{| sub_heading := u "(一) 適用範圍";
          content := [u "本規定適用於..."] |}]; []]
  /\ map (fun sec =>
            filter (fun sub => str_eqb (sub_heading sub) BODY)
              (sub_sections sec))
       (tree_sections five_line_input) =
     [[{| sub_heading := BODY; content := [u "本規定依..."] |}]; []].
Proof. repeat split; vm_compute; reflexivity. Qed.

(** C9: the content lines of the tree, in traversal order, are the Plain
    units of the input (stripped, blank ones dropped) in their original
    order. *)
Theorem order_preservation (paragraphs : list str) :
  tree_lines (tree_sections paragraphs) =
  filter is_plain (filter nonempty (map strip paragraphs)).
Proof. rewrite tree_lines_sections. now rewrite docx_to_json_filter. Qed.

(** C10: every string in a content list of the tree is non-empty and is a
    source paragraph stripped; blank paragraphs leave no trace in the tree;
    the flat dump keeps exactly the non-empty stripped paragraphs. *)
Theorem content_stripped_nonempty (paragraphs : list str) :
  (forall sec sub c,
     In sec (tree_sections paragraphs) -> In sub (sub_sections sec) ->
     In c (content sub) ->
     c <> [] /\ exists para, In para paragraphs /\ c = strip para)
  /\ tree_sections paragraphs =
     tree_sections (filter (fun para => nonempty (strip para)) paragraphs)
  /\ docx_to_json paragraphs = filter nonempty (map strip paragraphs)
  /\ (forall c, In c (docx_to_json paragraphs) ->
        c <> [] /\ exists para, In para paragraphs /\ c = strip para).
Proof.
  assert (Hin : forall c, In c (docx_to_json paragraphs) ->
            c <> [] /\ exists para, In para paragraphs /\ c = strip para).
  { intros c Hc. rewrite docx_to_json_filter in Hc.
    apply filter_In in Hc. destruct Hc as [Hc Hne].
    apply in_map_iff in Hc. destruct Hc as (para & <- & Hp).
    split; [now apply nonempty_true|]. now exists para. }
  split; [|split; [|split]].
  - intros sec sub c Hs Hb Hc. apply Hin.
    pose proof (in_tree_lines _ _ _ _ Hs Hb Hc) as H.
    rewrite tree_lines_sections in H. apply filter_In in H. tauto.
  - unfold tree_sections. now rewrite tree_fold_drop_blank.
  - apply docx_to_json_filter.
  - exact Hin.
Qed.

(** C7, the claim as stated, fails: the five-line input starts with a heading
    and its tree holds a sentinel SubSection; a first line that is a sub-item
    heading leaves the sentinel Section in the tree; and the empty document
    has no heading line, yet produces no Section at all. *)
Lemma sentinel_after_first_heading :
  matches main_heading_pattern (strip (hd [] five_line_input)) = true
  /\ existsb (fun sec =>
       existsb (fun sub => str_eqb (sub_heading sub) BODY) (sub_sections sec))
       (tree_sections five_line_input) = true
  /\ matches sub_heading_pattern (strip (u "(一) 適用範圍")) = true
  /\ existsb (fun sec => str_eqb (heading sec) FRONT)
       (tree_sections [u "(一) 適用範圍"]) = true
  /\ tree_sections [] = [].
Proof. repeat split; vm_compute; reflexivity. Qed.

(** C7, amended: a sentinel SubSection ("本文") is in the tree only with
    content, and the sentinel Section ("文件前言與大標") only with
    sub-sections; a document without heading lines and with at least one
    non-blank line produces exactly one sentinel Section/SubSection pair
    holding all its lines, and none when it has no non-blank line; a document
    whose first line is a main heading ("一、") has no sentinel Section, while
    sentinel SubSections still collect the lines that follow a main heading
    directly. *)
Theorem sentinel_rule (paragraphs : list str) :
  (forall sec sub,
     In sec (tree_sections paragraphs) -> In sub (sub_sections sec) ->
     sub_heading sub = BODY -> content sub <> [])
  /\ (forall sec,
        In sec (tree_sections paragraphs) -> heading sec = FRONT ->
        sub_sections sec <> [])
  /\ (Forall (fun t => is_plain t = true) (docx_to_json paragraphs) ->
      tree_sections paragraphs =
      if nonempty (docx_to_json paragraphs)
      then [{| heading := FRONT;
               sub_sections :=
                 [{| sub_heading := BODY;
                     content := docx_to_json paragraphs |}] |}]
      else [])
  /\ (forall first rest,
        paragraphs = first :: rest ->
        matches main_heading_pattern (strip first) = true ->
        Forall (fun sec => heading sec <> FRONT) (tree_sections paragraphs)).
Proof.
  pose proof (tree_sections_wf paragraphs) as Hwf.
  rewrite Forall_forall in Hwf.
  split; [|split; [|split]].
  - intros sec sub Hs Hb Hh. destruct (Hwf _ Hs) as [_ Hsubs].
    rewrite Forall_forall in Hsubs. specialize (Hsubs _ Hb).
    unfold sub_kept in Hsubs. rewrite Hh, str_eqb_refl, orb_false_r in Hsubs.
    now apply nonempty_true.
  - intros sec Hs Hh. destruct (Hwf _ Hs) as [Hk _].
    unfold section_kept in Hk. rewrite Hh, str_eqb_refl, orb_false_r in Hk.
    now apply nonempty_true.
  - intros Hp. unfold tree_sections. rewrite tree_fold_plain by assumption.
    unfold tree_finish, close_section, close_sub.
    cbn [init_tstate stored current_section current_sub_section content
         sub_heading heading sub_sections app].
    rewrite str_eqb_refl. cbn [negb]. rewrite orb_false_r.
    destruct (nonempty (docx_to_json paragraphs));
      cbn [sub_sections heading nonempty app orb];
      rewrite ?str_eqb_refl; reflexivity.
  - intros first rest -> Hm. unfold tree_sections. cbn [fold_left].
    assert (Hh : tstate_headed (tree_para init_tstate first)).
    { destruct (tree_para_cases init_tstate first)
        as [[Hn E]|[(Hn & _ & E)|[(Hn & Hm' & _)|(Hn & Hp & _)]]].
      - destruct (strip first); [discriminate Hm|discriminate Hn].
      - rewrite E. split; [|exact Hm]. constructor.
      - cbv zeta in Hm'. congruence.
      - apply is_plain_true in Hp. destruct Hp. congruence. }
    apply (tree_fold_headed rest) in Hh. destruct Hh as [Hs Hc].
    unfold tree_finish.
    assert (Hall : Forall headed
              (close_section
                 (stored (fold_left tree_para rest (tree_para init_tstate first)))
                 (close_sub
                    (current_section
                       (fold_left tree_para rest (tree_para init_tstate first)))
                    (current_sub_section
                       (fold_left tree_para rest
                          (tree_para init_tstate first)))))).
    { apply close_section_headed; [assumption|].
      unfold headed. now rewrite close_sub_heading. }
    eapply Forall_impl; [|exact Hall]. intros sec. apply headed_not_front.
Qed.

Lemma sentinel_rule_witness :
  Forall (fun sec => heading sec <> FRONT) (tree_sections five_line_input).
Proof.
  apply (proj2 (proj2 (proj2 (sentinel_rule five_line_input)))
           (u "一、總則")
           [u "本規定依..."; u "(一) 適用範圍"; u "本規定適用於...";
            u "二、權責"]).
  - reflexivity.
  - vm_compute. reflexivity.
Defined.

(** ** The matcher, one construct at a time *)

Section Matcher.
Context {A : Type}.
Implicit Types (k : cont A) (prev : option N) (s : str) (c : caps).

Lemma rmatch_cat r1 r2 prev s c k :
  rmatch (Cat r1 r2) prev s c k =
  rmatch r1 prev s c (fun prev' s' c' => rmatch r2 prev' s' c' k).
Proof. reflexivity. Qed.

Lemma rmatch_bol s c k : rmatch Bol None s c k = k None s c.
Proof. reflexivity. Qed.

Lemma rmatch_cls_cons p prev x s c k :
  rmatch (Cls p) prev (x :: s) c k = if p x then k (Some x) s c else None.
Proof. reflexivity. Qed.

Lemma rmatch_cls_nil p prev c k : rmatch (Cls p) prev [] c k = None.
Proof. reflexivity. Qed.

Lemma rmatch_greedy min p prev s c k :
  rmatch (Rep false min p) prev s c k = rep_greedy p min prev s c k.
Proof. reflexivity. Qed.

Lemma rmatch_lazy min p prev s c k :
  rmatch (Rep true min p) prev s c k = rep_lazy p min prev s c k.
Proof. reflexivity. Qed.

Lemma rmatch_opt r prev s c k :
  rmatch (Opt r) prev s c k =
  match rmatch r prev s c k with Some v => Some v | None => k prev s c end.
Proof. reflexivity. Qed.

Lemma rmatch_grp i r prev s c k :
  rmatch (Grp i r) prev s c k =
  rmatch r prev s c
    (fun prev' s' c' =>
       k prev' s' ((i, firstn (length s - length s') s) :: c')).
Proof. reflexivity. Qed.

Lemma rmatch_eol_nil prev c k : rmatch Eol prev [] c k = k prev [] c.
Proof. reflexivity. Qed.

End Matcher.

Lemma take_drop p s : take_while p s ++ drop_while p s = s.
Proof.
  induction s as [|x s IH]; [reflexivity|]. simpl.
  destruct (p x); simpl; now rewrite ?IH.
Qed.

Lemma take_while_all p s : Forall (fun x => p x = true) (take_while p s).
Proof.
  induction s as [|x s IH]; simpl; [constructor|].
  destruct (p x) eqn:E; now constructor.
Qed.

Lemma drop_while_head p s x r : drop_while p s = x :: r -> p x = false.
Proof.
  induction s as [|y s IH]; simpl; [discriminate|].
  destruct (p y) eqn:E; [assumption|]. now intros [= <- _].
Qed.

Lemma take_while_app p a y r :
  Forall (fun x => p x = true) a -> p y = false ->
  take_while p (a ++ y :: r) = a.
Proof.
  induction 1 as [|x a Hx _ IH]; intros Hy; simpl.
  - now rewrite Hy.
  - now rewrite Hx, IH.
Qed.

Lemma drop_while_app p a y r :
  Forall (fun x => p x = true) a -> p y = false ->
  drop_while p (a ++ y :: r) = y :: r.
Proof.
  induction 1 as [|x a Hx _ IH]; intros Hy; simpl.
  - now rewrite Hy.
  - now rewrite Hx, IH.
Qed.

Lemma take_while_full p a :
  Forall (fun x => p x = true) a -> take_while p a = a.
Proof. induction 1 as [|x a Hx _ IH]; simpl; now rewrite ?Hx, ?IH. Qed.

Lemma drop_while_full p a :
  Forall (fun x => p x = true) a -> drop_while p a = [].
Proof. induction 1 as [|x a Hx _ IH]; simpl; now rewrite ?Hx, ?IH. Qed.

Lemma firstn_take_while p s :
  firstn (length s - length (drop_while p s)) s = take_while p s.
Proof.
  rewrite <- (take_drop p s) at 1 3. rewrite length_app.
  replace (length (take_while p s) + length (drop_while p s)
           - length (drop_while p s))%nat
    with (length (take_while p s) + 0)%nat by lia.
  rewrite firstn_app_2. simpl. now rewrite app_nil_r.
Qed.

Lemma firstn_whole (s : str) : firstn (length s - length (@nil N)) s = s.
Proof. simpl. rewrite Nat.sub_0_r. apply firstn_all. Qed.

Section Repetition.
Context {A : Type}.
Implicit Types (k : cont A) (prev : option N) (s : str) (c : caps).

(** A greedy repetition whose continuation refuses to start inside the class
    stops at the end of the longest prefix, or fails. *)
Lemma rep_greedy_reject p k c :
  (forall prev x s c', p x = true -> k prev (x :: s) c' = None) ->
  forall s min prev,
  rep_greedy p min prev s c k =
  if (min <=? length (take_while p s))%nat
  then k (adv prev (take_while p s)) (drop_while p s) c
  else None.
Proof.
  intros Hk. induction s as [|x s IH]; intros min prev.
  - simpl. now destruct min.
  - cbn [rep_greedy take_while drop_while]. destruct (p x) eqn:Hx.
    + rewrite IH. cbn [length adv fold_left].
      destruct min as [|min]; cbn [Nat.pred Nat.leb].
      * fold (adv (Some x) (take_while p s)).
        destruct (k (adv (Some x) (take_while p s)) (drop_while p s) c);
          [reflexivity|]. now apply Hk.
      * fold (adv (Some x) (take_while p s)).
        destruct (min <=? length (take_while p s))%nat; [|reflexivity].
        now destruct (k _ _ _).
    + cbn [length adv fold_left]. now destruct min.
Qed.

(** A greedy repetition whose continuation accepts after the longest prefix
    stops there. *)
Lemma rep_greedy_first p k c v :
  forall s min prev,
  (min <= length (take_while p s))%nat ->
  k (adv prev (take_while p s)) (drop_while p s) c = Some v ->
  rep_greedy p min prev s c k = Some v.
Proof.
  induction s as [|x s IH]; intros min prev Hmin Hk.
  - simpl in *. destruct min; [assumption|lia].
  - cbn [rep_greedy take_while drop_while] in *. destruct (p x) eqn:Hx.
    + cbn [length adv fold_left] in *.
      rewrite (IH (Nat.pred min) (Some x)); [reflexivity|lia|assumption].
    + cbn [length adv fold_left] in *. destruct min; [assumption|lia].
Qed.

(** A lazy repetition whose continuation refuses every non-empty rest runs to
    the end of the subject. *)
Lemma rep_lazy_end p k c :
  forall s min prev,
  Forall (fun x => p x = true) s -> (min <= length s)%nat ->
  (forall pre rest prev' c',
     s = pre ++ rest -> rest <> [] -> k prev' rest c' = None) ->
  rep_lazy p min prev s c k = k (adv prev s) [] c.
Proof.
  induction s as [|x s IH]; intros min prev Hall Hmin Hk.
  - simpl in *. destruct min; [|lia]. now destruct (k prev [] c).
  - inversion Hall as [|? ? Hx Hs]; subst.
    assert (IH' : forall min, (min <= length s)%nat ->
              rep_lazy p min (Some x) s c k = k (adv (Some x) s) [] c).
    { intros m Hm. apply IH; [assumption|assumption|].
      intros pre rest prev' c' E Hne. apply (Hk (x :: pre) rest); [|assumption].
      now rewrite E. }
    cbn [adv fold_left]. fold (adv (Some x) s).
    destruct min as [|min]; cbn [rep_lazy].
    + rewrite (Hk [] (x :: s) prev c eq_refl) by discriminate.
      rewrite Hx. apply IH'. lia.
    + rewrite Hx. apply IH'. simpl in Hmin. lia.
Qed.

End Repetition.

(** ** Stripping *)

Lemma lstrip_drop_while s : lstrip s = drop_while isspace s.
Proof.
  induction s as [|x s IH]; [reflexivity|]. simpl. now destruct (isspace x).
Qed.

Lemma rstrip_cons x s :
  rstrip (x :: s) =
  if nonempty (rstrip s) then x :: rstrip s
  else if isspace x then [] else [x].
Proof. simpl. now destruct (rstrip s). Qed.

Lemma rtrimmed_nil : rtrimmed [].
Proof. reflexivity. Qed.

Lemma rtrimmed_tail x s : rtrimmed (x :: s) -> rtrimmed s.
Proof.
  unfold rtrimmed. rewrite rstrip_cons.
  destruct (rstrip s) as [|y r] eqn:E; cbn [nonempty].
  - destruct (isspace x); [discriminate|]. now intros [= <-].
  - now intros [= <-].
Qed.

Lemma rtrimmed_suffix pre s : rtrimmed (pre ++ s) -> rtrimmed s.
Proof.
  induction pre as [|x pre IH]; [trivial|]. simpl. intros H.
  apply IH. eapply rtrimmed_tail. exact H.
Qed.

Lemma rtrimmed_not_blank s :
  rtrimmed s -> s <> [] -> forallb isspace s = false.
Proof.
  unfold rtrimmed. induction s as [|x s IH]; intros H Hne; [congruence|].
  pose proof (rtrimmed_tail _ _ H) as Ht. cbn [forallb].
  destruct s as [|y s].
  - simpl in H. destruct (isspace x); [discriminate|reflexivity].
  - rewrite IH; [apply andb_false_r|assumption|discriminate].
Qed.

Lemma rtrimmed_cons x s : rtrimmed s -> s <> [] -> rtrimmed (x :: s).
Proof.
  unfold rtrimmed. intros H Hne. rewrite rstrip_cons, H.
  destruct s; [congruence|reflexivity].
Qed.

Lemma rtrimmed_single x : isspace x = false -> rtrimmed [x].
Proof. unfold rtrimmed. simpl. now intros ->. Qed.

Lemma rtrimmed_app a b : rtrimmed b -> b <> [] -> rtrimmed (a ++ b).
Proof.
  intros Hb Hne. induction a as [|x a IH]; [assumption|]. simpl.
  apply rtrimmed_cons; [assumption|]. destruct a; simpl; [assumption|discriminate].
Qed.

Lemma rstrip_rtrimmed s : rtrimmed (rstrip s).
Proof.
  unfold rtrimmed. induction s as [|x s IH]; [reflexivity|].
  rewrite rstrip_cons. destruct (rstrip s) as [|y r] eqn:E; cbn [nonempty].
  - destruct (isspace x) eqn:Hx; [reflexivity|]. simpl. now rewrite Hx.
  - rewrite rstrip_cons, IH. reflexivity.
Qed.

Lemma rstrip_blank s : forallb isspace s = true -> rstrip s = [].
Proof.
  induction s as [|x s IH]; [reflexivity|]. cbn [forallb].
  intros H. apply andb_true_iff in H. destruct H as [Hx Hs].
  rewrite rstrip_cons, IH by assumption. cbn [nonempty]. now rewrite Hx.
Qed.

Lemma ltrimmed_head x s : ltrimmed (x :: s) -> isspace x = false.
Proof.
  unfold ltrimmed. simpl. destruct (isspace x) eqn:E; [|reflexivity].
  intros H. exfalso.
  assert (Hl : forall t, (length (lstrip t) <= length t)%nat).
  { induction t as [|y t IHt]; simpl; [lia|].
    destruct (isspace y); simpl; lia. }
  specialize (Hl s). rewrite H in Hl. simpl in Hl. lia.
Qed.

Lemma ltrimmed_cons x s : isspace x = false -> ltrimmed (x :: s).
Proof. unfold ltrimmed. simpl. now intros ->. Qed.

Lemma lstrip_ltrimmed s : ltrimmed (lstrip s).
Proof.
  unfold ltrimmed. induction s as [|x s IH]; [reflexivity|]. simpl.
  destruct (isspace x) eqn:E; [assumption|]. simpl. now rewrite E.
Qed.

Lemma lstrip_suffix s : exists pre, s = pre ++ lstrip s.
Proof.
  induction s as [|x s [pre IH]]; [now exists []|]. simpl.
  destruct (isspace x); [|now exists []].
  exists (x :: pre). simpl. now rewrite <- IH.
Qed.

Lemma lstrip_rtrimmed s : rtrimmed s -> rtrimmed (lstrip s).
Proof.
  intros H. destruct (lstrip_suffix s) as [pre E]. rewrite E in H.
  eapply rtrimmed_suffix. exact H.
Qed.

Lemma rstrip_ltrimmed s : ltrimmed s -> ltrimmed (rstrip s).
Proof.
  destruct s as [|x s]; [trivial|]. intros H.
  apply ltrimmed_head in H. rewrite rstrip_cons.
  destruct (nonempty (rstrip s)); [now apply ltrimmed_cons|].
  rewrite H. now apply ltrimmed_cons.
Qed.

Lemma strip_trimmed s : trimmed (strip s).
Proof.
  unfold strip. split.
  - apply rstrip_ltrimmed, lstrip_ltrimmed.
  - apply rstrip_rtrimmed.
Qed.

Lemma trimmed_strip s : trimmed s -> strip s = s.
Proof. intros [Hl Hr]. unfold strip. now rewrite Hl, Hr. Qed.

Lemma strip_idempotent s : strip (strip s) = strip s.
Proof. apply trimmed_strip, strip_trimmed. Qed.

Lemma lstrip_nonempty s : rtrimmed s -> s <> [] -> lstrip s <> [].
Proof.
  intros H Hne E. apply rtrimmed_not_blank in H; [|assumption].
  clear Hne. induction s as [|x s IH]; [discriminate|].
  simpl in *. destruct (isspace x); [|discriminate]. simpl in H. auto.
Qed.

(** Characters of the subject are preserved by stripping. *)
Lemma lstrip_incl s x : In x (lstrip s) -> In x s.
Proof.
  destruct (lstrip_suffix s) as [pre E]. rewrite E at 2.
  intros H. apply in_or_app. now right.
Qed.

Lemma rstrip_incl s x : In x (rstrip s) -> In x s.
Proof.
  induction s as [|y s IH]; [trivial|]. rewrite rstrip_cons.
  destruct (nonempty (rstrip s)).
  - intros [->|H]; [now left|right; auto].
  - destruct (isspace y); [intros []|]. intros [->|[]]. now left.
Qed.

Lemma strip_incl s x : In x (strip s) -> In x s.
Proof. unfold strip. intros H. now apply lstrip_incl, rstrip_incl. Qed.

(** ** The tails of the heading patterns *)

Local Open Scope re_scope.

Lemma one_line_suffix pre s : one_line (pre ++ s) -> one_line s.
Proof. unfold one_line. intros H. now apply Forall_app in H. Qed.

Lemma one_line_prefix pre s : one_line (pre ++ s) -> one_line pre.
Proof. unfold one_line. intros H. now apply Forall_app in H. Qed.

Lemma one_line_tail x s : one_line (x :: s) -> one_line s.
Proof. unfold one_line. now inversion 1. Qed.

Lemma space_NL x : isspace x = false -> (x =? NL) = false.
Proof.
  intros H. destruct (x =? NL) eqn:E; [|reflexivity].
  apply N.eqb_eq in E. subst. discriminate H.
Qed.

(** [\s*$] accepts exactly white space. *)
Lemma greedy_ws_eol u : forall prev c,
  rep_greedy isspace 0 prev u c
    (fun prev' s' c' => rmatch Eol prev' s' c' (fun _ _ c => Some c)) =
  if forallb isspace u then Some c else None.
Proof.
  induction u as [|x u IH]; intros prev c; [reflexivity|].
  cbn [rep_greedy forallb Nat.pred]. destruct (isspace x) eqn:Hx.
  - rewrite IH. cbn [andb].
    destruct (forallb isspace u) eqn:F; [reflexivity|].
    destruct u; [discriminate F|reflexivity].
  - cbn [andb rmatch]. destruct u; [|reflexivity].
    now rewrite (space_NL _ Hx).
Qed.

Lemma ws_eol u prev c :
  rmatch (Rep false 0 isspace ;; Eol) prev u c (fun _ _ c => Some c) =
  if forallb isspace u then Some c else None.
Proof. rewrite rmatch_cat, rmatch_greedy. apply greedy_ws_eol. Qed.

(** [(.+)\s*$] and [(.+?)\s*$] on what is left of a stripped line. *)
Lemma grp2_greedy b prev c :
  one_line b -> b <> [] ->
  rmatch (Grp 2 (Rep false 1 dot)) prev b c
    (fun prev' s' c' =>
       rmatch (Rep false 0 isspace ;; Eol) prev' s' c' (fun _ _ c => Some c))
  = Some ((2%nat, b) :: c).
Proof.
  intros Hb Hne. rewrite rmatch_grp, rmatch_greedy.
  apply rep_greedy_first.
  - rewrite take_while_full by assumption. destruct b; [congruence|simpl; lia].
  - rewrite drop_while_full by assumption. rewrite ws_eol. cbn [forallb].
    now rewrite firstn_whole.
Qed.

Lemma grp2_lazy b prev c :
  one_line b -> b <> [] -> rtrimmed b ->
  rmatch (Grp 2 (Rep true 1 dot)) prev b c
    (fun prev' s' c' =>
       rmatch (Rep false 0 isspace ;; Eol) prev' s' c' (fun _ _ c => Some c))
  = Some ((2%nat, b) :: c).
Proof.
  intros Hb Hne Ht. rewrite rmatch_grp, rmatch_lazy.
  rewrite rep_lazy_end.
  - rewrite ws_eol. cbn [forallb]. now rewrite firstn_whole.
  - assumption.
  - destruct b; [congruence|simpl; lia].
  - intros pre rest prev' c' E Hrest. rewrite ws_eol.
    rewrite rtrimmed_not_blank; [reflexivity| |assumption].
    rewrite E in Ht. eapply rtrimmed_suffix. exact Ht.
Qed.

Lemma grp2_nil lazy prev c (k : cont caps) :
  rmatch (Grp 2 (Rep lazy 1 dot)) prev [] c k = None.
Proof. now destruct lazy. Qed.

Lemma lstrip_one_line r : one_line r -> one_line (lstrip r).
Proof.
  intros H. destruct (lstrip_suffix r) as [pre E]. rewrite E in H.
  eapply one_line_suffix. exact H.
Qed.

(** [\s*(.+)?\s*$] *)
Lemma tail_opt_greedy r prev c :
  one_line r -> rtrimmed r ->
  rmatch (Rep false 0 isspace ;; Opt (Grp 2 (Rep false 1 dot)) ;;
          Rep false 0 isspace ;; Eol) prev r c (fun _ _ c => Some c)
  = Some (title_caps r c).
Proof.
  intros Hl Ht. unfold title_caps.
  destruct (nonempty r) eqn:Hne.
  - apply nonempty_true in Hne.
    rewrite rmatch_cat, rmatch_greedy. apply rep_greedy_first; [lia|].
    rewrite <- lstrip_drop_while, rmatch_cat, rmatch_opt.
    rewrite grp2_greedy; [reflexivity|now apply lstrip_one_line|].
    now apply lstrip_nonempty.
  - apply nonempty_false in Hne. subst r. reflexivity.
Qed.

(** [\s*(.+?)?\s*$] *)
Lemma tail_opt_lazy r prev c :
  one_line r -> rtrimmed r ->
  rmatch (Rep false 0 isspace ;; Opt (Grp 2 (Rep true 1 dot)) ;;
          Rep false 0 isspace ;; Eol) prev r c (fun _ _ c => Some c)
  = Some (title_caps r c).
Proof.
  intros Hl Ht. unfold title_caps.
  destruct (nonempty r) eqn:Hne.
  - apply nonempty_true in Hne.
    rewrite rmatch_cat, rmatch_greedy. apply rep_greedy_first; [lia|].
    rewrite <- lstrip_drop_while, rmatch_cat, rmatch_opt.
    rewrite grp2_lazy; [reflexivity|now apply lstrip_one_line| |].
    + now apply lstrip_nonempty.
    + now apply lstrip_rtrimmed.
  - apply nonempty_false in Hne. subst r. reflexivity.
Qed.

(** [\s*(.+?)\s*$] *)
Lemma tail_lazy r prev c :
  one_line r -> rtrimmed r ->
  rmatch (Rep false 0 isspace ;; Grp 2 (Rep true 1 dot) ;;
          Rep false 0 isspace ;; Eol) prev r c (fun _ _ c => Some c)
  = if nonempty r then Some ((2%nat, lstrip r) :: c) else None.
Proof.
  intros Hl Ht.
  destruct (nonempty r) eqn:Hne.
  - apply nonempty_true in Hne.
    rewrite rmatch_cat, rmatch_greedy. apply rep_greedy_first; [lia|].
    rewrite <- lstrip_drop_while, rmatch_cat.
    rewrite grp2_lazy; [reflexivity|now apply lstrip_one_line| |].
    + now apply lstrip_nonempty.
    + now apply lstrip_rtrimmed.
  - apply nonempty_false in Hne. subst r. reflexivity.
Qed.

(** [(p+)q...]: the numeral runs to the first character outside its class,
    which has to be the marker. *)
Lemma grp1_marker {A} p q rest prev s c (k : cont A) :
  (forall x, q x = true -> p x = false) ->
  rmatch (Grp 1 (Rep false 1 p) ;; Cls q ;; rest) prev s c k =
  match drop_while p s with
  | y :: r =>
      if nonempty (take_while p s) && q y
      then rmatch rest (Some y) r ((1%nat, take_while p s) :: c) k
      else None
  | [] => None
  end.
Proof.
  intros Hpq. rewrite rmatch_cat, rmatch_grp, rmatch_greedy.
  rewrite rep_greedy_reject.
  - rewrite firstn_take_while.
    destruct (take_while p s) as [|a0 a] eqn:Ea; cbn [length Nat.leb nonempty].
    + now destruct (drop_while p s).
    + cbn [andb]. destruct (drop_while p s) as [|y r]; [reflexivity|].
      now rewrite rmatch_cat, rmatch_cls_cons.
  - intros prev' x s' c' Hx. rewrite rmatch_cat, rmatch_cls_cons.
    destruct (q x) eqn:Hq; [|reflexivity].
    apply Hpq in Hq. congruence.
Qed.

Local Close Scope re_scope.

(** ** Character classes *)

Lemma lit_true s x : lit s x = true -> x = chr s.
Proof. unfold lit. apply N.eqb_eq. Qed.

Lemma in_set_In cs x : in_set cs x = true <-> In x cs.
Proof.
  unfold in_set. rewrite existsb_exists. split.
  - intros (y & Hy & E). apply N.eqb_eq in E. now subst.
  - intros H. exists x. split; [assumption|apply N.eqb_refl].
Qed.

Lemma part_marker_not_num x : lit "編" x = true -> ch_num x = false.
Proof. intros H. apply lit_true in H. subst. vm_compute. reflexivity. Qed.

Lemma article_marker_not_num x : lit "、" x = true -> ch_num x = false.
Proof. intros H. apply lit_true in H. subst. vm_compute. reflexivity. Qed.

Lemma closing_not_num x : in_set (u ")）") x = true -> ch_num x = false.
Proof.
  intros H. apply in_set_In in H. vm_compute in H.
  destruct H as [<-|[<-|[]]]; vm_compute; reflexivity.
Qed.

Lemma point_not_decimal x : lit "." x = true -> isdecimal x = false.
Proof. intros H. apply lit_true in H. subst. vm_compute. reflexivity. Qed.

Lemma space_cases x : isspace x = true -> In x space_chars.
Proof. apply in_set_In. Qed.

(** ** What the heading patterns find on a stripped line *)

Lemma leading_ws_skip {A} line prev c (k : cont A) :
  ltrimmed line ->
  rep_greedy isspace 0 prev line c k = k prev line c.
Proof.
  destruct line as [|x s]; [reflexivity|]. intros H.
  apply ltrimmed_head in H. cbn [rep_greedy]. now rewrite H.
Qed.

Lemma tidy_after_marker line pre y r :
  tidy_line line -> line = pre ++ y :: r -> one_line r /\ rtrimmed r.
Proof.
  intros [[_ Ht] Hl] E. subst line. split.
  - apply one_line_suffix in Hl. now apply one_line_tail in Hl.
  - apply rtrimmed_suffix in Ht. now apply rtrimmed_tail in Ht.
Qed.

Lemma p_part_spec line :
  tidy_line line -> re_match p_part line = part_spec line.
Proof.
  intros Hline. pose proof Hline as [[Hlt _] _].
  unfold re_match, p_part.
  rewrite rmatch_cat, rmatch_bol, rmatch_cat, rmatch_greedy.
  rewrite leading_ws_skip by assumption. rewrite rmatch_cat.
  unfold part_spec. destruct line as [|x s]; [reflexivity|].
  rewrite rmatch_cls_cons. destruct (lit "第" x); [|reflexivity].
  rewrite (grp1_marker _ _ _ _ _ _ _ part_marker_not_num).
  destruct (drop_while ch_num s) as [|y r] eqn:D; [reflexivity|].
  destruct (nonempty (take_while ch_num s) && lit "編" y); [|reflexivity].
  destruct (tidy_after_marker _ (x :: take_while ch_num s) y r Hline).
  { simpl. now rewrite <- D, take_drop. }
  now apply tail_opt_greedy.
Qed.

Lemma p_article_spec line :
  tidy_line line -> re_match p_article line = article_spec line.
Proof.
  intros Hline. pose proof Hline as [[Hlt _] _].
  unfold re_match, p_article.
  rewrite rmatch_cat, rmatch_bol, rmatch_cat, rmatch_greedy.
  rewrite leading_ws_skip by assumption.
  rewrite (grp1_marker _ _ _ _ _ _ _ article_marker_not_num).
  unfold article_spec.
  destruct (drop_while ch_num line) as [|y r] eqn:D; [reflexivity|].
  destruct (nonempty (take_while ch_num line) && lit "、" y);
    [|reflexivity].
  destruct (tidy_after_marker _ (take_while ch_num line) y r Hline).
  { now rewrite <- D, take_drop. }
  cbn [andb]. now apply tail_lazy.
Qed.

Lemma p_sub_spec line :
  tidy_line line -> re_match p_sub line = sub_spec line.
Proof.
  intros Hline. pose proof Hline as [[Hlt _] _].
  unfold re_match, p_sub.
  rewrite rmatch_cat, rmatch_bol, rmatch_cat, rmatch_greedy.
  rewrite leading_ws_skip by assumption. rewrite rmatch_cat.
  unfold sub_spec. destruct line as [|x s]; [reflexivity|].
  rewrite rmatch_cls_cons. destruct (in_set (u "(（") x); [|reflexivity].
  rewrite (grp1_marker _ _ _ _ _ _ _ closing_not_num).
  destruct (drop_while ch_num s) as [|y r] eqn:D; [reflexivity|].
  destruct (nonempty (take_while ch_num s) && in_set (u ")）") y);
    [|reflexivity].
  destruct (tidy_after_marker _ (x :: take_while ch_num s) y r Hline).
  { simpl. now rewrite <- D, take_drop. }
  now apply tail_opt_lazy.
Qed.

Lemma p_num_item_spec line :
  tidy_line line -> re_match p_num_item line = num_item_spec line.
Proof.
  intros Hline. pose proof Hline as [[Hlt _] _].
  unfold re_match, p_num_item.
  rewrite rmatch_cat, rmatch_bol, rmatch_cat, rmatch_greedy.
  rewrite leading_ws_skip by assumption.
  rewrite (grp1_marker _ _ _ _ _ _ _ point_not_decimal).
  unfold num_item_spec.
  destruct (drop_while isdecimal line) as [|y r] eqn:D; [reflexivity|].
  destruct (nonempty (take_while isdecimal line) && lit "." y);
    [|reflexivity].
  destruct (tidy_after_marker _ (take_while isdecimal line) y r Hline).
  { now rewrite <- D, take_drop. }
  cbn [andb]. now apply tail_lazy.
Qed.

(** Classes that share no character. *)
Lemma classes_disjoint (cs : list N) (p : N -> bool) :
  forallb (fun y => negb (p y)) cs = true ->
  forall x, p x = true -> in_set cs x = false.
Proof.
  intros H x Hp. destruct (in_set cs x) eqn:E; [|reflexivity].
  apply in_set_In in E. rewrite forallb_forall in H.
  apply H in E. rewrite Hp in E. discriminate.
Qed.

Lemma disjoint_from_set (cs : list N) (p : N -> bool) :
  forallb (fun y => negb (p y)) cs = true ->
  forall x, in_set cs x = true -> p x = false.
Proof.
  intros H x Hx. apply in_set_In in Hx. rewrite forallb_forall in H.
  apply H in Hx. now apply negb_true_iff in Hx.
Qed.

Lemma num_not_space x : ch_num x = true -> isspace x = false.
Proof. apply disjoint_from_set. vm_compute. reflexivity. Qed.

Lemma num_not_decimal x : ch_num x = true -> isdecimal x = false.
Proof. apply disjoint_from_set. vm_compute. reflexivity. Qed.

Lemma num_not_opening x : ch_num x = true -> in_set (u "(（") x = false.
Proof. apply disjoint_from_set. vm_compute. reflexivity. Qed.

Lemma num_not_part x : ch_num x = true -> lit "第" x = false.
Proof. apply disjoint_from_set. vm_compute. reflexivity. Qed.

Lemma decimal_not_space x : isdecimal x = true -> isspace x = false.
Proof. apply classes_disjoint. vm_compute. reflexivity. Qed.

Lemma decimal_not_num x : isdecimal x = true -> ch_num x = false.
Proof. apply classes_disjoint. vm_compute. reflexivity. Qed.

Lemma decimal_not_opening x :
  isdecimal x = true -> in_set (u "(（") x = false.
Proof. apply classes_disjoint. vm_compute. reflexivity. Qed.

Lemma decimal_not_part x : isdecimal x = true -> lit "第" x = false.
Proof.
  intros H. destruct (lit "第" x) eqn:E; [|reflexivity].
  apply lit_true in E. subst. vm_compute in H. discriminate.
Qed.

Lemma linebreak_space x : is_linebreak x = true -> isspace x = true.
Proof.
  intros H.
  apply (disjoint_from_set linebreak_chars (fun y => negb (isspace y))) in H.
  - now apply negb_false_iff in H.
  - vm_compute. reflexivity.
Qed.

(** ** Collapsing blank lines: [re.sub(r"\n{3,}", "\n\n", text)] *)

Lemma rep_greedy_short {A} p (k : cont A) c : forall s min prev,
  (length (take_while p s) < min)%nat ->
  rep_greedy p min prev s c k = None.
Proof.
  induction s as [|x s IH]; intros min prev H.
  - simpl in *. destruct min; [lia|reflexivity].
  - cbn [rep_greedy take_while] in *. destruct (p x).
    + cbn [length] in H. rewrite IH by lia. destruct min; [lia|reflexivity].
    + cbn [length] in H. destruct min; [lia|reflexivity].
Qed.

Lemma length_drop_while p s :
  (length s - length (drop_while p s) = length (take_while p s))%nat.
Proof.
  rewrite <- (take_drop p s) at 1. rewrite length_app. lia.
Qed.

Lemma match_len_blank_run prev s :
  match_len blank_run prev s =
  if (3 <=? nl_run s)%nat then Some (nl_run s) else None.
Proof.
  unfold match_len, blank_run, nl_run. rewrite rmatch_greedy.
  destruct (3 <=? length (take_while is_nl s))%nat eqn:E.
  - apply Nat.leb_le in E. apply rep_greedy_first; [assumption|].
    now rewrite length_drop_while.
  - apply Nat.leb_gt in E. now apply rep_greedy_short.
Qed.

Lemma sub_from_blank_run_prev repl s : forall skip prev prev',
  sub_from blank_run repl skip prev s = sub_from blank_run repl skip prev' s.
Proof.
  induction s as [|x s IH]; intros skip prev prev'.
  - cbn [sub_from]. now rewrite !match_len_blank_run.
  - cbn [sub_from]. destruct skip; [|apply IH].
    rewrite !match_len_blank_run. reflexivity.
Qed.

Lemma sub_from_skip r repl s : forall skip prev,
  (skip <= length s)%nat ->
  exists prev',
    sub_from r repl skip prev s = sub_from r repl 0 prev' (skipn skip s).
Proof.
  induction s as [|x s IH]; intros skip prev H.
  - simpl in H. assert (skip = 0%nat) by lia. subst. now exists prev.
  - destruct skip as [|skip]; [now exists prev|].
    cbn [sub_from skipn]. apply IH. simpl in H. lia.
Qed.

Lemma skipn_take_while p s :
  skipn (length (take_while p s)) s = drop_while p s.
Proof.
  induction s as [|x s IH]; [reflexivity|]. simpl.
  destruct (p x); simpl; [apply IH|reflexivity].
Qed.

Lemma nl_run_cons x s :
  nl_run (x :: s) = if is_nl x then S (nl_run s) else 0%nat.
Proof. unfold nl_run. simpl. now destruct (is_nl x). Qed.

Lemma nl_run_drop_while s : nl_run (drop_while is_nl s) = 0%nat.
Proof.
  unfold nl_run. destruct (drop_while is_nl s) as [|y r] eqn:E; [reflexivity|].
  apply drop_while_head in E. simpl. now rewrite E.
Qed.

(** One step of the substitution. *)
Lemma collapse_step repl prev x s :
  sub_from blank_run repl 0 prev (x :: s) =
  if (3 <=? nl_run (x :: s))%nat
  then repl ++ sub_from blank_run repl 0 None (drop_while is_nl s)
  else x :: sub_from blank_run repl 0 None s.
Proof.
  cbn [sub_from]. rewrite match_len_blank_run.
  destruct (3 <=? nl_run (x :: s))%nat eqn:E.
  - rewrite nl_run_cons in *. destruct (is_nl x); [|discriminate E].
    f_equal. unfold nl_run.
    destruct (sub_from_skip blank_run repl s (length (take_while is_nl s))
                (Some x)) as [prev' ->].
    { rewrite <- (take_drop is_nl s) at 2. rewrite length_app. lia. }
    rewrite skipn_take_while. apply sub_from_blank_run_prev.
  - f_equal. apply sub_from_blank_run_prev.
Qed.

Lemma no_blank_run_cons x s :
  no_blank_run (x :: s) =
  negb (3 <=? nl_run (x :: s))%nat && no_blank_run s.
Proof. reflexivity. Qed.

(** The substitution leaves no run of three newlines, and keeps shorter runs
    at the front as they are. *)
Lemma collapse_spec n : forall s prev,
  (length s <= n)%nat ->
  no_blank_run (sub_from blank_run [NL; NL] 0 prev s) = true /\
  nl_run (sub_from blank_run [NL; NL] 0 prev s) = Nat.min (nl_run s) 2.
Proof.
  induction n as [|n IH]; intros s prev Hlen.
  - destruct s; [|simpl in Hlen; lia]. split; reflexivity.
  - destruct s as [|x s]; [split; reflexivity|].
    rewrite collapse_step. simpl in Hlen.
    destruct (3 <=? nl_run (x :: s))%nat eqn:E.
    + destruct (IH (drop_while is_nl s) None) as [H1 H2].
      { rewrite <- (take_drop is_nl s) in Hlen. rewrite length_app in Hlen.
        lia. }
      rewrite nl_run_drop_while in H2. simpl in H2.
      apply Nat.leb_le in E.
      cbn [app]. rewrite !no_blank_run_cons, !nl_run_cons.
      change (is_nl NL) with true. cbv iota. rewrite H1, H2.
      split; [reflexivity|]. rewrite nl_run_cons in E.
      destruct (is_nl x); lia.
    + destruct (IH s None) as [H1 H2]; [lia|].
      apply Nat.leb_gt in E.
      rewrite no_blank_run_cons, !nl_run_cons, H1, H2.
      rewrite nl_run_cons in E.
      destruct (is_nl x); [|split; reflexivity].
      split.
      * rewrite andb_true_r. apply negb_true_iff, Nat.leb_gt. lia.
      * lia.
Qed.

Lemma re_sub_no_blank_run s :
  no_blank_run (re_sub blank_run [NL; NL] s) = true.
Proof. unfold re_sub. now apply (collapse_spec (length s)). Qed.

(** A text without such a run is left as it is. *)
Lemma re_sub_blank_run_id s :
  no_blank_run s = true -> re_sub blank_run [NL; NL] s = s.
Proof.
  unfold re_sub. generalize (@None N).
  induction s as [|x s IH]; intros prev H.
  - cbn [sub_from]. now rewrite match_len_blank_run.
  - rewrite collapse_step. rewrite no_blank_run_cons in H.
    apply andb_true_iff in H. destruct H as [H1 H2].
    apply negb_true_iff in H1. rewrite H1. f_equal. now apply IH.
Qed.

Lemma no_blank_run_tail x s :
  no_blank_run (x :: s) = true -> no_blank_run s = true.
Proof. rewrite no_blank_run_cons. intros H. now apply andb_true_iff in H. Qed.

Lemma no_blank_run_suffix pre s :
  no_blank_run (pre ++ s) = true -> no_blank_run s = true.
Proof.
  induction pre as [|x pre IH]; [trivial|]. simpl app. intros H.
  apply IH. eapply no_blank_run_tail. exact H.
Qed.

Lemma nl_run_app_le a b : (nl_run a <= nl_run (a ++ b))%nat.
Proof.
  induction a as [|x a IH]; [unfold nl_run; simpl; lia|].
  simpl app. rewrite !nl_run_cons. destruct (is_nl x); lia.
Qed.

Lemma no_blank_run_prefix a b :
  no_blank_run (a ++ b) = true -> no_blank_run a = true.
Proof.
  induction a as [|x a IH]; [reflexivity|]. simpl app.
  rewrite !no_blank_run_cons. intros H. apply andb_true_iff in H.
  destruct H as [H1 H2]. rewrite IH by assumption. rewrite andb_true_r.
  apply negb_true_iff, Nat.leb_gt. apply negb_true_iff, Nat.leb_gt in H1.
  pose proof (nl_run_app_le (x :: a) b). simpl app in *. lia.
Qed.

Lemma rstrip_prefix s : exists post, s = rstrip s ++ post.
Proof.
  induction s as [|x s [post IH]]; [now exists []|].
  rewrite rstrip_cons. destruct (nonempty (rstrip s)).
  - exists post. simpl. now rewrite <- IH.
  - destruct (isspace x); [now exists (x :: s)|now exists s].
Qed.

Lemma strip_no_blank_run s :
  no_blank_run s = true -> no_blank_run (strip s) = true.
Proof.
  intros H. unfold strip.
  destruct (lstrip_suffix s) as [pre E]. rewrite E in H.
  apply no_blank_run_suffix in H.
  destruct (rstrip_prefix (lstrip s)) as [post E']. rewrite E' in H.
  eapply no_blank_run_prefix. exact H.
Qed.

(** ** Lines: [splitlines] and [join] *)

Lemma unbroken_one_line s : unbroken s -> one_line s.
Proof.
  unfold unbroken, one_line. apply Forall_impl. intros x H.
  unfold dot. destruct (x =? NL) eqn:E; [|reflexivity].
  apply N.eqb_eq in E. subst. discriminate H.
Qed.

Lemma not_space_unbroken x : isspace x = false -> is_linebreak x = false.
Proof.
  intros H. destruct (is_linebreak x) eqn:E; [|reflexivity].
  apply linebreak_space in E. congruence.
Qed.

Lemma unbroken_app a b : unbroken a -> unbroken b -> unbroken (a ++ b).
Proof. unfold unbroken. intros. apply Forall_app. now split. Qed.

Lemma unbroken_incl a b :
  (forall x, In x a -> In x b) -> unbroken b -> unbroken a.
Proof.
  unfold unbroken. rewrite !Forall_forall. intros H Hb x Hx. auto.
Qed.

Lemma unbroken_literal s :
  forallb (fun x => negb (is_linebreak x)) s = true -> unbroken s.
Proof.
  intros H. unfold unbroken. rewrite forallb_forall in H.
  apply Forall_forall. intros x Hx. apply negb_true_iff. auto.
Qed.

Lemma strip_unbroken s : unbroken s -> unbroken (strip s).
Proof. apply unbroken_incl. apply strip_incl. Qed.

Lemma lstrip_unbroken s : unbroken s -> unbroken (lstrip s).
Proof. apply unbroken_incl. apply lstrip_incl. Qed.

Lemma rstrip_unbroken s : unbroken s -> unbroken (rstrip s).
Proof. apply unbroken_incl. apply rstrip_incl. Qed.

Lemma splitlines_cons x s :
  splitlines (x :: s) =
  if is_linebreak x then
    match s with
    | d :: s'' =>
        if (x =? CR) && (d =? NL) then [] :: splitlines s''
        else [] :: splitlines s
    | [] => [[]]
    end
  else
    match splitlines s with
    | [] => [[x]]
    | l :: ls => (x :: l) :: ls
    end.
Proof. reflexivity. Qed.

Lemma splitlines_unbroken_upto n : forall s,
  (length s <= n)%nat -> Forall unbroken (splitlines s).
Proof.
  induction n as [|n IH]; intros s Hlen.
  - destruct s; [constructor|simpl in Hlen; lia].
  - destruct s as [|x s]; [constructor|]. simpl in Hlen.
    rewrite splitlines_cons. destruct (is_linebreak x) eqn:Hx.
    + destruct s as [|d s'']; [repeat constructor|].
      simpl in Hlen.
      destruct ((x =? CR) && (d =? NL)); constructor;
        try constructor; apply IH; simpl; lia.
    + pose proof (IH s ltac:(lia)) as H.
      destruct (splitlines s) as [|l ls]; [repeat constructor; assumption|].
      inversion H; subst. constructor; [|assumption].
      now constructor.
Qed.

Lemma splitlines_unbroken s : Forall unbroken (splitlines s).
Proof. now apply (splitlines_unbroken_upto (length s)). Qed.

Lemma splitlines_app_nl l t :
  unbroken l -> splitlines (l ++ NL :: t) = l :: splitlines t.
Proof.
  induction 1 as [|x l Hx _ IH].
  - cbn [app]. rewrite splitlines_cons.
    change (is_linebreak NL) with true. cbv iota.
    change (NL =? CR) with false. cbn [andb]. now destruct t.
  - cbn [app]. rewrite splitlines_cons, Hx, IH. reflexivity.
Qed.

Lemma splitlines_single s :
  s <> [] -> unbroken s -> splitlines s = [s].
Proof.
  intros Hne H. induction H as [|x s Hx Hs IH]; [congruence|].
  rewrite splitlines_cons, Hx. destruct s as [|y s]; [reflexivity|].
  rewrite IH by discriminate. reflexivity.
Qed.

Lemma join_single sep l : join sep [l] = l.
Proof. reflexivity. Qed.

Lemma join_cons2 sep l l' ls :
  join sep (l :: l' :: ls) = l ++ sep ++ join sep (l' :: ls).
Proof. reflexivity. Qed.

Lemma join_snoc sep ls l :
  ls <> [] -> join sep (ls ++ [l]) = join sep ls ++ sep ++ l.
Proof.
  induction ls as [|a ls IH]; [congruence|]. intros _.
  destruct ls as [|b ls]; [reflexivity|].
  change ((a :: b :: ls) ++ [l]) with (a :: (b :: ls) ++ [l]).
  cbn [app]. rewrite !join_cons2. change (b :: ls ++ [l]) with ((b :: ls) ++ [l]).
  rewrite IH by discriminate. now rewrite <- !app_assoc.
Qed.

(** Splitting a text joined from unbroken lines gives the lines back, when
    the last one is not empty. *)
Lemma splitlines_join ls :
  Forall unbroken ls -> last ls [] <> [] ->
  splitlines (join [NL] ls) = ls.
Proof.
  induction ls as [|l ls IH]; intros H Hlast; [reflexivity|].
  inversion H as [|? ? Hl Hls]; subst.
  destruct ls as [|l' ls].
  - rewrite join_single. now apply splitlines_single.
  - rewrite join_cons2. cbn [app]. rewrite splitlines_app_nl by assumption.
    f_equal. apply IH; assumption.
Qed.

(** ** The loop of [beautify_structure], case by case *)

Lemma beautify_line_case out flag raw :
  line_case out flag raw (beautify_line (out, flag) raw).
Proof.
  unfold beautify_line.
  destruct (nonempty (strip raw)) eqn:Hne; cbn [negb].
  2: { now apply case_blank. }
  destruct (re_match p_part (strip raw)) as [m|] eqn:E1.
  { now apply case_part. }
  destruct (re_match p_article (strip raw)) as [m|] eqn:E2.
  { now apply case_article. }
  destruct (re_match p_sub (strip raw)) as [m|] eqn:E3.
  { now apply case_sub. }
  destruct (re_match p_num_item (strip raw)) as [m|] eqn:E4.
  { now apply case_item. }
  now apply case_para.
Qed.

(** ** The classifier *)

Lemma matches_some r s m : re_match r s = Some m -> matches r s = true.
Proof. unfold matches. now intros ->. Qed.

Lemma matches_none r s : re_match r s = None -> matches r s = false.
Proof. unfold matches. now intros ->. Qed.

(** C2: on a non-blank line the loop tests Part, Article, Sub-item,
    Numbered-item in this order and renders the line at the level of the
    first pattern that matches; a line that matches none is appended as it
    is, as paragraph content.  On a line of the input (no line boundary
    inside) the patterns find exactly the forms 第<numeral>編<title>,
    <numeral>、<title>, (<numeral>)<title> with either bracket width, and
    <digits>.<title>. *)
Theorem classifier_priority (out : list str) (flag : bool) (raw : str) :
  nonempty (strip raw) = true ->
  match classify (strip raw) with
  | Part =>
      exists m, re_match p_part (strip raw) = Some m /\
        beautify_line (out, flag) raw =
        (ensure_blank out ++ [part_heading m; []], true)
  | Article =>
      re_match p_part (strip raw) = None /\
      exists m, re_match p_article (strip raw) = Some m /\
        beautify_line (out, flag) raw =
        (ensure_blank out ++ [article_heading m; []], true)
  | SubItem =>
      re_match p_part (strip raw) = None /\
      re_match p_article (strip raw) = None /\
      exists m, re_match p_sub (strip raw) = Some m /\
        beautify_line (out, flag) raw =
        (ensure_blank out ++ [sub_heading_line m; []], true)
  | NumberedItem =>
      re_match p_part (strip raw) = None /\
      re_match p_article (strip raw) = None /\
      re_match p_sub (strip raw) = None /\
      exists m, re_match p_num_item (strip raw) = Some m /\
        beautify_line (out, flag) raw =
        (before_item out flag ++ [item_text m], false)
  | Plain =>
      re_match p_part (strip raw) = None /\
      re_match p_article (strip raw) = None /\
      re_match p_sub (strip raw) = None /\
      re_match p_num_item (strip raw) = None /\
      beautify_line (out, flag) raw =
      (before_para out raw ++ [strip raw], false)
  end
  /\ (unbroken raw ->
      re_match p_part (strip raw) = part_spec (strip raw) /\
      re_match p_article (strip raw) = article_spec (strip raw) /\
      re_match p_sub (strip raw) = sub_spec (strip raw) /\
      re_match p_num_item (strip raw) = num_item_spec (strip raw)).
Proof.
  intros Hne. split.
  - unfold classify.
    destruct (beautify_line_case out flag raw)
      as [Hb|m _ E1|m _ E1 E2|m _ E1 E2 E3|m _ E1 E2 E3 E4|_ E1 E2 E3 E4];
      [congruence|..];
      repeat match goal with
      | H : re_match _ _ = Some _ |- _ =>
          rewrite (matches_some _ _ _ H)
      | H : re_match _ _ = None |- _ =>
          rewrite (matches_none _ _ H)
      end; eauto 10.
  - intros Hraw.
    assert (Ht : tidy_line (strip raw)).
    { split; [apply strip_trimmed|].
      now apply unbroken_one_line, strip_unbroken. }
    auto using p_part_spec, p_article_spec, p_sub_spec, p_num_item_spec.
Qed.

Lemma classifier_priority_witness :
  nonempty (strip (u " (一) 適用範圍 ")) = true /\
  classify (strip (u " (一) 適用範圍 ")) = SubItem /\
  beautify_line ([u "前文"], false) (u " (一) 適用範圍 ") =
  ([u "前文"; []; u "### （一）適用範圍"; []], true).
Proof.
  destruct (classifier_priority [u "前文"] false (u " (一) 適用範圍 ")
              eq_refl) as [H _].
  change (classify (strip (u " (一) 適用範圍 "))) with SubItem in H.
  destruct H as (_ & _ & m & Em & Eb).
  split; [reflexivity|]. split; [reflexivity|].
  rewrite Eb. vm_compute in Em. injection Em as <-.
  vm_compute. reflexivity.
Defined.

(** ** Lines of a given form *)

Lemma part_spec_other x s : lit "第" x = false -> part_spec (x :: s) = None.
Proof. unfold part_spec. now intros ->. Qed.

Lemma article_spec_other x s :
  ch_num x = false -> article_spec (x :: s) = None.
Proof. unfold article_spec. cbn [take_while drop_while]. now intros ->. Qed.

Lemma sub_spec_other x s :
  in_set (u "(（") x = false -> sub_spec (x :: s) = None.
Proof. unfold sub_spec. now intros ->. Qed.

Lemma num_item_spec_other x s :
  isdecimal x = false -> num_item_spec (x :: s) = None.
Proof. unfold num_item_spec. cbn [take_while drop_while]. now intros ->. Qed.

Lemma part_spec_form x n y t :
  lit "第" x = true -> all_in ch_num n -> n <> [] -> lit "編" y = true ->
  part_spec (x :: n ++ y :: t) = Some (title_caps t [(1%nat, n)]).
Proof.
  intros Hx Hn Hne Hy. unfold part_spec. rewrite Hx.
  pose proof (part_marker_not_num _ Hy) as Hy'.
  rewrite take_while_app, drop_while_app by assumption.
  rewrite Hy. now destruct n.
Qed.

Lemma sub_spec_form x n y t :
  in_set (u "(（") x = true -> all_in ch_num n -> n <> [] ->
  in_set (u ")）") y = true ->
  sub_spec (x :: n ++ y :: t) = Some (title_caps t [(1%nat, n)]).
Proof.
  intros Hx Hn Hne Hy. unfold sub_spec. rewrite Hx.
  pose proof (closing_not_num _ Hy) as Hy'.
  rewrite take_while_app, drop_while_app by assumption.
  rewrite Hy. now destruct n.
Qed.

Lemma article_spec_form n y t :
  all_in ch_num n -> n <> [] -> lit "、" y = true ->
  article_spec (n ++ y :: t) =
  if nonempty t then Some [(2%nat, lstrip t); (1%nat, n)] else None.
Proof.
  intros Hn Hne Hy. unfold article_spec.
  pose proof (article_marker_not_num _ Hy) as Hy'.
  rewrite take_while_app, drop_while_app by assumption.
  rewrite Hy. now destruct n.
Qed.

Lemma num_item_spec_form d y t :
  all_in isdecimal d -> d <> [] -> lit "." y = true ->
  num_item_spec (d ++ y :: t) =
  if nonempty t then Some [(2%nat, lstrip t); (1%nat, d)] else None.
Proof.
  intros Hd Hne Hy. unfold num_item_spec.
  pose proof (point_not_decimal _ Hy) as Hy'.
  rewrite take_while_app, drop_while_app by assumption.
  rewrite Hy. now destruct d.
Qed.

(** ** Rendering a text of one line *)

Lemma one_line_no_blank_run l t :
  one_line l -> no_blank_run t = true -> no_blank_run (l ++ t) = true.
Proof.
  intros Hl Ht. induction Hl as [|x l Hx _ IH]; [assumption|].
  cbn [app]. rewrite no_blank_run_cons, nl_run_cons, IH.
  unfold dot in Hx. apply negb_true_iff in Hx. unfold is_nl. now rewrite Hx.
Qed.

Lemma rstrip_app_blank s t :
  forallb isspace t = true -> rstrip (s ++ t) = rstrip s.
Proof.
  intros Ht. induction s as [|x s IH].
  - cbn [app]. now rewrite rstrip_blank.
  - cbn [app]. now rewrite !rstrip_cons, IH.
Qed.

Lemma strip_line_nl l : trimmed l -> strip (l ++ [NL]) = l.
Proof.
  intros [Hl Hr]. unfold strip.
  destruct l as [|x l]; [reflexivity|].
  apply ltrimmed_head in Hl. cbn [app lstrip]. rewrite Hl.
  change (x :: l ++ [NL]) with ((x :: l) ++ [NL]).
  now rewrite rstrip_app_blank.
Qed.

(** The text returned when the loop has produced one heading. *)
Lemma finish_heading h :
  h <> [] -> trimmed h -> one_line h ->
  strip (re_sub blank_run [NL; NL] (join [NL] [h; []])) = h.
Proof.
  intros Hne Ht Hl. rewrite join_cons2, join_single. cbn [app].
  rewrite re_sub_blank_run_id by (now apply one_line_no_blank_run).
  now apply strip_line_nl.
Qed.

(** The text returned when the loop has produced one paragraph line. *)
Lemma finish_para l :
  trimmed l -> one_line l ->
  strip (re_sub blank_run [NL; NL] (join [NL] [l])) = l.
Proof.
  intros Ht Hl. rewrite join_single.
  rewrite re_sub_blank_run_id.
  - now apply trimmed_strip.
  - rewrite <- (app_nil_r l). now apply one_line_no_blank_run.
Qed.

Lemma beautify_structure_one text :
  text <> [] -> unbroken text ->
  beautify_structure text =
  strip (re_sub blank_run [NL; NL]
           (join [NL] (fst (beautify_line ([], false) text)))).
Proof.
  intros Hne Hu. unfold beautify_structure, beautify_lines.
  now rewrite splitlines_single.
Qed.

Lemma render_one text :
  text <> [] -> unbroken text -> trimmed text ->
  beautify_structure text =
  strip (re_sub blank_run [NL; NL] (join [NL]
    match re_match p_part text with
    | Some m => [part_heading m; []]
    | None =>
    match re_match p_article text with
    | Some m => [article_heading m; []]
    | None =>
    match re_match p_sub text with
    | Some m => [sub_heading_line m; []]
    | None =>
    match re_match p_num_item text with
    | Some m => [item_text m]
    | None => [text]
    end end end end)).
Proof.
  intros Hne Hu Ht. rewrite beautify_structure_one by assumption.
  pose proof (trimmed_strip _ Ht) as Hs.
  assert (Hn : nonempty text = true) by (destruct text; [congruence|reflexivity]).
  destruct (beautify_line_case [] false text)
    as [Hb|m _ E1|m _ E1 E2|m _ E1 E2 E3|m _ E1 E2 E3 E4|_ E1 E2 E3 E4];
    rewrite Hs in *; [congruence|..];
    repeat match goal with
           | H : re_match _ text = _ |- _ => rewrite H; clear H
           end; reflexivity.
Qed.

Lemma group1_title_caps r n : group 1 (title_caps r [(1%nat, n)]) = Some n.
Proof. unfold title_caps. now destruct (nonempty r). Qed.

Lemma title_of_caps r n :
  rtrimmed r ->
  strip (opt_str (group 2 (title_caps r [(1%nat, n)]))) = lstrip r.
Proof.
  intros Hr. unfold title_caps. destruct (nonempty r) eqn:E.
  - cbn [group Nat.eqb opt_str]. apply trimmed_strip. split.
    + apply lstrip_ltrimmed.
    + now apply lstrip_rtrimmed.
  - apply nonempty_false in E. now subst.
Qed.

Lemma part_heading_value r n :
  rtrimmed r ->
  part_heading (title_caps r [(1%nat, n)]) =
  rstrip (u "# 第" ++ n ++ u "編 " ++ lstrip r).
Proof.
  intros Hr. unfold part_heading.
  now rewrite group1_title_caps, title_of_caps.
Qed.

Lemma sub_heading_value r n :
  rtrimmed r ->
  sub_heading_line (title_caps r [(1%nat, n)]) =
  rstrip (u "### （" ++ n ++ u "）" ++ lstrip r).
Proof.
  intros Hr. unfold sub_heading_line.
  now rewrite group1_title_caps, title_of_caps.
Qed.

Lemma all_in_not_space p s :
  (forall x, p x = true -> isspace x = false) -> all_in p s ->
  Forall (fun x => isspace x = false) s.
Proof. intros H. apply Forall_impl. exact H. Qed.

Lemma not_space_all_unbroken s :
  Forall (fun x => isspace x = false) s -> unbroken s.
Proof. apply Forall_impl. apply not_space_unbroken. Qed.

Lemma rtrimmed_snoc s x : isspace x = false -> rtrimmed (s ++ [x]).
Proof.
  intros H. apply rtrimmed_app; [now apply rtrimmed_single|discriminate].
Qed.

Lemma rtrimmed_app_any a b : rtrimmed a -> rtrimmed b -> rtrimmed (a ++ b).
Proof.
  intros Ha Hb. destruct b as [|y b]; [now rewrite app_nil_r|].
  apply rtrimmed_app; [assumption|discriminate].
Qed.

Lemma ltrimmed_app x a b : isspace x = false -> ltrimmed ((x :: a) ++ b).
Proof. intros H. now apply ltrimmed_cons. Qed.

Lemma lstrip_trimmed_id t : trimmed t -> lstrip t = t.
Proof. now intros [H _]. Qed.

(** A sub-item line with either bracket on either side. *)
Lemma sub_item_render x y n t :
  in_set (u "(（") x = true -> in_set (u ")）") y = true ->
  n <> [] -> all_in ch_num n -> unbroken t -> trimmed t ->
  re_match p_part (x :: n ++ y :: t) = None /\
  re_match p_article (x :: n ++ y :: t) = None /\
  (exists m, re_match p_sub (x :: n ++ y :: t) = Some m) /\
  beautify_structure (x :: n ++ y :: t) = u "### （" ++ n ++ u "）" ++ t.
Proof.
  intros Hx Hy Hne Hn Hu Ht. pose proof Ht as [Htl Htr].
  assert (Hxs : isspace x = false).
  { apply in_set_In in Hx. vm_compute in Hx.
    destruct Hx as [<-|[<-|[]]]; reflexivity. }
  assert (Hys : isspace y = false).
  { apply in_set_In in Hy. vm_compute in Hy.
    destruct Hy as [<-|[<-|[]]]; reflexivity. }
  assert (Hxp : lit "第" x = false).
  { apply in_set_In in Hx. vm_compute in Hx.
    destruct Hx as [<-|[<-|[]]]; reflexivity. }
  assert (Hxn : ch_num x = false).
  { apply in_set_In in Hx. vm_compute in Hx.
    destruct Hx as [<-|[<-|[]]]; reflexivity. }
  assert (Hnu : unbroken n).
  { apply not_space_all_unbroken.
    eapply all_in_not_space; [apply num_not_space|assumption]. }
  assert (Htext : unbroken (x :: n ++ y :: t)).
  { constructor; [now apply not_space_unbroken|].
    apply unbroken_app; [assumption|].
    constructor; [now apply not_space_unbroken|assumption]. }
  assert (Htrim : trimmed (x :: n ++ y :: t)).
  { split; [now apply ltrimmed_cons|].
    change (x :: n ++ y :: t) with ((x :: n) ++ [y] ++ t).
    rewrite app_assoc. apply rtrimmed_app_any; [|assumption].
    now apply rtrimmed_snoc. }
  assert (Htidy : tidy_line (x :: n ++ y :: t)).
  { split; [assumption|now apply unbroken_one_line]. }
  assert (E1 : re_match p_part (x :: n ++ y :: t) = None).
  { rewrite p_part_spec by assumption. now apply part_spec_other. }
  assert (E2 : re_match p_article (x :: n ++ y :: t) = None).
  { rewrite p_article_spec by assumption. now apply article_spec_other. }
  assert (E3 : re_match p_sub (x :: n ++ y :: t) =
               Some (title_caps t [(1%nat, n)])).
  { rewrite p_sub_spec by assumption. now apply sub_spec_form. }
  split; [assumption|]. split; [assumption|]. split; [eauto|].
  rewrite render_one by (assumption || discriminate).
  rewrite E1, E2, E3. rewrite sub_heading_value by assumption.
  rewrite (lstrip_trimmed_id t Ht).
  assert (Hh : rtrimmed (u "### （" ++ n ++ u "）" ++ t)).
  { rewrite !app_assoc. apply rtrimmed_app_any; [|assumption].
    apply (rtrimmed_app (u "### （" ++ n) (u "）"));
      [reflexivity|discriminate]. }
  rewrite Hh. apply finish_heading.
  - discriminate.
  - split; [reflexivity|assumption].
  - apply unbroken_one_line. apply unbroken_app.
    + now apply unbroken_literal.
    + apply unbroken_app; [assumption|].
      apply unbroken_app; [|assumption]. now apply unbroken_literal.
Qed.

(** C4: for every numeral of the alphabet and every title (one line,
    stripped, possibly empty), the sub-item line with half-width brackets and
    the one with full-width brackets render to the same heading
    "### （N）T", with full-width brackets. *)
Theorem bracket_normalization (n t : str) :
  n <> [] -> all_in ch_num n -> unbroken t -> trimmed t ->
  beautify_structure (u "(" ++ n ++ u ")" ++ t) =
    u "### （" ++ n ++ u "）" ++ t /\
  beautify_structure (u "（" ++ n ++ u "）" ++ t) =
    u "### （" ++ n ++ u "）" ++ t.
Proof.
  intros Hne Hn Hu Ht. split.
  - change (u "(" ++ n ++ u ")" ++ t) with (chr "(" :: n ++ chr ")" :: t).
    now apply sub_item_render.
  - change (u "（" ++ n ++ u "）" ++ t) with (chr "（" :: n ++ chr "）" :: t).
    now apply sub_item_render.
Qed.

Lemma bracket_normalization_witness :
  beautify_structure (u "(十一)適用 範圍") = u "### （十一）適用 範圍" /\
  beautify_structure (u "（十一）適用 範圍") = u "### （十一）適用 範圍".
Proof.
  apply (bracket_normalization (u "十一") (u "適用 範圍")).
  - discriminate.
  - vm_compute. repeat constructor.
  - vm_compute. repeat constructor.
  - split; reflexivity.
Defined.

Lemma classify_part l m : re_match p_part l = Some m -> classify l = Part.
Proof. intros H. unfold classify. now rewrite (matches_some _ _ _ H). Qed.

Lemma classify_article l m :
  re_match p_part l = None -> re_match p_article l = Some m ->
  classify l = Article.
Proof.
  intros H1 H2. unfold classify.
  now rewrite (matches_none _ _ H1), (matches_some _ _ _ H2).
Qed.

Lemma classify_sub l m :
  re_match p_part l = None -> re_match p_article l = None ->
  re_match p_sub l = Some m -> classify l = SubItem.
Proof.
  intros H1 H2 H3. unfold classify.
  now rewrite (matches_none _ _ H1), (matches_none _ _ H2),
    (matches_some _ _ _ H3).
Qed.

Lemma classify_item l m :
  re_match p_part l = None -> re_match p_article l = None ->
  re_match p_sub l = None -> re_match p_num_item l = Some m ->
  classify l = NumberedItem.
Proof.
  intros H1 H2 H3 H4. unfold classify.
  now rewrite (matches_none _ _ H1), (matches_none _ _ H2),
    (matches_none _ _ H3), (matches_some _ _ _ H4).
Qed.

Lemma classify_plain l :
  re_match p_part l = None -> re_match p_article l = None ->
  re_match p_sub l = None -> re_match p_num_item l = None ->
  classify l = Plain.
Proof.
  intros H1 H2 H3 H4. unfold classify.
  now rewrite (matches_none _ _ H1), (matches_none _ _ H2),
    (matches_none _ _ H3), (matches_none _ _ H4).
Qed.

Lemma all_in_unbroken p s :
  (forall x, p x = true -> isspace x = false) -> all_in p s -> unbroken s.
Proof.
  intros H Hs. apply not_space_all_unbroken.
  eapply all_in_not_space; eassumption.
Qed.

Lemma all_in_head p x s : all_in p (x :: s) -> p x = true.
Proof. now inversion 1. Qed.

(** A marker closed by a character that is not white space, and a stripped
    title behind it. *)
Lemma marked_line_tidy x s y t :
  isspace x = false -> unbroken s -> isspace y = false ->
  unbroken t -> rtrimmed t ->
  unbroken ((x :: s) ++ y :: t) /\ trimmed ((x :: s) ++ y :: t)
  /\ tidy_line ((x :: s) ++ y :: t).
Proof.
  intros Hx Hs Hy Hu Ht.
  assert (H1 : unbroken ((x :: s) ++ y :: t)).
  { apply unbroken_app.
    - constructor; [now apply not_space_unbroken|assumption].
    - constructor; [now apply not_space_unbroken|assumption]. }
  assert (H2 : trimmed ((x :: s) ++ y :: t)).
  { split; [now apply ltrimmed_cons|].
    change (y :: t) with ([y] ++ t). rewrite app_assoc.
    apply rtrimmed_app_any; [|assumption]. now apply rtrimmed_snoc. }
  split; [assumption|]. split; [assumption|].
  split; [assumption|now apply unbroken_one_line].
Qed.

(** A Part line without a title. *)
Lemma part_without_title n :
  n <> [] -> all_in ch_num n ->
  classify (u "第" ++ n ++ u "編") = Part /\
  beautify_structure (u "第" ++ n ++ u "編") = u "# 第" ++ n ++ u "編".
Proof.
  intros Hne Hn.
  change (u "第" ++ n ++ u "編") with ((chr "第" :: n) ++ chr "編" :: []).
  destruct (marked_line_tidy (chr "第") n (chr "編") [])
    as (Hu & Ht & Htidy);
    [reflexivity|now apply (all_in_unbroken ch_num), Hn; apply num_not_space
    |reflexivity|constructor|reflexivity|].
  assert (E : re_match p_part ((chr "第" :: n) ++ [chr "編"]) =
              Some (title_caps [] [(1%nat, n)])).
  { rewrite p_part_spec by assumption.
    now apply part_spec_form. }
  split; [eapply classify_part; exact E|].
  rewrite render_one by (assumption || discriminate).
  rewrite E, part_heading_value by reflexivity.
  change (u "# 第" ++ n ++ u "編 " ++ lstrip [])
    with (u "# 第" ++ n ++ u "編" ++ [chr " "]).
  assert (Hh : rtrimmed (u "# 第" ++ n ++ u "編")).
  { rewrite app_assoc. apply rtrimmed_app; [reflexivity|discriminate]. }
  replace (u "# 第" ++ n ++ u "編" ++ [chr " "])
    with ((u "# 第" ++ n ++ u "編") ++ [chr " "])
    by (now rewrite <- !app_assoc).
  rewrite rstrip_app_blank by reflexivity. rewrite Hh.
  apply finish_heading.
  - discriminate.
  - split; [reflexivity|assumption].
  - apply unbroken_one_line. apply unbroken_app.
    + now apply unbroken_literal.
    + apply unbroken_app; [|now apply unbroken_literal].
      apply (all_in_unbroken ch_num); [apply num_not_space|assumption].
Qed.

(** An Article line: the title is required. *)
Lemma article_line n t :
  n <> [] -> all_in ch_num n -> unbroken t -> trimmed t ->
  if nonempty t
  then classify (n ++ u "、" ++ t) = Article /\
       beautify_structure (n ++ u "、" ++ t) = u "## " ++ n ++ u "、" ++ t
  else classify (n ++ u "、" ++ t) = Plain /\
       beautify_structure (n ++ u "、" ++ t) = n ++ u "、" ++ t.
Proof.
  intros Hne Hn Hu Ht. pose proof Ht as [Htl Htr].
  destruct n as [|x n]; [congruence|].
  pose proof (all_in_head _ _ _ Hn) as Hx.
  assert (Hnu : unbroken (x :: n))
    by (apply (all_in_unbroken ch_num); [apply num_not_space|assumption]).
  change ((x :: n) ++ u "、" ++ t) with ((x :: n) ++ chr "、" :: t).
  destruct (marked_line_tidy x n (chr "、") t)
    as (Hu' & Ht' & Htidy);
    [now apply num_not_space|now inversion Hnu|reflexivity|assumption
    |assumption|].
  assert (E1 : re_match p_part ((x :: n) ++ chr "、" :: t) = None).
  { rewrite p_part_spec by assumption.
    apply part_spec_other. now apply num_not_part. }
  assert (E2 : re_match p_article ((x :: n) ++ chr "、" :: t) =
               if nonempty t
               then Some [(2%nat, lstrip t); (1%nat, x :: n)] else None).
  { rewrite p_article_spec by assumption.
    now apply article_spec_form. }
  assert (E3 : re_match p_sub ((x :: n) ++ chr "、" :: t) = None).
  { rewrite p_sub_spec by assumption.
    apply sub_spec_other. now apply num_not_opening. }
  assert (E4 : re_match p_num_item ((x :: n) ++ chr "、" :: t) = None).
  { rewrite p_num_item_spec by assumption.
    apply num_item_spec_other. now apply num_not_decimal. }
  destruct (nonempty t) eqn:Hnt.
  - split; [eapply classify_article; eassumption|].
    rewrite render_one by (assumption || discriminate).
    rewrite E1, E2. unfold article_heading.
    cbn [group Nat.eqb opt_str]. rewrite (lstrip_trimmed_id t Ht).
    rewrite (trimmed_strip t Ht).
    apply nonempty_true in Hnt.
    apply finish_heading.
    + discriminate.
    + split; [reflexivity|].
      apply rtrimmed_app; [|simpl; discriminate].
      apply rtrimmed_app; [|discriminate]. now apply rtrimmed_cons.
    + apply unbroken_one_line. apply unbroken_app.
      * now apply unbroken_literal.
      * assumption.
  - split; [now apply classify_plain|].
    rewrite render_one by (assumption || discriminate).
    rewrite E1, E2, E3, E4.
    apply finish_para; [assumption|now apply unbroken_one_line].
Qed.

(** A Numbered-item line: the title is required. *)
Lemma numbered_line d t :
  d <> [] -> all_in isdecimal d -> unbroken t -> trimmed t ->
  if nonempty t
  then classify (d ++ u "." ++ t) = NumberedItem /\
       beautify_structure (d ++ u "." ++ t) = d ++ u ". " ++ t
  else classify (d ++ u "." ++ t) = Plain /\
       beautify_structure (d ++ u "." ++ t) = d ++ u "." ++ t.
Proof.
  intros Hne Hd Hu Ht. pose proof Ht as [Htl Htr].
  destruct d as [|x d]; [congruence|].
  pose proof (all_in_head _ _ _ Hd) as Hx.
  assert (Hdu : unbroken (x :: d))
    by (apply (all_in_unbroken isdecimal);
        [apply decimal_not_space|assumption]).
  change ((x :: d) ++ u "." ++ t) with ((x :: d) ++ chr "." :: t).
  destruct (marked_line_tidy x d (chr ".") t)
    as (Hu' & Ht' & Htidy);
    [now apply decimal_not_space|now inversion Hdu|reflexivity|assumption
    |assumption|].
  assert (E1 : re_match p_part ((x :: d) ++ chr "." :: t) = None).
  { rewrite p_part_spec by assumption.
    apply part_spec_other. now apply decimal_not_part. }
  assert (E2 : re_match p_article ((x :: d) ++ chr "." :: t) = None).
  { rewrite p_article_spec by assumption.
    apply article_spec_other. now apply decimal_not_num. }
  assert (E3 : re_match p_sub ((x :: d) ++ chr "." :: t) = None).
  { rewrite p_sub_spec by assumption.
    apply sub_spec_other. now apply decimal_not_opening. }
  assert (E4 : re_match p_num_item ((x :: d) ++ chr "." :: t) =
               if nonempty t
               then Some [(2%nat, lstrip t); (1%nat, x :: d)] else None).
  { rewrite p_num_item_spec by assumption.
    now apply num_item_spec_form. }
  destruct (nonempty t) eqn:Hnt.
  - split; [eapply classify_item; eassumption|].
    rewrite render_one by (assumption || discriminate).
    rewrite E1, E2, E3, E4. unfold item_text.
    cbn [group Nat.eqb opt_str]. rewrite (lstrip_trimmed_id t Ht).
    rewrite (trimmed_strip t Ht).
    apply nonempty_true in Hnt.
    apply finish_para.
    + split; [now apply ltrimmed_cons, decimal_not_space|].
      rewrite !app_assoc. now apply rtrimmed_app.
    + apply unbroken_one_line. apply unbroken_app; [assumption|].
      apply unbroken_app; [now apply unbroken_literal|assumption].
  - split; [now apply classify_plain|].
    rewrite render_one by (assumption || discriminate).
    rewrite E1, E2, E3, E4.
    apply finish_para; [assumption|now apply unbroken_one_line].
Qed.

(** C8, the claim as stated, fails for two of the four levels: an Article
    marker or a Numbered-item marker with no title behind it is classified
    Plain and kept as a paragraph line. *)
Lemma marker_only_falls_back :
  classify (strip (u "一、")) = Plain
  /\ beautify_structure (u "一、") = u "一、"
  /\ classify (strip (u "1.")) = Plain
  /\ beautify_structure (u "1.") = u "1.".
Proof. repeat split; vm_compute; reflexivity. Qed.

(** C8, amended: a Part line and a Sub-item line made of the marker and the
    numeral alone are classified at their level and rendered as headings; an
    Article line and a Numbered-item line need a title of at least one
    character: with it they are rendered at their level, and without it they
    are classified Plain and kept as they are. *)
Theorem empty_title_headings :
  (forall n, n <> [] -> all_in ch_num n ->
     classify (u "第" ++ n ++ u "編") = Part /\
     beautify_structure (u "第" ++ n ++ u "編") = u "# 第" ++ n ++ u "編")
  /\ (forall n, n <> [] -> all_in ch_num n ->
        classify (u "(" ++ n ++ u ")") = SubItem /\
        classify (u "（" ++ n ++ u "）") = SubItem /\
        beautify_structure (u "(" ++ n ++ u ")") = u "### （" ++ n ++ u "）" /\
        beautify_structure (u "（" ++ n ++ u "）") = u "### （" ++ n ++ u "）")
  /\ (forall n t, n <> [] -> all_in ch_num n -> unbroken t -> trimmed t ->
        if nonempty t
        then classify (n ++ u "、" ++ t) = Article /\
             beautify_structure (n ++ u "、" ++ t) =
             u "## " ++ n ++ u "、" ++ t
        else classify (n ++ u "、" ++ t) = Plain /\
             beautify_structure (n ++ u "、" ++ t) = n ++ u "、" ++ t)
  /\ (forall d t, d <> [] -> all_in isdecimal d -> unbroken t -> trimmed t ->
        if nonempty t
        then classify (d ++ u "." ++ t) = NumberedItem /\
             beautify_structure (d ++ u "." ++ t) = d ++ u ". " ++ t
        else classify (d ++ u "." ++ t) = Plain /\
             beautify_structure (d ++ u "." ++ t) = d ++ u "." ++ t).
Proof.
  split; [exact part_without_title|].
  split; [|split; [exact article_line|exact numbered_line]].
  intros n Hne Hn.
  destruct (sub_item_render (chr "(") (chr ")") n [])
    as (A1 & A2 & [m A3] & A4);
    [reflexivity|reflexivity|assumption|assumption|constructor
    |split; reflexivity|].
  destruct (sub_item_render (chr "（") (chr "）") n [])
    as (B1 & B2 & [m' B3] & B4);
    [reflexivity|reflexivity|assumption|assumption|constructor
    |split; reflexivity|].
  rewrite app_nil_r in A4, B4.
  split; [exact (classify_sub _ _ A1 A2 A3)|].
  split; [exact (classify_sub _ _ B1 B2 B3)|].
  split; assumption.
Qed.

(** ** The shape of [out] *)

Lemma str_eqb_nil_r l : str_eqb l [] = negb (nonempty l).
Proof. now destruct l. Qed.

Lemma last_nonblank_snoc out l : last_nonblank (out ++ [l]) = nonempty l.
Proof.
  unfold last_nonblank. rewrite last_last, str_eqb_nil_r, negb_involutive.
  now destruct out.
Qed.

Lemma last_nonblank_nil : last_nonblank [] = false.
Proof. reflexivity. Qed.

Lemma ensure_blank_shaped out :
  shaped out ->
  shaped (ensure_blank out) /\ last_nonblank (ensure_blank out) = false.
Proof.
  intros H. unfold ensure_blank. destruct (last_nonblank out) eqn:E.
  - split; [now apply shaped_blank|]. now rewrite last_nonblank_snoc.
  - now split.
Qed.

Lemma solid_nonempty l : solid l -> nonempty l = true.
Proof. intros [H _]. destruct l; [congruence|reflexivity]. Qed.

Lemma heading_shaped out h :
  shaped out -> heading_line h ->
  shaped (ensure_blank out ++ [h; []]) /\
  last_nonblank (ensure_blank out ++ [h; []]) = false.
Proof.
  intros Hs Hh. destruct (ensure_blank_shaped out Hs) as [H1 H2].
  change [h; []] with ([h] ++ [[]]). rewrite app_assoc.
  split; [|now rewrite last_nonblank_snoc].
  apply shaped_blank.
  - now apply shaped_heading.
  - rewrite last_nonblank_snoc. apply solid_nonempty. apply Hh.
Qed.

Lemma matches_item_nil : matches list_item_start [] = false.
Proof. reflexivity. Qed.

Lemma before_item_shaped out flag :
  shaped out -> (flag = true -> last_nonblank out = false) ->
  shaped (before_item out flag) /\
  (last_nonblank (before_item out flag) = false \/
   matches list_item_start (last (before_item out flag) []) = true).
Proof.
  intros Hs Hf. unfold before_item.
  destruct (last_nonblank out) eqn:E1; cbn [andb].
  - destruct flag; cbn [negb andb].
    + specialize (Hf eq_refl). congruence.
    + destruct (matches list_item_start (last out [])) eqn:E2; cbn [negb].
      * split; [assumption|]. now right.
      * split; [now apply shaped_blank|]. left.
        now rewrite last_nonblank_snoc.
  - split; [assumption|]. now left.
Qed.

Lemma before_para_shaped out raw : shaped out -> shaped (before_para out raw).
Proof.
  intros Hs. unfold before_para.
  destruct (nonempty out) eqn:E1; cbn [andb]; [|assumption].
  destruct (matches list_item_start (last out [])) eqn:E2; cbn [andb];
    [|assumption].
  destruct (matches leading_space raw); cbn [negb]; [assumption|].
  apply shaped_blank; [assumption|].
  unfold last_nonblank. rewrite E1. cbn [andb].
  destruct (last out []) as [|x l]; [|reflexivity].
  rewrite matches_item_nil in E2. discriminate.
Qed.

(** The parts of a tidy line around a marker character. *)
Lemma around_marker line pre y r :
  tidy_line line -> unbroken line -> line = pre ++ y :: r ->
  unbroken pre /\ unbroken r /\ rtrimmed r.
Proof.
  intros Ht Hu E. destruct (tidy_after_marker _ _ _ _ Ht E) as [_ Hr].
  subst line. unfold unbroken in *. apply Forall_app in Hu.
  destruct Hu as [H1 H2]. inversion H2; subst. auto.
Qed.

Lemma heading_rstrip rest :
  unbroken rest -> heading_line (rstrip (chr "#" :: rest)).
Proof.
  intros H.
  assert (E : exists t, rstrip (chr "#" :: rest) = chr "#" :: t).
  { rewrite rstrip_cons. destruct (nonempty (rstrip rest)); [eauto|].
    now exists []. }
  split; [|assumption]. destruct E as [t E].
  split; [rewrite E; discriminate|]. split.
  - split; [rewrite E; now apply ltrimmed_cons|apply rstrip_rtrimmed].
  - apply rstrip_unbroken. constructor; [reflexivity|assumption].
Qed.

Lemma lstrip_solid r :
  r <> [] -> rtrimmed r -> unbroken r -> solid (lstrip r).
Proof.
  intros Hne Hr Hu. split; [now apply lstrip_nonempty|]. split.
  - split; [apply lstrip_ltrimmed|now apply lstrip_rtrimmed].
  - now apply lstrip_unbroken.
Qed.

Lemma solid_strip l : solid l -> strip l = l.
Proof. intros (_ & H & _). now apply trimmed_strip. Qed.

Lemma part_heading_line line m :
  tidy_line line -> unbroken line -> re_match p_part line = Some m ->
  heading_line (part_heading m).
Proof.
  intros Ht Hu E. rewrite p_part_spec in E by assumption.
  unfold part_spec in E. destruct line as [|x s]; [discriminate|].
  destruct (lit "第" x); [|discriminate].
  destruct (drop_while ch_num s) as [|y r] eqn:D; [discriminate|].
  destruct (nonempty (take_while ch_num s) && lit "編" y); [|discriminate].
  injection E as <-.
  destruct (around_marker _ (x :: take_while ch_num s) y r Ht Hu)
    as (H1 & H2 & H3).
  { simpl. now rewrite <- D, take_drop. }
  rewrite part_heading_value by assumption.
  change (u "# 第" ++ take_while ch_num s ++ u "編 " ++ lstrip r)
    with (chr "#" :: u " 第" ++ take_while ch_num s ++ u "編 " ++ lstrip r).
  apply heading_rstrip.
  apply unbroken_app; [now apply unbroken_literal|].
  apply unbroken_app; [now inversion H1|].
  apply unbroken_app; [now apply unbroken_literal|].
  now apply lstrip_unbroken.
Qed.

Lemma sub_heading_is_line line m :
  tidy_line line -> unbroken line -> re_match p_sub line = Some m ->
  heading_line (sub_heading_line m).
Proof.
  intros Ht Hu E. rewrite p_sub_spec in E by assumption.
  unfold sub_spec in E. destruct line as [|x s]; [discriminate|].
  destruct (in_set (u "(（") x); [|discriminate].
  destruct (drop_while ch_num s) as [|y r] eqn:D; [discriminate|].
  destruct (nonempty (take_while ch_num s) && in_set (u ")）") y);
    [|discriminate].
  injection E as <-.
  destruct (around_marker _ (x :: take_while ch_num s) y r Ht Hu)
    as (H1 & H2 & H3).
  { simpl. now rewrite <- D, take_drop. }
  rewrite sub_heading_value by assumption.
  change (u "### （" ++ take_while ch_num s ++ u "）" ++ lstrip r)
    with (chr "#" :: u "## （" ++ take_while ch_num s ++ u "）" ++ lstrip r).
  apply heading_rstrip.
  apply unbroken_app; [now apply unbroken_literal|].
  apply unbroken_app; [now inversion H1|].
  apply unbroken_app; [now apply unbroken_literal|].
  now apply lstrip_unbroken.
Qed.

Lemma article_heading_line line m :
  tidy_line line -> unbroken line -> re_match p_article line = Some m ->
  heading_line (article_heading m).
Proof.
  intros Ht Hu E. rewrite p_article_spec in E by assumption.
  unfold article_spec in E.
  destruct (drop_while ch_num line) as [|y r] eqn:D; [discriminate|].
  destruct (nonempty (take_while ch_num line) && lit "、" y);
    [|discriminate].
  cbn [andb] in E. destruct (nonempty r) eqn:Hr; [|discriminate].
  injection E as <-. apply nonempty_true in Hr.
  destruct (around_marker _ (take_while ch_num line) y r Ht Hu)
    as (H1 & H2 & H3).
  { now rewrite <- D, take_drop. }
  pose proof (lstrip_solid r Hr H3 H2) as Hb.
  unfold article_heading. cbn [group Nat.eqb opt_str].
  rewrite (solid_strip _ Hb). destruct Hb as (Hb1 & [_ Hb2] & Hb3).
  split; [|now exists (u "# " ++ take_while ch_num line ++ u "、"
                         ++ lstrip r)].
  split; [discriminate|]. split.
  - split; [reflexivity|]. rewrite !app_assoc. now apply rtrimmed_app.
  - apply unbroken_app; [now apply unbroken_literal|].
    apply unbroken_app; [assumption|].
    apply unbroken_app; [now apply unbroken_literal|assumption].
Qed.

Lemma item_text_line line m :
  tidy_line line -> unbroken line -> re_match p_num_item line = Some m ->
  item_line (item_text m).
Proof.
  intros Ht Hu E. rewrite p_num_item_spec in E by assumption.
  unfold num_item_spec in E.
  destruct (drop_while isdecimal line) as [|y r] eqn:D; [discriminate|].
  destruct (take_while isdecimal line) as [|d0 d] eqn:Hd;
    [discriminate|].
  cbn [nonempty andb] in E.
  destruct (lit "." y); [|discriminate].
  destruct (nonempty r) eqn:Hr; [|discriminate].
  injection E as <-. apply nonempty_true in Hr.
  destruct (around_marker _ (take_while isdecimal line) y r Ht Hu)
    as (H1 & H2 & H3).
  { now rewrite <- D, take_drop. }
  pose proof (lstrip_solid r Hr H3 H2) as Hb.
  unfold item_text. cbn [group Nat.eqb opt_str].
  rewrite (solid_strip _ Hb).
  exists (d0 :: d), (lstrip r). split; [reflexivity|].
  split; [discriminate|]. split; [|assumption].
  rewrite <- Hd. apply take_while_all.
Qed.

Lemma strip_tidy raw :
  unbroken raw -> tidy_line (strip raw) /\ unbroken (strip raw).
Proof.
  intros H. pose proof (strip_unbroken _ H) as Hu.
  split; [|assumption].
  split; [apply strip_trimmed|now apply unbroken_one_line].
Qed.

(** One iteration keeps the shape, and leaves a blank line behind a
    heading. *)
Lemma beautify_line_shaped out flag raw :
  unbroken raw -> shaped out ->
  (flag = true -> last_nonblank out = false) ->
  shaped (fst (beautify_line (out, flag) raw)) /\
  (snd (beautify_line (out, flag) raw) = true ->
   last_nonblank (fst (beautify_line (out, flag) raw)) = false).
Proof.
  intros Hraw Hs Hf. destruct (strip_tidy raw Hraw) as [Ht Hu].
  destruct (beautify_line_case out flag raw)
    as [Hb|m Hn E1|m Hn E1 E2|m Hn E1 E2 E3|m Hn E1 E2 E3 E4
       |Hn E1 E2 E3 E4]; cbn [fst snd].
  - destruct (ensure_blank_shaped out Hs). split; [assumption|discriminate].
  - destruct (heading_shaped out (part_heading m) Hs); [|now split].
    eapply part_heading_line; eassumption.
  - destruct (heading_shaped out (article_heading m) Hs); [|now split].
    eapply article_heading_line; eassumption.
  - destruct (heading_shaped out (sub_heading_line m) Hs); [|now split].
    eapply sub_heading_is_line; eassumption.
  - destruct (before_item_shaped out flag Hs Hf) as [H1 H2].
    split; [|discriminate]. apply shaped_item; [assumption|assumption|].
    eapply item_text_line; eassumption.
  - split; [|discriminate]. apply shaped_para.
    + now apply before_para_shaped.
    + split; [|now auto]. split; [now apply nonempty_true|].
      split; [apply strip_trimmed|assumption].
Qed.

Lemma beautify_fold_shaped lines : forall out flag,
  Forall unbroken lines -> shaped out ->
  (flag = true -> last_nonblank out = false) ->
  shaped (fst (fold_left beautify_line lines (out, flag))).
Proof.
  induction lines as [|raw lines IH]; intros out flag Hl Hs Hf;
    [assumption|].
  inversion Hl as [|? ? Hraw Hrest]; subst. cbn [fold_left].
  destruct (beautify_line_shaped out flag raw Hraw Hs Hf) as [H1 H2].
  destruct (beautify_line (out, flag) raw) as [out' flag'].
  now apply IH.
Qed.

Lemma beautify_lines_shaped text :
  shaped (fst (beautify_lines (splitlines text))).
Proof.
  unfold beautify_lines. apply beautify_fold_shaped.
  - apply splitlines_unbroken.
  - constructor.
  - discriminate.
Qed.

(** ** The text joined from a shaped [out] *)

Lemma heading_solid h : heading_line h -> solid h.
Proof. now intros [H _]. Qed.

Lemma para_solid l : para_line l -> solid l.
Proof. now intros [H _]. Qed.

Lemma item_solid l : item_line l -> solid l.
Proof.
  intros (idx & body & -> & Hne & Hd & Hb1 & [_ Hb2] & Hb3).
  destruct idx as [|x idx]; [congruence|].
  pose proof (all_in_head _ _ _ Hd) as Hx.
  split; [discriminate|]. split.
  - split; [now apply ltrimmed_cons, decimal_not_space|].
    rewrite !app_assoc. now apply rtrimmed_app.
  - apply unbroken_app.
    + apply (all_in_unbroken isdecimal); [apply decimal_not_space|assumption].
    + apply unbroken_app; [now apply unbroken_literal|assumption].
Qed.

Lemma solid_head l :
  solid l -> exists x t, l = x :: t /\ isspace x = false.
Proof.
  intros (Hne & [Hl _] & _). destruct l as [|x t]; [congruence|].
  exists x, t. split; [reflexivity|]. now apply ltrimmed_head in Hl.
Qed.

Lemma solid_one_line l : solid l -> one_line l.
Proof. intros (_ & _ & H). now apply unbroken_one_line. Qed.

Lemma solid_nl_run l t : solid l -> nl_run (l ++ t) = 0%nat.
Proof.
  intros H. destruct (solid_head l H) as (x & s & -> & Hx).
  cbn [app]. rewrite nl_run_cons. unfold is_nl. now rewrite space_NL.
Qed.

Lemma open_blank_le out : (open_blank out <= 1)%nat.
Proof.
  unfold open_blank. destruct (last_nonblank out); [lia|].
  destruct (nonempty out); lia.
Qed.

Lemma join_then_solid out l t :
  (forall t', no_blank_run t' = true ->
     (nl_run t' + open_blank out <= 2)%nat ->
     no_blank_run (join [NL] out ++ t') = true) ->
  solid l -> no_blank_run t = true ->
  no_blank_run (join [NL] (out ++ [l]) ++ t) = true.
Proof.
  intros IH Hl Ht.
  assert (Hlt : no_blank_run (l ++ t) = true)
    by (apply one_line_no_blank_run; [now apply solid_one_line|assumption]).
  destruct out as [|a out]; [exact Hlt|].
  rewrite join_snoc by discriminate. rewrite <- !app_assoc.
  apply IH.
  - cbn [app]. rewrite no_blank_run_cons, nl_run_cons, Hlt.
    change (is_nl NL) with true. cbv iota.
    now rewrite (solid_nl_run l t Hl).
  - cbn [app]. rewrite nl_run_cons. change (is_nl NL) with true. cbv iota.
    rewrite (solid_nl_run l t Hl). pose proof (open_blank_le (a :: out)). lia.
Qed.

Lemma shaped_no_blank_run out :
  shaped out ->
  forall t, no_blank_run t = true ->
  (nl_run t + open_blank out <= 2)%nat ->
  no_blank_run (join [NL] out ++ t) = true.
Proof.
  induction 1 as [|out Hs IH Hlast|out h Hs IH Hlast Hh
                  |out l Hs IH Hprev Hl|out l Hs IH Hl]; intros t Ht Hrun.
  - assumption.
  - assert (Hne : out <> []) by (intros ->; discriminate Hlast).
    rewrite join_snoc by assumption. rewrite <- !app_assoc. cbn [app].
    unfold open_blank in Hrun. rewrite last_nonblank_snoc in Hrun.
    cbn [nonempty] in Hrun.
    replace (nonempty (out ++ [[]])) with true in Hrun
      by (now destruct out).
    apply IH.
    + rewrite no_blank_run_cons, nl_run_cons, Ht.
      change (is_nl NL) with true. cbv iota. rewrite andb_true_r.
      apply negb_true_iff, Nat.leb_gt. lia.
    + rewrite nl_run_cons. change (is_nl NL) with true. cbv iota.
      unfold open_blank. rewrite Hlast. lia.
  - apply join_then_solid; [assumption|now apply heading_solid|assumption].
  - apply join_then_solid; [assumption|now apply item_solid|assumption].
  - apply join_then_solid; [assumption|now apply para_solid|assumption].
Qed.

Lemma join_snoc_solid_head out l :
  (out <> [] -> exists x t, join [NL] out = x :: t /\ isspace x = false) ->
  solid l ->
  exists x t, join [NL] (out ++ [l]) = x :: t /\ isspace x = false.
Proof.
  intros IH Hl. destruct out as [|a out].
  - cbn [app]. rewrite join_single. now apply solid_head.
  - rewrite join_snoc by discriminate.
    destruct IH as (x & t & -> & Hx); [discriminate|].
    now exists x, (t ++ [NL] ++ l).
Qed.

Lemma join_snoc_solid_rtrimmed out l :
  solid l -> rtrimmed (join [NL] (out ++ [l])).
Proof.
  intros (Hne & [_ Hr] & _). destruct out as [|a out].
  - assumption.
  - rewrite join_snoc by discriminate. rewrite app_assoc.
    now apply rtrimmed_app.
Qed.

Lemma shaped_join_head out :
  shaped out -> out <> [] ->
  exists x t, join [NL] out = x :: t /\ isspace x = false.
Proof.
  induction 1 as [|out Hs IH Hlast|out h Hs IH Hlast Hh
                  |out l Hs IH Hprev Hl|out l Hs IH Hl]; intros Hne.
  - congruence.
  - assert (Hout : out <> []) by (intros ->; discriminate Hlast).
    rewrite join_snoc by assumption.
    destruct (IH Hout) as (x & t & -> & Hx).
    now exists x, (t ++ [NL] ++ []).
  - apply join_snoc_solid_head; [assumption|now apply heading_solid].
  - apply join_snoc_solid_head; [assumption|now apply item_solid].
  - apply join_snoc_solid_head; [assumption|now apply para_solid].
Qed.

Lemma shaped_join_trimmed out :
  shaped out -> last_nonblank out = true -> trimmed (join [NL] out).
Proof.
  intros Hs Hlast.
  assert (Hne : out <> []) by (intros ->; discriminate Hlast).
  destruct (shaped_join_head out Hs Hne) as (x & t & E & Hx).
  split; [rewrite E; now apply ltrimmed_cons|].
  destruct Hs as [|out Hs Hl|out h Hs Hl Hh|out l Hs Hp Hl|out l Hs Hl].
  - discriminate.
  - rewrite last_nonblank_snoc in Hlast. discriminate.
  - now apply join_snoc_solid_rtrimmed, heading_solid.
  - now apply join_snoc_solid_rtrimmed, item_solid.
  - now apply join_snoc_solid_rtrimmed, para_solid.
Qed.

Lemma final_lines_shaped out :
  shaped out ->
  shaped (final_lines out) /\
  (final_lines out = [] \/ last_nonblank (final_lines out) = true).
Proof.
  intros Hs. unfold final_lines.
  destruct (last_nonblank out) eqn:E; [now auto|].
  destruct Hs as [|out Hs Hl|out h Hs Hl Hh|out l Hs Hp Hl|out l Hs Hl].
  - split; [constructor|now left].
  - rewrite removelast_last. now auto.
  - rewrite last_nonblank_snoc, (solid_nonempty _ (heading_solid _ Hh)) in E.
    discriminate.
  - rewrite last_nonblank_snoc, (solid_nonempty _ (item_solid _ Hl)) in E.
    discriminate.
  - rewrite last_nonblank_snoc, (solid_nonempty _ (para_solid _ Hl)) in E.
    discriminate.
Qed.

Lemma shaped_finish out :
  shaped out ->
  strip (re_sub blank_run [NL; NL] (join [NL] out)) =
  join [NL] (final_lines out).
Proof.
  intros Hs.
  rewrite re_sub_blank_run_id.
  2: { rewrite <- (app_nil_r (join [NL] out)).
       apply shaped_no_blank_run; [assumption|reflexivity|].
       pose proof (open_blank_le out). unfold nl_run. simpl. lia. }
  unfold final_lines. destruct (last_nonblank out) eqn:E.
  - apply trimmed_strip. now apply shaped_join_trimmed.
  - destruct Hs as [|out Hs Hl|out h Hs Hl Hh|out l Hs Hp Hl|out l Hs Hl].
    + reflexivity.
    + rewrite removelast_last.
      assert (Hne : out <> []) by (intros ->; discriminate Hl).
      rewrite join_snoc by assumption. cbn [app].
      apply strip_line_nl. now apply shaped_join_trimmed.
    + rewrite last_nonblank_snoc, (solid_nonempty _ (heading_solid _ Hh)) in E.
      discriminate.
    + rewrite last_nonblank_snoc, (solid_nonempty _ (item_solid _ Hl)) in E.
      discriminate.
    + rewrite last_nonblank_snoc, (solid_nonempty _ (para_solid _ Hl)) in E.
      discriminate.
Qed.

(** The renderer returns the final lines of the loop, joined. *)
Lemma beautify_structure_lines text :
  beautify_structure text =
  join [NL] (final_lines (fst (beautify_lines (splitlines text)))).
Proof.
  unfold beautify_structure. apply shaped_finish.
  apply beautify_lines_shaped.
Qed.

(** ** The lines of the returned text *)

Lemma solid_not_blank l : solid l -> is_blank l = false.
Proof. intros (Hne & [_ Hr] & _). now apply rtrimmed_not_blank. Qed.

Lemma no_double_blank_snoc out l :
  no_double_blank (out ++ [l]) =
  no_double_blank out
  && negb (nonempty out && is_blank (last out []) && is_blank l).
Proof.
  induction out as [|a out IH]; [reflexivity|].
  destruct out as [|b out].
  - cbn [app no_double_blank nonempty last andb].
    now rewrite !andb_true_r.
  - change ((a :: b :: out) ++ [l]) with (a :: (b :: out) ++ [l]).
    cbn [no_double_blank]. change ((b :: out) ++ [l]) with (b :: out ++ [l]) at 1.
    cbv iota. change (b :: out ++ [l]) with ((b :: out) ++ [l]).
    rewrite IH. cbn [nonempty last]. now rewrite andb_assoc.
Qed.

Lemma shaped_last_solid out :
  shaped out -> last_nonblank out = true -> solid (last out []).
Proof.
  intros Hs E.
  destruct Hs as [|out Hs Hl|out h Hs Hl Hh|out l Hs Hp Hl|out l Hs Hl];
    rewrite ?last_last.
  - discriminate.
  - rewrite last_nonblank_snoc in E. discriminate.
  - now apply heading_solid.
  - now apply item_solid.
  - now apply para_solid.
Qed.

Lemma shaped_lines out :
  shaped out ->
  Forall (fun l => l = [] \/ solid l) out /\
  no_double_blank out = true /\
  (out <> [] -> solid (hd [] out)).
Proof.
  induction 1 as [|out Hs IH Hlast|out h Hs IH Hlast Hh
                  |out l Hs IH Hprev Hl|out l Hs IH Hl].
  - split; [constructor|split; [reflexivity|congruence]].
  - destruct IH as (H1 & H2 & H3).
    assert (Hne : out <> []) by (intros ->; discriminate Hlast).
    split; [|split].
    + apply Forall_app. split; [assumption|]. constructor; [now left|constructor].
    + rewrite no_double_blank_snoc, H2.
      rewrite (solid_not_blank _ (shaped_last_solid _ Hs Hlast)).
      now rewrite andb_false_r.
    + intros _. destruct out; [congruence|]. now apply H3.
  - destruct IH as (H1 & H2 & H3). pose proof (heading_solid _ Hh) as Hsol.
    split; [|split].
    + apply Forall_app. split; [assumption|]. constructor; [now right|constructor].
    + rewrite no_double_blank_snoc, H2, (solid_not_blank _ Hsol).
      now rewrite andb_false_r.
    + intros _. destruct out; [assumption|]. now apply H3.
  - destruct IH as (H1 & H2 & H3). pose proof (item_solid _ Hl) as Hsol.
    split; [|split].
    + apply Forall_app. split; [assumption|]. constructor; [now right|constructor].
    + rewrite no_double_blank_snoc, H2, (solid_not_blank _ Hsol).
      now rewrite andb_false_r.
    + intros _. destruct out; [assumption|]. now apply H3.
  - destruct IH as (H1 & H2 & H3). pose proof (para_solid _ Hl) as Hsol.
    split; [|split].
    + apply Forall_app. split; [assumption|]. constructor; [now right|constructor].
    + rewrite no_double_blank_snoc, H2, (solid_not_blank _ Hsol).
      now rewrite andb_false_r.
    + intros _. destruct out; [assumption|]. now apply H3.
Qed.

Lemma blank_or_solid_unbroken ls :
  Forall (fun l => l = [] \/ solid l) ls -> Forall unbroken ls.
Proof.
  apply Forall_impl. intros l [->|(_ & _ & H)]; [constructor|assumption].
Qed.

Lemma rtrimmed_no_final_newline s : rtrimmed s -> ends_with_newline s = false.
Proof.
  unfold ends_with_newline. induction s as [|x s IH]; intros H; [reflexivity|].
  destruct s as [|y s].
  - cbn [last]. apply space_NL. unfold rtrimmed in H. simpl in H.
    destruct (isspace x); [discriminate|reflexivity].
  - change (last (x :: y :: s) 0) with (last (y :: s) 0).
    apply IH. eapply rtrimmed_tail. exact H.
Qed.

(** C3, the claim as stated, fails on the trailing newline: the text the
    renderer returns is stripped, so it ends with no newline at all; the one
    trailing newline of the file is put there by [add_metadata].  With that
    newline counted in, the output for a blank document is a blank line. *)
Lemma no_trailing_newline :
  beautify_structure (u "本文") = u "本文"
  /\ ends_with_newline (beautify_structure (u "本文")) = false
  /\ strip (beautify_structure []) ++ [NL] = [NL]
  /\ is_blank (hd [] (splitlines (strip (beautify_structure []) ++ [NL])))
     = true.
Proof. repeat split; vm_compute; reflexivity. Qed.

(** C3, amended: for every input the text returned by [beautify_structure]
    is stripped, so that it has no newline at its end ([add_metadata] writes
    it followed by exactly one newline); it never contains three newlines in
    a row; its lines are empty or stripped and not blank, no two blank lines
    follow each other (so never 3 or more), and neither the first nor the
    last line is blank. *)
Theorem whitespace_discipline (text : str) :
  strip (beautify_structure text) = beautify_structure text
  /\ ends_with_newline (beautify_structure text) = false
  /\ no_blank_run (beautify_structure text) = true
  /\ (exists ls,
        beautify_structure text = join [NL] ls /\
        (ls <> [] -> splitlines (beautify_structure text) = ls) /\
        Forall (fun l => l = [] \/ solid l) ls /\
        no_double_blank ls = true /\
        (ls <> [] ->
         is_blank (hd [] ls) = false /\ is_blank (last ls []) = false))
  /\ (forall filename,
        add_metadata filename (beautify_structure text) =
        metadata_header filename ++ beautify_structure text ++ [NL]).
Proof.
  assert (Hstrip : strip (beautify_structure text) = beautify_structure text).
  { unfold beautify_structure. apply strip_idempotent. }
  split; [assumption|]. split; [|split; [|split]].
  - apply rtrimmed_no_final_newline. rewrite <- Hstrip. apply strip_trimmed.
  - unfold beautify_structure. apply strip_no_blank_run, re_sub_no_blank_run.
  - pose proof (beautify_lines_shaped text) as Hs.
    destruct (final_lines_shaped _ Hs) as [Hf Hlast].
    destruct (shaped_lines _ Hf) as (H1 & H2 & H3).
    exists (final_lines (fst (beautify_lines (splitlines text)))).
    rewrite beautify_structure_lines.
    split; [reflexivity|]. split; [|split; [assumption|split; [assumption|]]].
    + intros Hne. destruct Hlast as [E|E]; [congruence|].
      apply splitlines_join; [now apply blank_or_solid_unbroken|].
      pose proof (shaped_last_solid _ Hf E) as (Hn & _). exact Hn.
    + intros Hne. destruct Hlast as [E|E]; [congruence|].
      split; apply solid_not_blank; [now apply H3|].
      now apply shaped_last_solid.
  - intros filename. unfold add_metadata. now rewrite Hstrip.
Qed.

(** ** Rendered lines, read again *)

Local Open Scope re_scope.

Lemma list_item_start_spec l :
  matches list_item_start l = list_item_spec l.
Proof.
  unfold matches, re_match, list_item_start, list_item_spec.
  rewrite rmatch_cat, rmatch_bol, rmatch_cat, rmatch_greedy.
  rewrite rep_greedy_reject.
  - destruct (take_while isdecimal l) as [|d0 d]; cbn [length Nat.leb nonempty].
    + now destruct (drop_while isdecimal l) as [|y [|w r]].
    + cbn [andb]. destruct (drop_while isdecimal l) as [|y r]; [reflexivity|].
      rewrite rmatch_cat, rmatch_cls_cons. destruct (lit "." y); [|now destruct r].
      destruct r as [|w r]; [reflexivity|]. rewrite rmatch_cls_cons.
      now destruct (isspace w).
  - intros prev x s c' Hx. rewrite rmatch_cat, rmatch_cls_cons.
    destruct (lit "." x) eqn:E; [|reflexivity].
    apply point_not_decimal in E. congruence.
Qed.

Lemma leading_space_head x t :
  isspace x = false -> matches leading_space (x :: t) = false.
Proof.
  intros H. unfold matches, re_match, leading_space.
  now rewrite rmatch_cat, rmatch_bol, rmatch_cls_cons, H.
Qed.

Local Close Scope re_scope.

Lemma solid_tidy l : solid l -> tidy_line l.
Proof. intros (_ & H1 & H2). split; [assumption|now apply unbroken_one_line]. Qed.

Lemma solid_not_indented l : solid l -> matches leading_space l = false.
Proof.
  intros H. destruct (solid_head l H) as (x & t & -> & Hx).
  now apply leading_space_head.
Qed.

(** A rendered heading is a paragraph line for the next reading. *)
Lemma heading_as_para h : heading_line h -> para_line h.
Proof.
  intros [Hs [t ->]]. pose proof (solid_tidy _ Hs) as Ht.
  split; [assumption|].
  rewrite p_part_spec, p_article_spec, p_sub_spec, p_num_item_spec
    by assumption.
  repeat split.
Qed.

Lemma heading_not_item h :
  heading_line h -> matches list_item_start h = false.
Proof.
  intros [_ [t ->]]. rewrite list_item_start_spec.
  unfold list_item_spec. cbn [take_while drop_while].
  change (isdecimal (chr "#")) with false. cbv iota. now destruct t.
Qed.

(** A rendered list item is read as the same list item. *)
Lemma item_reread l :
  item_line l ->
  re_match p_part l = None /\ re_match p_article l = None /\
  re_match p_sub l = None /\
  (exists m, re_match p_num_item l = Some m /\ item_text m = l) /\
  matches list_item_start l = true.
Proof.
  intros Hl. pose proof (solid_tidy _ (item_solid _ Hl)) as Ht.
  destruct Hl as (idx & body & -> & Hne & Hd & Hb).
  rewrite list_item_start_spec.
  rewrite p_part_spec, p_article_spec, p_sub_spec, p_num_item_spec
    by assumption.
  change (idx ++ u ". " ++ body) with (idx ++ chr "." :: chr " " :: body).
  unfold list_item_spec.
  rewrite num_item_spec_form, take_while_app, drop_while_app
    by (assumption || reflexivity).
  destruct idx as [|x idx]; [congruence|].
  pose proof (all_in_head _ _ _ Hd) as Hx.
  split; [apply part_spec_other; now apply decimal_not_part|].
  split; [apply article_spec_other; now apply decimal_not_num|].
  split; [apply sub_spec_other; now apply decimal_not_opening|].
  split; [|reflexivity].
  eexists. split; [reflexivity|].
  unfold item_text. cbn [group Nat.eqb opt_str nonempty].
  cbn [lstrip]. change (isspace (chr " ")) with true. cbv iota.
  destruct Hb as (_ & Hb & _). rewrite (lstrip_trimmed_id _ Hb).
  now rewrite (trimmed_strip _ Hb).
Qed.

(** A paragraph line does not look like a list item. *)
Lemma para_not_item l : para_line l -> matches list_item_start l = false.
Proof.
  intros (Hs & _ & _ & _ & E). pose proof (solid_tidy _ Hs) as Ht.
  rewrite p_num_item_spec in E by assumption.
  rewrite list_item_start_spec. unfold list_item_spec, num_item_spec in *.
  destruct (drop_while isdecimal l) as [|y [|w r]]; try reflexivity.
  cbn [nonempty] in E. rewrite andb_true_r in E.
  destruct (nonempty (take_while isdecimal l) && lit "." y);
    [discriminate|reflexivity].
Qed.

(** ** Reading a rendered text again *)

Lemma no_para_after_item_snoc out l :
  no_para_after_item (out ++ [l]) =
  no_para_after_item out
  && (negb (nonempty out) || negb (matches list_item_start (last out []))
      || negb (nonempty l) || matches list_item_start l).
Proof.
  induction out as [|a out IH]; [reflexivity|].
  destruct out as [|b out].
  - cbn [app no_para_after_item nonempty last negb orb andb].
    now rewrite andb_true_r.
  - change ((a :: b :: out) ++ [l]) with (a :: (b :: out) ++ [l]).
    cbn [no_para_after_item].
    change ((b :: out) ++ [l]) with (b :: out ++ [l]) at 1.
    cbv iota. change (b :: out ++ [l]) with ((b :: out) ++ [l]).
    rewrite IH. cbn [nonempty last negb orb]. now rewrite andb_assoc.
Qed.

Lemma strip_nil : strip [] = [].
Proof. reflexivity. Qed.

Lemma reread_blank (out : list str) :
  last_nonblank out = true ->
  beautify_line (out, false) [] = (out ++ [[]], false).
Proof.
  intros H.
  destruct (beautify_line_case out false [])
    as [Hb|m Hn E1|m Hn E1 E2|m Hn E1 E2 E3|m Hn E1 E2 E3 E4
       |Hn E1 E2 E3 E4]; try (rewrite strip_nil in Hn; discriminate Hn).
  unfold ensure_blank. now rewrite H.
Qed.

Lemma reread_para (out : list str) (l : str) :
  para_line l ->
  nonempty out && matches list_item_start (last out []) = false ->
  beautify_line (out, false) l = (out ++ [l], false).
Proof.
  intros (Hs & P1 & P2 & P3 & P4) Hprev.
  pose proof (solid_strip _ Hs) as E.
  destruct (beautify_line_case out false l)
    as [Hb|m Hn E1|m Hn E1 E2|m Hn E1 E2 E3|m Hn E1 E2 E3 E4
       |Hn E1 E2 E3 E4]; rewrite E in *; try congruence.
  - rewrite (solid_nonempty _ Hs) in Hb. discriminate.
  - unfold before_para. now rewrite Hprev.
Qed.

Lemma reread_heading (out : list str) (h : str) :
  heading_line h -> last_nonblank out = false ->
  beautify_line (out, false) h = (out ++ [h], false).
Proof.
  intros Hh Hlast. apply reread_para; [now apply heading_as_para|].
  unfold last_nonblank in Hlast.
  destruct (nonempty out); [|reflexivity]. cbn [andb] in *.
  apply negb_false_iff, str_eqb_eq in Hlast. now rewrite Hlast.
Qed.

Lemma reread_item (out : list str) (l : str) :
  item_line l ->
  last_nonblank out = false \/
  matches list_item_start (last out []) = true ->
  beautify_line (out, false) l = (out ++ [l], false).
Proof.
  intros Hl Hprev.
  pose proof (solid_strip _ (item_solid _ Hl)) as E.
  destruct (item_reread l Hl) as (P1 & P2 & P3 & (m & P4 & Hm) & _).
  destruct (beautify_line_case out false l)
    as [Hb|m' Hn E1|m' Hn E1 E2|m' Hn E1 E2 E3|m' Hn E1 E2 E3 E4
       |Hn E1 E2 E3 E4]; rewrite E in *; try congruence.
  - rewrite (solid_nonempty _ (item_solid _ Hl)) in Hb. discriminate.
  - assert (m' = m) by congruence. subst m'. rewrite Hm.
    unfold before_item.
    destruct Hprev as [-> | ->]; [reflexivity|].
    now rewrite andb_false_r.
Qed.

(** A shaped list of lines in which no paragraph follows a list item
    directly is reproduced by the loop. *)
Lemma reread_shaped ls :
  shaped ls -> no_para_after_item ls = true ->
  fold_left beautify_line ls ([], false) = (ls, false).
Proof.
  induction 1 as [|out Hs IH Hlast|out h Hs IH Hlast Hh
                  |out l Hs IH Hprev Hl|out l Hs IH Hl]; intros Hok.
  - reflexivity.
  - rewrite no_para_after_item_snoc in Hok.
    apply andb_true_iff in Hok. destruct Hok as [Hok _].
    rewrite fold_left_app. cbn [fold_left]. rewrite IH by assumption.
    now apply reread_blank.
  - rewrite no_para_after_item_snoc in Hok.
    apply andb_true_iff in Hok. destruct Hok as [Hok _].
    rewrite fold_left_app. cbn [fold_left]. rewrite IH by assumption.
    now apply reread_heading.
  - rewrite no_para_after_item_snoc in Hok.
    apply andb_true_iff in Hok. destruct Hok as [Hok _].
    rewrite fold_left_app. cbn [fold_left]. rewrite IH by assumption.
    now apply reread_item.
  - rewrite no_para_after_item_snoc in Hok.
    apply andb_true_iff in Hok. destruct Hok as [Hok Hadj].
    rewrite fold_left_app. cbn [fold_left]. rewrite IH by assumption.
    apply reread_para; [assumption|].
    rewrite (solid_nonempty _ (para_solid _ Hl)) in Hadj.
    rewrite (para_not_item _ Hl) in Hadj. cbn [negb] in Hadj.
    rewrite !orb_false_r in Hadj.
    destruct (nonempty out); [|reflexivity]. cbn [negb orb andb] in *.
    now apply negb_true_iff in Hadj.
Qed.

Lemma final_lines_fixed ls :
  ls = [] \/ last_nonblank ls = true -> final_lines ls = ls.
Proof. unfold final_lines. now intros [->| ->]. Qed.

(** The lines of the text the renderer returns. *)
Lemma rendered_lines text :
  exists ls,
    beautify_structure text = join [NL] ls /\
    splitlines (beautify_structure text) = ls /\
    shaped ls /\ (ls = [] \/ last_nonblank ls = true).
Proof.
  pose proof (beautify_lines_shaped text) as Hs.
  destruct (final_lines_shaped _ Hs) as [Hf Hlast].
  exists (final_lines (fst (beautify_lines (splitlines text)))).
  rewrite beautify_structure_lines.
  split; [reflexivity|]. split; [|now split].
  destruct Hlast as [-> |E]; [reflexivity|].
  apply splitlines_join.
  - apply blank_or_solid_unbroken. now apply shaped_lines.
  - pose proof (shaped_last_solid _ Hf E) as (Hn & _). exact Hn.
Qed.

(** The renderer alone: a rendered text in which no paragraph follows a
    list item directly is rendered to itself. *)
Lemma beautify_structure_fixed text :
  no_para_after_item (splitlines (beautify_structure text)) = true ->
  beautify_structure (beautify_structure text) = beautify_structure text.
Proof.
  intros Hok. destruct (rendered_lines text) as (ls & E & Hsplit & Hs & Hlast).
  rewrite Hsplit in Hok.
  rewrite (beautify_structure_lines (beautify_structure text)).
  rewrite Hsplit. unfold beautify_lines.
  rewrite (reread_shaped ls Hs Hok). cbn [fst].
  now rewrite final_lines_fixed.
Qed.

(** ** The whole pipeline, applied again *)

Lemma re_sub_no_match r repl s : forall prev,
  re_search r prev s = false -> sub_from r repl 0 prev s = s.
Proof.
  induction s as [|x s IH]; intros prev H.
  - cbn [re_search sub_from] in *.
    now destruct (match_len r prev []).
  - cbn [re_search sub_from] in *.
    destruct (match_len r prev (x :: s)); [discriminate|].
    f_equal. now apply IH.
Qed.

Lemma replace_without c old new s :
  ~ In c s -> replace (c :: old) new s = s.
Proof.
  unfold replace. induction s as [|x s IH]; intros Hc; [reflexivity|].
  cbn [replace_from starts_with].
  destruct (c =? x) eqn:Ec.
  - apply N.eqb_eq in Ec. subst. exfalso. apply Hc. now left.
  - rewrite andb_false_l. f_equal. apply IH. intros Hin. apply Hc. now right.
Qed.

Lemma join_chars x ls :
  In x (join [NL] ls) -> x = NL \/ exists l, In l ls /\ In x l.
Proof.
  induction ls as [|l ls IH]; [intros []|].
  destruct ls as [|l' ls].
  - rewrite join_single. intros H. right. exists l. split; [now left|assumption].
  - rewrite join_cons2. intros H. apply in_app_or in H.
    destruct H as [H|H].
    + right. exists l. split; [now left|assumption].
    + cbn [app] in H. destruct H as [H|H]; [now left|].
      destruct (IH H) as [E|(l0 & H1 & H2)]; [now left|].
      right. exists l0. split; [now right|assumption].
Qed.

Lemma joined_no_CR ls : Forall unbroken ls -> ~ In CR (join [NL] ls).
Proof.
  intros Hls Hin. apply join_chars in Hin.
  destruct Hin as [E|(l & Hl & Hx)]; [discriminate E|].
  rewrite Forall_forall in Hls. specialize (Hls _ Hl).
  unfold unbroken in Hls. rewrite Forall_forall in Hls.
  specialize (Hls _ Hx). discriminate Hls.
Qed.

Lemma map_rstrip_lines ls :
  Forall (fun l => l = [] \/ solid l) ls -> map rstrip ls = ls.
Proof.
  induction 1 as [|l ls Hl _ IH]; [reflexivity|].
  cbn [map]. rewrite IH. f_equal.
  destruct Hl as [->|(_ & [_ Hr] & _)]; [reflexivity|exact Hr].
Qed.

(** The normaliser leaves a rendered text as it is, when the text holds no
    tag and no block-quote marker. *)
Lemma clean_markdown_rendered text :
  re_search html_tag None (beautify_structure text) = false ->
  re_search blockquote None (beautify_structure text) = false ->
  clean_markdown (beautify_structure text) = beautify_structure text.
Proof.
  intros Htag Hquote.
  destruct (rendered_lines text) as (ls & E & Hsplit & Hs & Hlast).
  destruct (shaped_lines _ Hs) as (Hlines & _ & _).
  pose proof (blank_or_solid_unbroken _ Hlines) as Hu.
  unfold clean_markdown, re_sub.
  rewrite (re_sub_no_match _ _ _ _ Htag).
  rewrite (re_sub_no_match _ _ _ _ Hquote).
  assert (Hcr : ~ In CR (beautify_structure text))
    by (rewrite E; now apply joined_no_CR).
  rewrite (replace_without CR [NL] [NL] _ Hcr).
  rewrite (replace_without CR [] [NL] _ Hcr).
  rewrite Hsplit, (map_rstrip_lines _ Hlines), <- E.
  fold (re_sub blank_run [NL; NL] (beautify_structure text)).
  rewrite re_sub_blank_run_id.
  - unfold beautify_structure. apply strip_idempotent.
  - unfold beautify_structure. apply strip_no_blank_run, re_sub_no_blank_run.
Qed.

(** C1, the claim as stated, fails: the normaliser removes one block-quote
    marker per line and per run, and the renderer puts a blank line between
    a list item and the paragraph line behind it only when it reads its own
    output, where the line is no longer indented. *)
Lemma render_not_idempotent :
  render (u ">>採購法") = u ">採購法"
  /\ render (render (u ">>採購法")) = u "採購法"
  /\ str_eqb (render (render (u ">>採購法"))) (render (u ">>採購法")) = false
  /\ render (u "1.甲" ++ [NL] ++ u " 乙") = u "1. 甲" ++ [NL] ++ u "乙"
  /\ render (render (u "1.甲" ++ [NL] ++ u " 乙")) =
     u "1. 甲" ++ [NL; NL] ++ u "乙"
  /\ beautify_structure (beautify_structure (u "1.甲" ++ [NL] ++ u " 乙")) =
     u "1. 甲" ++ [NL; NL] ++ u "乙".
Proof. repeat split; vm_compute; reflexivity. Qed.

(** C1, amended: rendering the first render again changes nothing whenever
    the first render holds no HTML-like tag, no line that starts with [>],
    and no list item line directly followed by a line that is neither blank
    nor a list item. *)
Theorem render_fixed (D : str) :
  re_search html_tag None (render D) = false ->
  re_search blockquote None (render D) = false ->
  no_para_after_item (splitlines (render D)) = true ->
  render (render D) = render D.
Proof.
  unfold render. intros Htag Hquote Hok.
  rewrite clean_markdown_rendered by assumption.
  now apply beautify_structure_fixed.
Qed.

Lemma render_fixed_witness :
  render (render sample_document) = render sample_document.
Proof.
  apply (render_fixed sample_document); vm_compute; reflexivity.
Defined.

(** ** Angle brackets: where [<[^>]+>] can match *)

Lemma angle_run_app q a b :
  angle_run q (a ++ b) = angle_run (angle_run q a) b.
Proof. unfold angle_run. apply fold_left_app. Qed.

Lemma angle_run_cons q x s :
  angle_run q (x :: s) = angle_run (angle_step q x) s.
Proof. reflexivity. Qed.

Lemma angle_run_tagged s : angle_run Tagged s = Tagged.
Proof. induction s as [|x s IH]; [reflexivity|]. exact IH. Qed.

Lemma untagged_prefix q a b :
  untagged (angle_run q (a ++ b)) = true -> untagged (angle_run q a) = true.
Proof.
  rewrite angle_run_app. destruct (angle_run q a); try reflexivity.
  now rewrite angle_run_tagged.
Qed.

Lemma untagged_start q s : untagged (angle_run q s) = true -> untagged q = true.
Proof. intros H. apply (untagged_prefix q [] s). exact H. Qed.

Lemma step_plain q c :
  is_lt c = false -> is_gt c = false -> angle_step q c = settle q.
Proof. intros Hl Hg. destruct q; simpl; now rewrite ?Hl, ?Hg. Qed.

Lemma settle_idem q : settle (settle q) = settle q.
Proof. now destruct q. Qed.

Lemma settle_calm q : calm q = true -> settle q = q.
Proof. now destruct q. Qed.

Lemma calm_settle q : calm (settle q) = true.
Proof. now destruct q. Qed.

Lemma untagged_settle q : untagged (settle q) = untagged q.
Proof. now destruct q. Qed.

Lemma run_plain q s :
  plain_chars s -> angle_run q s = if nonempty s then settle q else q.
Proof.
  intros H. revert q. induction H as [|c s [Hl Hg] _ IH]; intros q.
  - reflexivity.
  - rewrite angle_run_cons, (step_plain _ _ Hl Hg), IH.
    cbn [nonempty]. destruct (nonempty s); [apply settle_idem|reflexivity].
Qed.

Lemma run_plain_calm q s :
  plain_chars s -> calm q = true -> angle_run q s = q.
Proof.
  intros H Hq. rewrite run_plain by assumption.
  destruct (nonempty s); [now apply settle_calm|reflexivity].
Qed.

Lemma run_newline q : angle_run q [NL] = settle q.
Proof. now destruct q. Qed.

Lemma class_without (p : N -> bool) (d c : N) :
  p d = false -> p c = true -> (c =? d) = false.
Proof.
  intros Hd Hc. destruct (c =? d) eqn:E; [|reflexivity].
  apply N.eqb_eq in E. subst. congruence.
Qed.

Lemma space_plain c : isspace c = true -> is_lt c = false /\ is_gt c = false.
Proof.
  intros H. split; apply (class_without isspace); (reflexivity || assumption).
Qed.

Lemma blank_plain s : forallb isspace s = true -> plain_chars s.
Proof.
  intros H. rewrite forallb_forall in H. apply Forall_forall.
  intros c Hc. apply space_plain. auto.
Qed.

Lemma plain_chars_app a b : plain_chars a -> plain_chars b -> plain_chars (a ++ b).
Proof. unfold plain_chars. intros. apply Forall_app. now split. Qed.

Lemma all_in_plain p s :
  (forall c, p c = true -> is_lt c = false /\ is_gt c = false) ->
  all_in p s -> plain_chars s.
Proof. intros H. apply Forall_impl. exact H. Qed.

Lemma num_plain c : ch_num c = true -> is_lt c = false /\ is_gt c = false.
Proof.
  intros H. split; apply (class_without ch_num); (reflexivity || assumption).
Qed.

Lemma decimal_plain c :
  isdecimal c = true -> is_lt c = false /\ is_gt c = false.
Proof.
  intros H. split; apply (class_without isdecimal);
    (reflexivity || assumption).
Qed.

Lemma plain_literal s :
  forallb (fun c => negb (is_lt c) && negb (is_gt c)) s = true ->
  plain_chars s.
Proof.
  intros H. rewrite forallb_forall in H. apply Forall_forall.
  intros c Hc. specialize (H c Hc). apply andb_true_iff in H.
  destruct H as [H1 H2]. now apply negb_true_iff in H1, H2.
Qed.

(** ** Removing tags: [re.sub(r"<[^>]+>", "", text)] *)

Lemma not_gt_is_gt c : not_gt c = negb (is_gt c).
Proof. reflexivity. Qed.

Lemma gt_not_not_gt c : not_gt c = true -> lit ">" c = false.
Proof. unfold not_gt, lit. now intros H; apply negb_true_iff in H. Qed.

(** A tag starts at a [<] that is followed by at least one other character
    and then, somewhere, by a [>]. *)
Lemma match_len_html prev s :
  match_len html_tag prev s =
  match s with
  | x :: s' =>
      if lit "<" x && nonempty (take_while not_gt s')
         && nonempty (drop_while not_gt s')
      then Some (S (S (length (take_while not_gt s'))))
      else None
  | [] => None
  end.
Proof.
  unfold match_len, html_tag. rewrite rmatch_cat.
  destruct s as [|x s']; [reflexivity|].
  rewrite rmatch_cls_cons. destruct (lit "<" x); [|reflexivity].
  cbn [andb]. rewrite rmatch_cat, rmatch_greedy, rep_greedy_reject.
  - destruct (take_while not_gt s') as [|a0 a] eqn:Ea;
      cbn [length Nat.leb nonempty andb]; [reflexivity|].
    destruct (drop_while not_gt s') as [|y r] eqn:D; [reflexivity|].
    pose proof (drop_while_head _ _ _ _ D) as Hy.
    rewrite rmatch_cls_cons. unfold lit. unfold not_gt in Hy.
    apply negb_false_iff in Hy. rewrite Hy. cbn [nonempty].
    f_equal. pose proof (take_drop not_gt s') as E.
    rewrite Ea, D in E. rewrite <- E. cbn [length app].
    rewrite length_app. cbn [length]. lia.
  - intros prev' c s0 c' Hc. rewrite rmatch_cls_cons.
    now rewrite (gt_not_not_gt _ Hc).
Qed.

Lemma sub_from_html_prev repl s : forall skip prev prev',
  sub_from html_tag repl skip prev s = sub_from html_tag repl skip prev' s.
Proof.
  induction s as [|x s IH]; intros skip prev prev'.
  - cbn [sub_from]. now rewrite !match_len_html.
  - cbn [sub_from]. destruct skip; [|apply IH].
    rewrite !match_len_html.
    destruct (_ && _); reflexivity.
Qed.

Lemma skipn_S_drop_while p s :
  skipn (S (length (take_while p s))) s = tl (drop_while p s).
Proof.
  rewrite <- skipn_take_while.
  generalize (length (take_while p s)). intros n. revert s.
  induction n as [|n IH]; intros s.
  - now destruct s.
  - destruct s as [|x s]; [reflexivity|]. exact (IH s).
Qed.

(** One step of the removal. *)
Lemma html_step prev x s :
  sub_from html_tag [] 0 prev (x :: s) =
  if lit "<" x && nonempty (take_while not_gt s)
     && nonempty (drop_while not_gt s)
  then sub_from html_tag [] 0 None (tl (drop_while not_gt s))
  else x :: sub_from html_tag [] 0 None s.
Proof.
  cbn [sub_from]. rewrite match_len_html.
  destruct (lit "<" x && nonempty (take_while not_gt s)
            && nonempty (drop_while not_gt s)) eqn:E.
  - cbn [app].
    destruct (sub_from_skip html_tag [] s
                (S (length (take_while not_gt s))) (Some x)) as [prev' ->].
    + apply andb_true_iff in E. destruct E as [_ E].
      rewrite <- (take_drop not_gt s) at 2. rewrite length_app.
      destruct (drop_while not_gt s); [discriminate|simpl; lia].
    + rewrite skipn_S_drop_while. apply sub_from_html_prev.
  - f_equal. apply sub_from_html_prev.
Qed.

Lemma sub_from_incl r s c : forall skip prev,
  In c (sub_from r [] skip prev s) -> In c s.
Proof.
  induction s as [|x s IH]; intros skip prev.
  - cbn [sub_from]. destruct skip; [|intros []].
    now destruct (match_len r prev []).
  - cbn [sub_from]. destruct skip as [|k].
    + destruct (match_len r prev (x :: s)) as [[|n]|]; cbn [app].
      * intros [->|H]; [now left|right; eauto].
      * intros H. right. eauto.
      * intros [->|H]; [now left|right; eauto].
    + intros H. right. eauto.
Qed.

Lemma exposed_no_gt s :
  untagged (angle_run Exposed s) = true ->
  Forall (fun c => is_gt c = false) s.
Proof.
  induction s as [|x s IH]; [constructor|].
  rewrite angle_run_cons. cbn [angle_step].
  destruct (is_gt x) eqn:E.
  - now rewrite angle_run_tagged.
  - intros H. constructor; auto.
Qed.

Lemma no_gt_untagged q s :
  Forall (fun c => is_gt c = false) s -> untagged q = true ->
  untagged (angle_run q s) = true.
Proof.
  intros H. revert q. induction H as [|x s Hx _ IH]; intros q Hq;
    [assumption|].
  rewrite angle_run_cons. apply IH.
  destruct q; cbn [angle_step]; rewrite ?Hx; try reflexivity;
    try discriminate. now destruct (is_lt x).
Qed.

Lemma no_gt_drop_while s :
  Forall (fun c => is_gt c = false) s -> drop_while not_gt s = [].
Proof.
  intros H. apply drop_while_full. eapply Forall_impl; [|exact H].
  intros c Hc. cbn beta in *. rewrite not_gt_is_gt. now rewrite Hc.
Qed.

Lemma drop_while_nil_no_gt s :
  drop_while not_gt s = [] -> Forall (fun c => is_gt c = false) s.
Proof.
  intros H. rewrite <- (take_drop not_gt s), H, app_nil_r.
  eapply Forall_impl; [|apply take_while_all].
  intros c Hc. cbn beta in *. rewrite not_gt_is_gt in Hc.
  now apply negb_true_iff in Hc.
Qed.

(** After an opening [<], no tag starts when the next character is [>] or
    no [>] follows at all. *)
Lemma opened_no_match s :
  untagged (angle_run Opened s) = true ->
  nonempty (take_while not_gt s) && nonempty (drop_while not_gt s) = false.
Proof.
  destruct s as [|y s]; [reflexivity|].
  rewrite angle_run_cons. cbn [angle_step take_while drop_while].
  rewrite not_gt_is_gt. destruct (is_gt y) eqn:E; cbn [negb]; [reflexivity|].
  intros H. apply exposed_no_gt in H. rewrite (no_gt_drop_while _ H).
  apply andb_false_r.
Qed.

(** A text that the automaton reads without reaching [Tagged] holds no
    tag. *)
Lemma untagged_no_tag s : forall q prev,
  untagged (angle_run q s) = true -> re_search html_tag prev s = false.
Proof.
  induction s as [|x s IH]; intros q prev H.
  - cbn [re_search]. now rewrite match_len_html.
  - cbn [re_search]. rewrite match_len_html.
    rewrite angle_run_cons in H.
    assert (Hno : lit "<" x && nonempty (take_while not_gt s)
                  && nonempty (drop_while not_gt s) = false).
    { destruct (lit "<" x) eqn:Hx; [|reflexivity]. cbn [andb].
      change (lit "<" x) with (is_lt x) in Hx.
      assert (Hgt : is_gt x = false).
      { apply N.eqb_eq in Hx. subst. reflexivity. }
      destruct q; cbn [angle_step] in H; rewrite ?Hx, ?Hgt in H.
      - now apply opened_no_match.
      - apply exposed_no_gt in H. rewrite (no_gt_drop_while _ H).
        apply andb_false_r.
      - apply exposed_no_gt in H. rewrite (no_gt_drop_while _ H).
        apply andb_false_r.
      - now rewrite angle_run_tagged in H. }
    rewrite Hno. eapply IH. exact H.
Qed.

(** The text left by the removal holds no tag. *)
Lemma html_removed_upto n : forall s prev,
  (length s <= n)%nat ->
  untagged (angle_run Quiet (sub_from html_tag [] 0 prev s)) = true.
Proof.
  induction n as [|n IH]; intros s prev Hlen.
  - destruct s; [|simpl in Hlen; lia]. cbn [sub_from].
    now rewrite match_len_html.
  - destruct s as [|x s].
    { cbn [sub_from]. now rewrite match_len_html. }
    simpl in Hlen. rewrite html_step.
    destruct (lit "<" x && nonempty (take_while not_gt s)
              && nonempty (drop_while not_gt s)) eqn:E.
    + apply IH. rewrite <- (take_drop not_gt s) in Hlen.
      rewrite length_app in Hlen.
      destruct (drop_while not_gt s); simpl in *; lia.
    + rewrite angle_run_cons. cbn [angle_step].
      change (is_lt x) with (lit "<" x).
      destruct (lit "<" x) eqn:Hx; [|apply IH; lia].
      cbn [andb] in E.
      destruct s as [|y s'].
      { cbn [sub_from]. now rewrite match_len_html. }
      cbn [take_while drop_while] in E. rewrite not_gt_is_gt in E.
      destruct (is_gt y) eqn:Hy; cbn [negb] in E.
      * rewrite html_step.
        replace (lit "<" y) with false
          by (apply N.eqb_eq in Hy; subst; reflexivity).
        cbn [andb]. rewrite angle_run_cons. cbn [angle_step]. rewrite Hy.
        apply IH. simpl in Hlen. lia.
      * cbn [nonempty andb] in E.
        destruct (drop_while not_gt s') eqn:D; [|discriminate E].
        apply no_gt_untagged; [|reflexivity].
        apply Forall_forall. intros c Hc. apply sub_from_incl in Hc.
        destruct Hc as [<-|Hc]; [assumption|].
        pose proof (drop_while_nil_no_gt _ D) as Hs'.
        rewrite Forall_forall in Hs'. auto.
Qed.

Lemma html_removed s :
  untagged (angle_run Quiet (re_sub html_tag [] s)) = true.
Proof. unfold re_sub. now apply (html_removed_upto (length s)). Qed.

(** ** The normaliser keeps a text free of tags *)

Lemma match_len_blockquote prev s :
  match_len blockquote prev s =
  if at_line_start prev then
    match s with
    | x :: s' =>
        if lit ">" x then
          match s' with
          | w :: _ => if isspace w then Some 2%nat else Some 1%nat
          | [] => Some 1%nat
          end
        else None
    | [] => None
    end
  else None.
Proof.
  unfold match_len, blockquote, at_line_start.
  cbn [rmatch]. destruct prev as [p|].
  - destruct (p =? NL); [|reflexivity].
    destruct s as [|x s']; [reflexivity|].
    destruct (lit ">" x); [|reflexivity].
    destruct s' as [|w s'']; [reflexivity|].
    destruct (isspace w); f_equal; cbn [length]; lia.
  - destruct s as [|x s']; [reflexivity|].
    destruct (lit ">" x); [|reflexivity].
    destruct s' as [|w s'']; [reflexivity|].
    destruct (isspace w); f_equal; cbn [length]; lia.
Qed.

Lemma blockquote_kept_upto n : forall s prev q,
  (length s <= n)%nat ->
  (q = Opened -> prev = Some (chr "<")) ->
  untagged (angle_run q s) = true ->
  untagged (angle_run q (sub_from blockquote [] 0 prev s)) = true.
Proof.
  induction n as [|n IH]; intros s prev q Hlen Hq H.
  - destruct s; [|simpl in Hlen; lia]. cbn [sub_from].
    rewrite match_len_blockquote.
    now destruct (at_line_start prev).
  - destruct s as [|x s'].
    { cbn [sub_from]. rewrite match_len_blockquote.
      now destruct (at_line_start prev). }
    simpl in Hlen. cbn [sub_from]. rewrite match_len_blockquote.
    assert (Hkeep :
      untagged (angle_run q (x :: sub_from blockquote [] 0 (Some x) s'))
      = true).
    { rewrite angle_run_cons. rewrite angle_run_cons in H.
      apply IH; [lia| |assumption].
      intros E. destruct q; cbn [angle_step] in E;
        try (destruct (is_gt x); discriminate E); try discriminate E.
      destruct (is_lt x) eqn:Hx; [|discriminate E].
      apply N.eqb_eq in Hx. now subst. }
    destruct (at_line_start prev) eqn:Hbol; [|exact Hkeep].
    destruct (lit ">" x) eqn:Hx; [|exact Hkeep].
    assert (Hquiet : q = Quiet).
    { change (lit ">" x) with (is_gt x) in Hx.
      rewrite angle_run_cons in H.
      destruct q; cbn [angle_step] in H; rewrite ?Hx in H.
      - reflexivity.
      - specialize (Hq eq_refl). subst prev. discriminate Hbol.
      - now rewrite angle_run_tagged in H.
      - now rewrite angle_run_tagged in H. }
    subst q. rewrite angle_run_cons in H.
    change (lit ">" x) with (is_gt x) in Hx.
    assert (Hlt : is_lt x = false).
    { apply N.eqb_eq in Hx. subst. reflexivity. }
    cbn [angle_step] in H. rewrite Hlt in H.
    destruct s' as [|w s''].
    + cbn [app sub_from]. rewrite match_len_blockquote.
      now destruct (at_line_start (Some x)).
    + destruct (isspace w) eqn:Hw; cbn [app].
      * cbn [sub_from]. apply IH; [simpl in Hlen; lia|discriminate|].
        rewrite angle_run_cons in H.
        destruct (space_plain _ Hw) as [Hwl Hwg].
        rewrite (step_plain _ _ Hwl Hwg) in H. exact H.
      * apply IH; [lia|discriminate|assumption].
Qed.

Lemma blockquote_kept s :
  untagged (angle_run Quiet s) = true ->
  untagged (angle_run Quiet (re_sub blockquote [] s)) = true.
Proof.
  unfold re_sub. apply (blockquote_kept_upto (length s));
    [lia|discriminate].
Qed.

Lemma NL_plain : is_lt NL = false /\ is_gt NL = false.
Proof. now split. Qed.

Lemma step_CR q : angle_step q CR = settle q.
Proof. now destruct q. Qed.

Lemma step_NL q : angle_step q NL = settle q.
Proof. now destruct q. Qed.

Lemma replace_cr_state s : forall q,
  angle_run q (replace [CR] [NL] s) = angle_run q s.
Proof.
  unfold replace. induction s as [|x s IH]; intros q; [reflexivity|].
  cbn [replace_from starts_with length Nat.pred].
  rewrite andb_true_r. destruct (CR =? x) eqn:E.
  - apply N.eqb_eq in E. subst x. cbn [app].
    rewrite !angle_run_cons, step_CR, step_NL. apply IH.
  - rewrite !angle_run_cons. apply IH.
Qed.

Lemma replace_crnl_state n : forall s q,
  (length s <= n)%nat ->
  angle_run q (replace [CR; NL] [NL] s) = angle_run q s.
Proof.
  unfold replace. induction n as [|n IH]; intros s q Hlen.
  - destruct s; [reflexivity|simpl in Hlen; lia].
  - destruct s as [|x s]; [reflexivity|]. simpl in Hlen.
    cbn [replace_from starts_with length Nat.pred].
    destruct (CR =? x) eqn:E; cbn [andb].
    + apply N.eqb_eq in E. subst x.
      destruct s as [|y s'].
      * reflexivity.
      * rewrite andb_true_r. destruct (NL =? y) eqn:E'.
        -- apply N.eqb_eq in E'. subst y. cbn [app replace_from].
           rewrite !angle_run_cons, step_CR, !step_NL, settle_idem.
           apply IH. simpl in Hlen. lia.
        -- do 2 rewrite (angle_run_cons q CR). apply IH. lia.
    + do 2 rewrite (angle_run_cons q x). apply IH. lia.
Qed.

Lemma join_cons_char x l ls :
  join [NL] ((x :: l) :: ls) = x :: join [NL] (l :: ls).
Proof. now destruct ls. Qed.

Lemma join_nil_cons ls :
  join [NL] ([] :: ls) = if nonempty ls then NL :: join [NL] ls else [].
Proof. now destruct ls. Qed.

Lemma linebreak_plain x :
  is_linebreak x = true -> is_lt x = false /\ is_gt x = false.
Proof. intros H. now apply space_plain, linebreak_space. Qed.

(** Splitting into lines and joining them with newlines. *)
Lemma lines_untagged_upto n : forall t q,
  (length t <= n)%nat ->
  untagged (angle_run q t) = true ->
  untagged (angle_run q (join [NL] (splitlines t))) = true.
Proof.
  induction n as [|n IH]; intros t q Hlen H.
  - destruct t; [assumption|simpl in Hlen; lia].
  - destruct t as [|x s]; [assumption|]. simpl in Hlen.
    rewrite splitlines_cons. rewrite angle_run_cons in H.
    destruct (is_linebreak x) eqn:Hx.
    + destruct (linebreak_plain _ Hx) as [Hl Hg].
      rewrite (step_plain _ _ Hl Hg) in H.
      assert (Hq : untagged q = true).
      { apply untagged_start in H. now rewrite untagged_settle in H. }
      destruct s as [|d s'']; [exact Hq|].
      destruct ((x =? CR) && (d =? NL)) eqn:E.
      * apply andb_true_iff in E. destruct E as [_ E].
        apply N.eqb_eq in E. subst d.
        rewrite angle_run_cons, step_NL, settle_idem in H.
        rewrite join_nil_cons.
        destruct (nonempty _); [|exact Hq].
        rewrite angle_run_cons, step_NL. apply IH; [simpl in Hlen; lia|].
        assumption.
      * rewrite join_nil_cons.
        destruct (nonempty _); [|exact Hq].
        rewrite angle_run_cons, step_NL. apply IH; [lia|assumption].
    + pose proof (IH s (angle_step q x) ltac:(lia) H) as IHs.
      destruct (splitlines s) as [|l ls].
      * apply (untagged_prefix q [x] s). exact H.
      * rewrite join_cons_char, angle_run_cons. exact IHs.
Qed.

Lemma rstrip_split s :
  exists post, s = rstrip s ++ post /\ forallb isspace post = true.
Proof.
  induction s as [|x s (post & IH & Hp)]; [now exists []|].
  rewrite rstrip_cons. destruct (nonempty (rstrip s)) eqn:E.
  - exists post. split; [|assumption]. simpl. now rewrite <- IH.
  - apply nonempty_false in E. rewrite E in IH. simpl in IH. subst post.
    destruct (isspace x) eqn:Hx.
    + exists (x :: s). split; [reflexivity|]. simpl. now rewrite Hx.
    + exists s. now split.
Qed.

Lemma lstrip_split s :
  exists pre, s = pre ++ lstrip s /\ forallb isspace pre = true.
Proof.
  induction s as [|x s (pre & IH & Hp)]; [now exists []|].
  simpl. destruct (isspace x) eqn:Hx.
  - exists (x :: pre). split; [simpl; now rewrite <- IH|].
    simpl. now rewrite Hx.
  - now exists [].
Qed.

(** A line and its stripped form leave the same state behind the newline
    that ends them. *)
Lemma rstrip_line_state q s :
  angle_run q (rstrip s ++ [NL]) = angle_run q (s ++ [NL]).
Proof.
  destruct (rstrip_split s) as (post & E & Hp). rewrite E at 2.
  rewrite <- app_assoc, !angle_run_app, !run_newline.
  rewrite (run_plain _ post) by now apply blank_plain.
  destruct (nonempty post); [now rewrite settle_idem|reflexivity].
Qed.

Lemma lstrip_line_state q s :
  calm q = true -> angle_run q (lstrip s) = angle_run q s.
Proof.
  intros Hq. destruct (lstrip_split s) as (pre & E & Hp). rewrite E at 2.
  rewrite angle_run_app. f_equal. symmetry.
  apply run_plain_calm; [now apply blank_plain|assumption].
Qed.

Lemma rstrip_lines_untagged ls : forall q,
  untagged (angle_run q (join [NL] ls)) = true ->
  untagged (angle_run q (join [NL] (map rstrip ls))) = true.
Proof.
  induction ls as [|l ls IH]; intros q H; [assumption|].
  destruct ls as [|l' ls].
  - cbn [map]. rewrite join_single in *.
    destruct (rstrip_split l) as (post & E & _). rewrite E in H.
    eapply untagged_prefix. exact H.
  - change (map rstrip (l :: l' :: ls))
      with (rstrip l :: map rstrip (l' :: ls)).
    cbn [map]. rewrite join_cons2 in *. rewrite !app_assoc in *.
    rewrite angle_run_app in *. rewrite rstrip_line_state.
    change (rstrip l' :: map rstrip ls) with (map rstrip (l' :: ls)).
    now apply IH.
Qed.

Lemma collapse_state n : forall s q prev,
  (length s <= n)%nat ->
  angle_run q (sub_from blank_run [NL; NL] 0 prev s) = angle_run q s.
Proof.
  induction n as [|n IH]; intros s q prev Hlen.
  - destruct s; [|simpl in Hlen; lia]. cbn [sub_from].
    now rewrite match_len_blank_run.
  - destruct s as [|x s].
    { cbn [sub_from]. now rewrite match_len_blank_run. }
    simpl in Hlen. rewrite collapse_step.
    destruct (3 <=? nl_run (x :: s))%nat eqn:E.
    + rewrite nl_run_cons in E. destruct (is_nl x) eqn:Hx; [|discriminate].
      apply N.eqb_eq in Hx. subst x. cbn [app].
      rewrite !angle_run_cons, !step_NL, settle_idem.
      rewrite IH.
      2: { rewrite <- (take_drop is_nl s) in Hlen.
           rewrite length_app in Hlen. lia. }
      rewrite <- (take_drop is_nl s) at 2. rewrite angle_run_app.
      f_equal. symmetry. apply run_plain_calm; [|apply calm_settle].
      eapply Forall_impl; [|apply take_while_all].
      intros c Hc. cbn beta in Hc. apply N.eqb_eq in Hc. subst.
      apply NL_plain.
    + rewrite !angle_run_cons. apply IH. lia.
Qed.

Lemma strip_untagged s :
  untagged (angle_run Quiet s) = true ->
  untagged (angle_run Quiet (strip s)) = true.
Proof.
  intros H. unfold strip.
  rewrite <- (lstrip_line_state Quiet s eq_refl) in H.
  destruct (rstrip_split (lstrip s)) as (post & E & _). rewrite E in H.
  eapply untagged_prefix. exact H.
Qed.

Lemma clean_markdown_untagged text :
  untagged (angle_run Quiet (clean_markdown text)) = true.
Proof.
  unfold clean_markdown. apply strip_untagged.
  unfold re_sub at 1. rewrite (collapse_state _ _ _ _ (Nat.le_refl _)).
  apply rstrip_lines_untagged.
  apply (lines_untagged_upto _ _ _ (Nat.le_refl _)).
  rewrite replace_cr_state.
  rewrite (replace_crnl_state _ _ _ (Nat.le_refl _)).
  apply blockquote_kept, html_removed.
Qed.

(** The converse of [untagged_no_tag]: a text in which the pattern finds
    nothing is read without reaching [Tagged]. *)
Lemma no_tag_untagged_upto n : forall s prev,
  (length s <= n)%nat ->
  re_search html_tag prev s = false ->
  untagged (angle_run Quiet s) = true.
Proof.
  induction n as [|n IH]; intros s prev Hlen H.
  - destruct s; [reflexivity|simpl in Hlen; lia].
  - destruct s as [|x s']; [reflexivity|]. simpl in Hlen.
    cbn [re_search] in H. rewrite match_len_html in H.
    rewrite angle_run_cons. cbn [angle_step].
    change (lit "<" x) with (is_lt x) in H.
    destruct (is_lt x) eqn:Hx.
    + rewrite andb_true_l in H.
      destruct (nonempty (take_while not_gt s')
                && nonempty (drop_while not_gt s')) eqn:C;
        [discriminate|].
      destruct s' as [|y s'']; [reflexivity|].
      rewrite angle_run_cons. cbn [angle_step].
      destruct (is_gt y) eqn:Hy.
      * cbn [re_search] in H.
        destruct (match_len html_tag (Some x) (y :: s'')); [discriminate|].
        apply (IH s'' (Some y)); [simpl in Hlen; lia|assumption].
      * cbn [take_while drop_while] in C.
        rewrite (not_gt_is_gt y) in C. rewrite Hy in C.
        cbn [negb nonempty andb] in C.
        apply nonempty_false in C.
        apply drop_while_nil_no_gt in C.
        now apply no_gt_untagged.
    + rewrite andb_false_l in H. apply (IH s' (Some x)); [lia|assumption].
Qed.

Lemma no_tag_untagged s :
  re_search html_tag None s = false -> untagged (angle_run Quiet s) = true.
Proof. apply (no_tag_untagged_upto (length s)). lia. Qed.

(** ** The loop of [beautify_structure] keeps the angle brackets in place *)

Lemma feed_app q a b :
  angle_feed q (a ++ b) = angle_feed (angle_feed q a) b.
Proof. unfold angle_feed. apply fold_left_app. Qed.

Lemma feed_cons q l ls :
  angle_feed q (l :: ls) = angle_feed (angle_run q (l ++ [NL])) ls.
Proof. reflexivity. Qed.

Lemma line_end_state q l : angle_run q (l ++ [NL]) = settle (angle_run q l).
Proof. now rewrite angle_run_app, run_newline. Qed.

Lemma line_end_calm q l : calm (angle_run q (l ++ [NL])) = true.
Proof. rewrite line_end_state. apply calm_settle. Qed.

Lemma feed_calm ls : forall q, calm q = true -> calm (angle_feed q ls) = true.
Proof.
  induction ls as [|l ls IH]; intros q Hq; [assumption|].
  rewrite feed_cons. apply IH, line_end_calm.
Qed.

Lemma feed_blank q : calm q = true -> angle_feed q [[]] = q.
Proof. intros Hq. now destruct q. Qed.

Lemma feed_join ls : forall q,
  nonempty ls = true ->
  angle_feed q ls = settle (angle_run q (join [NL] ls)).
Proof.
  induction ls as [|l ls IH]; intros q Hne; [discriminate|].
  destruct ls as [|l' ls].
  - rewrite join_single. cbn [angle_feed fold_left]. apply line_end_state.
  - rewrite feed_cons, (IH _ eq_refl), join_cons2.
    now rewrite (app_assoc l), !angle_run_app.
Qed.

(** A line, a stripped line and a line with other plain characters in front
    of it leave the same state behind their newline. *)
Lemma strip_line_state q s :
  calm q = true -> angle_run q (strip s ++ [NL]) = angle_run q (s ++ [NL]).
Proof.
  intros Hq. unfold strip. rewrite rstrip_line_state.
  now rewrite !angle_run_app, lstrip_line_state.
Qed.

Lemma rendered_state q pre P r :
  calm q = true -> plain_chars pre -> plain_chars P ->
  angle_run q ((P ++ strip r) ++ [NL]) = angle_run q ((pre ++ r) ++ [NL]).
Proof.
  intros Hq Hpre HP. rewrite <- !app_assoc, !(angle_run_app q).
  rewrite (run_plain_calm q pre), (run_plain_calm q P) by assumption.
  now apply strip_line_state.
Qed.

Lemma class_plain (p : N -> bool) c :
  p (chr "<") = false -> p (chr ">") = false -> p c = true ->
  is_lt c = false /\ is_gt c = false.
Proof. intros Hl Hg Hc. split; now apply (class_without p). Qed.

Lemma strip_lstrip r : strip (lstrip r) = strip r.
Proof. unfold strip. now rewrite (lstrip_ltrimmed r). Qed.

Lemma title_text r n :
  strip (opt_str (group 2 (title_caps r [(1%nat, n)]))) = strip r.
Proof.
  unfold title_caps. destruct (nonempty r) eqn:E.
  - cbn [group Nat.eqb opt_str]. apply strip_lstrip.
  - apply nonempty_false in E. now subst.
Qed.

Lemma part_heading_state q line m :
  calm q = true -> tidy_line line -> re_match p_part line = Some m ->
  angle_run q (part_heading m ++ [NL]) = angle_run q (line ++ [NL]).
Proof.
  intros Hq Hline. rewrite p_part_spec by assumption. unfold part_spec.
  destruct line as [|x s]; [discriminate|].
  destruct (lit "第" x) eqn:Hx; [|discriminate].
  destruct (drop_while ch_num s) as [|y r] eqn:D; [discriminate|].
  destruct (nonempty (take_while ch_num s) && lit "編" y) eqn:C;
    [|discriminate].
  intros [= <-]. apply andb_true_iff in C. destruct C as [_ Hy].
  unfold part_heading. rewrite rstrip_line_state.
  rewrite group1_title_caps, title_text. cbn [opt_str].
  rewrite <- (take_drop ch_num s) at 2. rewrite D.
  transitivity
    (angle_run q (((x :: take_while ch_num s ++ [y]) ++ r) ++ [NL])).
  - rewrite !app_assoc.
    apply (rendered_state q (x :: take_while ch_num s ++ [y])); [assumption| |].
    + constructor; [now apply (class_plain (lit "第"))|].
      apply plain_chars_app.
      * apply (all_in_plain ch_num); [apply num_plain|apply take_while_all].
      * constructor; [now apply (class_plain (lit "編"))|constructor].
    + apply plain_chars_app; [|now apply plain_literal].
      apply plain_chars_app; [now apply plain_literal|].
      apply (all_in_plain ch_num); [apply num_plain|apply take_while_all].
  - f_equal. cbn [app]. now rewrite <- !app_assoc.
Qed.

Lemma article_heading_state q line m :
  calm q = true -> tidy_line line -> re_match p_article line = Some m ->
  angle_run q (article_heading m ++ [NL]) = angle_run q (line ++ [NL]).
Proof.
  intros Hq Hline. rewrite p_article_spec by assumption. unfold article_spec.
  destruct (drop_while ch_num line) as [|y r] eqn:D; [discriminate|].
  destruct (nonempty (take_while ch_num line) && lit "、" y && nonempty r)
    eqn:C; [|discriminate].
  intros [= <-]. apply andb_true_iff in C. destruct C as [C _].
  apply andb_true_iff in C. destruct C as [_ Hy].
  unfold article_heading. cbn [group Nat.eqb opt_str]. rewrite strip_lstrip.
  rewrite <- (take_drop ch_num line) at 2. rewrite D.
  transitivity
    (angle_run q (((take_while ch_num line ++ [y]) ++ r) ++ [NL])).
  - rewrite !app_assoc.
    apply (rendered_state q (take_while ch_num line ++ [y])); [assumption| |].
    + apply plain_chars_app.
      * apply (all_in_plain ch_num); [apply num_plain|apply take_while_all].
      * constructor; [now apply (class_plain (lit "、"))|constructor].
    + apply plain_chars_app; [|now apply plain_literal].
      apply plain_chars_app; [now apply plain_literal|].
      apply (all_in_plain ch_num); [apply num_plain|apply take_while_all].
  - f_equal. now rewrite <- !app_assoc.
Qed.

Lemma sub_heading_state q line m :
  calm q = true -> tidy_line line -> re_match p_sub line = Some m ->
  angle_run q (sub_heading_line m ++ [NL]) = angle_run q (line ++ [NL]).
Proof.
  intros Hq Hline. rewrite p_sub_spec by assumption. unfold sub_spec.
  destruct line as [|x s]; [discriminate|].
  destruct (in_set (u "(（") x) eqn:Hx; [|discriminate].
  destruct (drop_while ch_num s) as [|y r] eqn:D; [discriminate|].
  destruct (nonempty (take_while ch_num s) && in_set (u ")）") y) eqn:C;
    [|discriminate].
  intros [= <-]. apply andb_true_iff in C. destruct C as [_ Hy].
  unfold sub_heading_line. rewrite rstrip_line_state.
  rewrite group1_title_caps, title_text. cbn [opt_str].
  rewrite <- (take_drop ch_num s) at 2. rewrite D.
  transitivity
    (angle_run q (((x :: take_while ch_num s ++ [y]) ++ r) ++ [NL])).
  - rewrite !app_assoc.
    apply (rendered_state q (x :: take_while ch_num s ++ [y])); [assumption| |].
    + constructor; [now apply (class_plain (in_set (u "(（")))|].
      apply plain_chars_app.
      * apply (all_in_plain ch_num); [apply num_plain|apply take_while_all].
      * constructor; [now apply (class_plain (in_set (u ")）")))|constructor].
    + apply plain_chars_app; [|now apply plain_literal].
      apply plain_chars_app; [now apply plain_literal|].
      apply (all_in_plain ch_num); [apply num_plain|apply take_while_all].
  - f_equal. cbn [app]. now rewrite <- !app_assoc.
Qed.

Lemma item_text_state q line m :
  calm q = true -> tidy_line line -> re_match p_num_item line = Some m ->
  angle_run q (item_text m ++ [NL]) = angle_run q (line ++ [NL]).
Proof.
  intros Hq Hline. rewrite p_num_item_spec by assumption.
  unfold num_item_spec.
  destruct (drop_while isdecimal line) as [|y r] eqn:D; [discriminate|].
  destruct (nonempty (take_while isdecimal line) && lit "." y && nonempty r)
    eqn:C; [|discriminate].
  intros [= <-]. apply andb_true_iff in C. destruct C as [C _].
  apply andb_true_iff in C. destruct C as [_ Hy].
  unfold item_text. cbn [group Nat.eqb opt_str]. rewrite strip_lstrip.
  rewrite <- (take_drop isdecimal line) at 2. rewrite D.
  transitivity
    (angle_run q (((take_while isdecimal line ++ [y]) ++ r) ++ [NL])).
  - rewrite !app_assoc.
    apply (rendered_state q (take_while isdecimal line ++ [y]));
      [assumption| |].
    + apply plain_chars_app.
      * apply (all_in_plain isdecimal);
          [apply decimal_plain|apply take_while_all].
      * constructor; [now apply (class_plain (lit "."))|constructor].
    + apply plain_chars_app; [|now apply plain_literal].
      apply (all_in_plain isdecimal);
        [apply decimal_plain|apply take_while_all].
  - f_equal. now rewrite <- !app_assoc.
Qed.

Lemma feed_with_blank q out (b : bool) :
  calm q = true ->
  angle_feed q (if b then out ++ [[]] else out) = angle_feed q out.
Proof.
  intros Hq. destruct b; [|reflexivity].
  rewrite feed_app. now apply feed_blank, feed_calm.
Qed.

Lemma feed_line q out l :
  angle_feed q (out ++ [l]) = angle_run (angle_feed q out) (l ++ [NL]).
Proof. now rewrite feed_app. Qed.

Lemma feed_heading q out h :
  angle_feed q (out ++ [h; []]) = angle_run (angle_feed q out) (h ++ [NL]).
Proof.
  rewrite feed_app. cbn [angle_feed fold_left].
  change ([] ++ [NL]) with [NL]. rewrite run_newline.
  apply settle_calm, line_end_calm.
Qed.

(** One iteration of the loop appends lines that move the state as the raw
    line does. *)
Lemma beautify_line_state (out : list str) flag (raw : str) :
  unbroken raw ->
  angle_feed Quiet (fst (beautify_line (out, flag) raw)) =
  angle_run (angle_feed Quiet out) (raw ++ [NL]).
Proof.
  intros Hraw. destruct (strip_tidy _ Hraw) as [Ht _].
  assert (Hq : calm (angle_feed Quiet out) = true) by now apply feed_calm.
  rewrite <- (strip_line_state _ raw Hq).
  destruct (beautify_line_case out flag raw)
    as [Hb|m _ E1|m _ E1 E2|m _ E1 E2 E3|m _ E1 E2 E3 E4|_ E1 E2 E3 E4];
    cbn [fst].
  - apply nonempty_false in Hb. rewrite Hb. cbn [app].
    rewrite run_newline, (settle_calm _ Hq).
    now apply feed_with_blank.
  - rewrite feed_heading. unfold ensure_blank.
    rewrite feed_with_blank by reflexivity.
    now apply part_heading_state.
  - rewrite feed_heading. unfold ensure_blank.
    rewrite feed_with_blank by reflexivity.
    now apply article_heading_state.
  - rewrite feed_heading. unfold ensure_blank.
    rewrite feed_with_blank by reflexivity.
    now apply sub_heading_state.
  - rewrite feed_line. unfold before_item.
    rewrite feed_with_blank by reflexivity.
    now apply item_text_state.
  - rewrite feed_line. unfold before_para.
    now rewrite feed_with_blank by reflexivity.
Qed.

Lemma beautify_fold_state lines : forall (out : list str) flag,
  Forall unbroken lines ->
  angle_feed Quiet (fst (fold_left beautify_line lines (out, flag))) =
  angle_feed (angle_feed Quiet out) lines.
Proof.
  induction lines as [|raw lines IH]; intros out flag H; [reflexivity|].
  inversion H as [|? ? Hraw Hrest]; subst.
  cbn [fold_left]. rewrite feed_cons.
  rewrite <- (beautify_line_state out flag raw Hraw).
  destruct (beautify_line (out, flag) raw) as [out' flag'].
  now apply IH.
Qed.

Lemma untagged_feed_join q ls :
  untagged (angle_feed q ls) = true ->
  untagged (angle_run q (join [NL] ls)) = true.
Proof.
  destruct ls as [|l ls]; [trivial|].
  rewrite (feed_join (l :: ls) q eq_refl). now rewrite untagged_settle.
Qed.

Lemma untagged_join_feed q ls :
  untagged (angle_run q (join [NL] ls)) = true ->
  untagged (angle_feed q ls) = true.
Proof.
  destruct ls as [|l ls]; [trivial|].
  rewrite (feed_join (l :: ls) q eq_refl). now rewrite untagged_settle.
Qed.

Lemma beautify_structure_untagged text :
  untagged (angle_run Quiet text) = true ->
  untagged (angle_run Quiet (beautify_structure text)) = true.
Proof.
  intros H. unfold beautify_structure. apply strip_untagged.
  unfold re_sub. rewrite (collapse_state _ _ _ _ (Nat.le_refl _)).
  apply untagged_feed_join. unfold beautify_lines.
  rewrite beautify_fold_state by apply splitlines_unbroken.
  apply untagged_join_feed.
  now apply (lines_untagged_upto _ _ _ (Nat.le_refl _)).
Qed.

(** ** Line by line: what the loop of [beautify_structure] keeps *)

Lemma kept_with_blank (out : list str) (b : bool) :
  filter nonempty (if b then out ++ [[]] else out) = filter nonempty out.
Proof.
  destruct b; [|reflexivity]. rewrite filter_app. cbn [filter nonempty].
  apply app_nil_r.
Qed.

Lemma kept_line (out : list str) (l : str) :
  nonempty l = true ->
  filter nonempty (out ++ [l]) = filter nonempty out ++ [l].
Proof. intros H. rewrite filter_app. cbn [filter]. now rewrite H. Qed.

Lemma kept_heading (out : list str) (h : str) :
  nonempty h = true ->
  filter nonempty (out ++ [h; []]) = filter nonempty out ++ [h].
Proof.
  intros H. rewrite filter_app. cbn [filter]. rewrite H.
  reflexivity.
Qed.

Lemma beautify_line_kept (out : list str) flag (raw : str) :
  unbroken raw ->
  filter nonempty (fst (beautify_line (out, flag) raw)) =
  filter nonempty out ++
  (if nonempty (strip raw) then [format_line (strip raw)] else []).
Proof.
  intros Hraw. destruct (strip_tidy _ Hraw) as [Ht Hu].
  unfold format_line.
  destruct (beautify_line_case out flag raw)
    as [Hb|m Hne E1|m Hne E1 E2|m Hne E1 E2 E3|m Hne E1 E2 E3 E4
        |Hne E1 E2 E3 E4];
    cbn [fst]; rewrite ?Hne, ?Hb, ?E1, ?E2, ?E3, ?E4.
  - unfold ensure_blank. rewrite kept_with_blank. now rewrite app_nil_r.
  - rewrite kept_heading.
    + unfold ensure_blank. now rewrite kept_with_blank.
    + apply solid_nonempty, heading_solid.
      now apply (part_heading_line (strip raw)).
  - rewrite kept_heading.
    + unfold ensure_blank. now rewrite kept_with_blank.
    + apply solid_nonempty, heading_solid.
      now apply (article_heading_line (strip raw)).
  - rewrite kept_heading.
    + unfold ensure_blank. now rewrite kept_with_blank.
    + apply solid_nonempty, heading_solid.
      now apply (sub_heading_is_line (strip raw)).
  - rewrite kept_line.
    + unfold before_item. now rewrite kept_with_blank.
    + apply solid_nonempty, item_solid.
      now apply (item_text_line (strip raw)).
  - rewrite kept_line by assumption.
    unfold before_para. now rewrite kept_with_blank.
Qed.

Lemma beautify_fold_kept lines : forall (out : list str) flag,
  Forall unbroken lines ->
  filter nonempty (fst (fold_left beautify_line lines (out, flag))) =
  filter nonempty out ++ map format_line (filter nonempty (map strip lines)).
Proof.
  induction lines as [|raw lines IH]; intros out flag H.
  - cbn. now rewrite app_nil_r.
  - inversion H as [|? ? Hraw Hrest]; subst. cbn [fold_left map filter].
    pose proof (beautify_line_kept out flag raw Hraw) as Hk.
    destruct (beautify_line (out, flag) raw) as [out' flag'].
    cbn [fst] in Hk. rewrite (IH out' flag' Hrest), Hk.
    destruct (nonempty (strip raw)).
    + cbn [map]. now rewrite <- app_assoc.
    + now rewrite app_nil_r.
Qed.

Lemma final_lines_kept (out : list str) :
  filter nonempty (final_lines out) = filter nonempty out.
Proof.
  unfold final_lines, last_nonblank.
  destruct out as [|l ls] using rev_ind; [reflexivity|].
  clear IHls. rewrite last_last.
  replace (nonempty (ls ++ [l])) with true by now destruct ls.
  cbn [andb]. destruct (str_eqb l []) eqn:E; cbn [negb]; [|reflexivity].
  rewrite removelast_last. apply str_eqb_eq in E. subst l.
  rewrite filter_app. cbn [filter nonempty]. now rewrite app_nil_r.
Qed.

Lemma beautify_structure_splitlines text :
  splitlines (beautify_structure text) =
  final_lines (fst (beautify_lines (splitlines text))).
Proof.
  pose proof (beautify_lines_shaped text) as Hs.
  destruct (final_lines_shaped _ Hs) as [Hf Hlast].
  rewrite beautify_structure_lines.
  destruct Hlast as [-> |E]; [reflexivity|].
  apply splitlines_join.
  - apply blank_or_solid_unbroken. now apply shaped_lines.
  - pose proof (shaped_last_solid _ Hf E) as (Hn & _). exact Hn.
Qed.

Lemma beautify_structure_kept text :
  filter nonempty (splitlines (beautify_structure text)) =
  map format_line (text_lines text).
Proof.
  rewrite beautify_structure_splitlines, final_lines_kept.
  unfold beautify_lines, text_lines.
  now rewrite beautify_fold_kept by apply splitlines_unbroken.
Qed.

(** ** Blank texts *)

Lemma strip_nonempty l : nonempty (strip l) = negb (forallb isspace l).
Proof.
  induction l as [|x l IH]; [reflexivity|].
  cbn [forallb]. destruct (isspace x) eqn:Hx.
  - unfold strip in *. cbn [lstrip]. now rewrite Hx.
  - unfold strip. cbn [lstrip]. rewrite Hx, rstrip_cons, Hx.
    now destruct (nonempty (rstrip l)).
Qed.

Lemma lines_blank_upto n : forall s,
  (length s <= n)%nat ->
  forallb is_blank (splitlines s) = forallb isspace s.
Proof.
  induction n as [|n IH]; intros s Hlen.
  - destruct s; [reflexivity|simpl in Hlen; lia].
  - destruct s as [|x s]; [reflexivity|]. simpl in Hlen.
    rewrite splitlines_cons. cbn [forallb].
    destruct (is_linebreak x) eqn:Hx.
    + rewrite (linebreak_space _ Hx). cbn [andb].
      destruct s as [|d s'']; [reflexivity|].
      destruct ((x =? CR) && (d =? NL)) eqn:E; cbn [forallb is_blank andb].
      * apply andb_true_iff in E. destruct E as [_ E].
        apply N.eqb_eq in E. subst d.
        rewrite (IH s'') by (simpl in Hlen; lia). reflexivity.
      * now rewrite (IH (d :: s'')) by lia.
    + pose proof (IH s ltac:(lia)) as H.
      destruct (splitlines s) as [|l ls].
      * cbn [forallb is_blank] in *. now rewrite <- H, !andb_true_r.
      * cbn [forallb is_blank] in *. now rewrite <- H, andb_assoc.
Qed.

Lemma text_lines_blank text :
  nonempty (text_lines text) = negb (forallb isspace text).
Proof.
  rewrite <- (lines_blank_upto _ text (Nat.le_refl _)).
  unfold text_lines. induction (splitlines text) as [|l ls IH];
    [reflexivity|].
  cbn [map filter forallb]. rewrite strip_nonempty.
  unfold is_blank at 1. destruct (forallb isspace l); cbn [negb andb].
  - exact IH.
  - reflexivity.
Qed.

Lemma last_in {A} (l : list A) d : l <> [] -> In (last l d) l.
Proof.
  induction l as [|x l IH]; [congruence|]. intros _.
  destruct l as [|y l]; [now left|].
  right. apply IH. discriminate.
Qed.

Lemma beautify_structure_blank text :
  nonempty (beautify_structure text) = negb (forallb isspace text).
Proof.
  rewrite <- text_lines_blank.
  pose proof (beautify_structure_kept text) as Hk.
  destruct (rendered_lines text) as (ls & E & Hsplit & Hs & Hlast).
  rewrite Hsplit in Hk. rewrite E.
  destruct Hlast as [-> |Hl].
  - cbn in Hk. now destruct (text_lines text).
  - pose proof (shaped_last_solid _ Hs Hl) as Hsolid.
    assert (Hin : In (last ls []) (filter nonempty ls)).
    { apply filter_In. split; [|now apply solid_nonempty].
      destruct ls as [|a ls]; [discriminate|].
      apply last_in. discriminate. }
    rewrite Hk in Hin.
    destruct (text_lines text) as [|t ts]; [contradiction|].
    destruct ls as [|a ls]; [discriminate|].
    destruct ls as [|b ls].
    + rewrite join_single. cbn [last] in Hsolid.
      now rewrite (solid_nonempty _ Hsolid).
    + rewrite join_cons2. destruct a; reflexivity.
Qed.

(** ** The lines of a normalised text *)

Lemma line_ends_clean_tail x s :
  line_ends_clean (x :: s) = true -> line_ends_clean s = true.
Proof. cbn [line_ends_clean]. intros H. now apply andb_true_iff in H. Qed.

Lemma line_ends_clean_suffix pre s :
  line_ends_clean (pre ++ s) = true -> line_ends_clean s = true.
Proof.
  induction pre as [|x pre IH]; [trivial|]. intros H.
  apply IH. eapply line_ends_clean_tail. exact H.
Qed.

Lemma unbroken_head x s : unbroken (x :: s) -> is_nl x = false.
Proof.
  intros H. inversion H as [|? ? Hx _]; subst. unfold is_nl.
  destruct (x =? NL) eqn:E; [|reflexivity].
  apply N.eqb_eq in E. subst. discriminate Hx.
Qed.

Lemma rtrimmed_head_space x s :
  rtrimmed (x :: s) -> isspace x = true -> s <> [].
Proof.
  intros H Hx ->. unfold rtrimmed in H. cbn [rstrip] in H. rewrite Hx in H.
  discriminate H.
Qed.

(** A line without white space at its end, followed by a newline and a text
    with clean line ends. *)
Lemma line_ends_clean_line l : forall rest,
  rtrimmed l -> unbroken l -> line_ends_clean rest = true ->
  line_ends_clean (l ++ NL :: rest) = true.
Proof.
  induction l as [|x l IH]; intros rest Hr Hu Hrest.
  - cbn [app line_ends_clean]. rewrite Hrest.
    now rewrite orb_true_r.
  - cbn [app line_ends_clean].
    rewrite IH; [|now apply (rtrimmed_tail x)|now inversion Hu|assumption].
    rewrite andb_true_r. destruct (isspace x) eqn:Hx; [|reflexivity].
    cbn [negb orb]. destruct l as [|y l].
    + now destruct (rtrimmed_head_space _ _ Hr Hx).
    + cbn [app]. inversion Hu as [|? ? _ Hu']; subst.
      rewrite (unbroken_head _ _ Hu'). now rewrite orb_true_r.
Qed.

Lemma line_ends_clean_last l :
  rtrimmed l -> unbroken l -> line_ends_clean l = true.
Proof.
  induction l as [|x l IH]; intros Hr Hu; [reflexivity|].
  cbn [line_ends_clean].
  rewrite IH; [|now apply (rtrimmed_tail x)|now inversion Hu].
  rewrite andb_true_r. destruct (isspace x) eqn:Hx; [|reflexivity].
  cbn [negb orb]. destruct l as [|y l].
  - now destruct (rtrimmed_head_space _ _ Hr Hx).
  - inversion Hu as [|? ? _ Hu']; subst.
    rewrite (unbroken_head _ _ Hu'). now rewrite orb_true_r.
Qed.

Lemma line_ends_clean_join ls :
  Forall rtrimmed ls -> Forall unbroken ls ->
  line_ends_clean (join [NL] ls) = true.
Proof.
  induction ls as [|l ls IH]; intros Hr Hu; [reflexivity|].
  inversion Hr as [|? ? Hrl Hrs]; subst.
  inversion Hu as [|? ? Hul Hus]; subst.
  destruct ls as [|l' ls].
  - rewrite join_single. now apply line_ends_clean_last.
  - rewrite join_cons2. apply line_ends_clean_line; auto.
Qed.

Lemma collapse_head s prev :
  hd_error (sub_from blank_run [NL; NL] 0 prev s) = hd_error s.
Proof.
  destruct s as [|x s].
  - cbn [sub_from]. now rewrite match_len_blank_run.
  - rewrite collapse_step. destruct (3 <=? nl_run (x :: s))%nat eqn:E;
      [|reflexivity].
    rewrite nl_run_cons in E. destruct (is_nl x) eqn:Hx; [|discriminate].
    apply N.eqb_eq in Hx. now subst.
Qed.

Lemma line_ends_clean_collapse n : forall s prev,
  (length s <= n)%nat ->
  line_ends_clean s = true ->
  line_ends_clean (sub_from blank_run [NL; NL] 0 prev s) = true.
Proof.
  induction n as [|n IH]; intros s prev Hlen H.
  - destruct s; [|simpl in Hlen; lia]. cbn [sub_from].
    now rewrite match_len_blank_run.
  - destruct s as [|x s].
    { cbn [sub_from]. now rewrite match_len_blank_run. }
    simpl in Hlen. rewrite collapse_step.
    destruct (3 <=? nl_run (x :: s))%nat eqn:E.
    + cbn [app line_ends_clean]. change (is_nl NL) with true.
      rewrite !orb_true_r. cbn [orb andb]. apply IH.
      * rewrite <- (take_drop is_nl s) in Hlen.
        rewrite length_app in Hlen. lia.
      * apply (line_ends_clean_suffix (x :: take_while is_nl s)).
        cbn [app]. now rewrite take_drop.
    + cbn [line_ends_clean] in *. apply andb_true_iff in H.
      destruct H as [Hx Hs]. rewrite (IH s None) by (lia || assumption).
      rewrite andb_true_r.
      pose proof (collapse_head s None) as Hh.
      destruct (sub_from blank_run [NL; NL] 0 None s) as [|y t];
        destruct s as [|y' s']; try discriminate Hh; [assumption|].
      injection Hh as ->. exact Hx.
Qed.

Lemma line_ends_clean_prefix a : forall post,
  rtrimmed a -> line_ends_clean (a ++ post) = true ->
  line_ends_clean a = true.
Proof.
  induction a as [|x a IH]; intros post Hr H; [reflexivity|].
  cbn [app line_ends_clean] in *. apply andb_true_iff in H.
  destruct H as [Hx Hs].
  rewrite (IH post); [|now apply (rtrimmed_tail x)|assumption].
  rewrite andb_true_r. destruct a as [|y a]; [|exact Hx].
  destruct (isspace x) eqn:Hsp; [|reflexivity].
  unfold rtrimmed in Hr. cbn [rstrip] in Hr. rewrite Hsp in Hr.
  discriminate Hr.
Qed.

Lemma line_ends_clean_strip s :
  line_ends_clean s = true -> line_ends_clean (strip s) = true.
Proof.
  intros H. unfold strip.
  destruct (lstrip_suffix s) as [pre E]. rewrite E in H.
  apply line_ends_clean_suffix in H.
  destruct (rstrip_prefix (lstrip s)) as [post E']. rewrite E' in H.
  apply (line_ends_clean_prefix _ post); [apply rstrip_rtrimmed|assumption].
Qed.

Lemma newline_only_join ls : Forall unbroken ls -> newline_only (join [NL] ls).
Proof.
  intros H. apply Forall_forall. intros c Hc Hb.
  apply join_chars in Hc. destruct Hc as [-> |(l & Hl & Hc)]; [reflexivity|].
  rewrite Forall_forall in H. specialize (H l Hl).
  unfold unbroken in H. rewrite Forall_forall in H.
  rewrite (H c Hc) in Hb. discriminate Hb.
Qed.

Lemma collapse_forall (P : N -> Prop) n : forall s prev,
  (length s <= n)%nat -> P NL -> Forall P s ->
  Forall P (sub_from blank_run [NL; NL] 0 prev s).
Proof.
  induction n as [|n IH]; intros s prev Hlen HP H.
  - destruct s; [|simpl in Hlen; lia]. cbn [sub_from].
    now rewrite match_len_blank_run.
  - destruct s as [|x s].
    { cbn [sub_from]. now rewrite match_len_blank_run. }
    simpl in Hlen. rewrite collapse_step.
    inversion H as [|? ? Hx Hs]; subst.
    destruct (3 <=? nl_run (x :: s))%nat.
    + cbn [app]. constructor; [assumption|]. constructor; [assumption|].
      apply IH; [|assumption|].
      * rewrite <- (take_drop is_nl s) in Hlen.
        rewrite length_app in Hlen. lia.
      * rewrite <- (take_drop is_nl s) in Hs.
        apply Forall_app in Hs. tauto.
    + constructor; [assumption|]. apply IH; [lia|assumption|assumption].
Qed.

Lemma newline_only_strip s : newline_only s -> newline_only (strip s).
Proof.
  unfold newline_only. rewrite !Forall_forall. intros H c Hc.
  apply H. now apply strip_incl.
Qed.

(** A text with clean line ends is the join of lines without white space at
    their end. *)
Lemma lines_of_clean s :
  newline_only s -> line_ends_clean s = true ->
  exists ls, ls <> [] /\ join [NL] ls = s /\
             Forall unbroken ls /\ Forall rtrimmed ls.
Proof.
  induction s as [|x s IH]; intros Hn Hc.
  - exists [[]]. repeat split; try discriminate; repeat constructor.
  - inversion Hn as [|? ? Hx Hs]; subst.
    destruct (IH Hs (line_ends_clean_tail _ _ Hc))
      as (ls & Hne & Ej & Hu & Hr).
    destruct ls as [|l rest]; [congruence|].
    destruct (is_nl x) eqn:Hnl.
    + apply N.eqb_eq in Hnl. subst x. exists ([] :: l :: rest).
      split; [discriminate|].
      split; [rewrite join_cons2; cbn [app]; f_equal; exact Ej|].
      split; constructor; try assumption; [constructor|apply rtrimmed_nil].
    + exists ((x :: l) :: rest). split; [discriminate|].
      split; [rewrite join_cons_char; f_equal; exact Ej|].
      inversion Hu as [|? ? Hul Hus]; subst.
      inversion Hr as [|? ? Hrl Hrs]; subst.
      assert (Hxb : is_linebreak x = false).
      { destruct (is_linebreak x) eqn:E; [|reflexivity].
        rewrite (Hx eq_refl) in Hnl. discriminate Hnl. }
      split; constructor; try assumption; [now constructor|].
      destruct l as [|y l]; [|apply rtrimmed_cons; [assumption|discriminate]].
      apply rtrimmed_single. cbn [line_ends_clean] in Hc.
      apply andb_true_iff in Hc. destruct Hc as [Hc _]. rewrite Hnl in Hc.
      destruct (isspace x); [|reflexivity]. cbn [negb orb] in Hc.
      destruct rest as [|l' rest].
      * rewrite join_single in Hc. discriminate Hc.
      * rewrite join_cons2 in Hc. cbn [app] in Hc. discriminate Hc.
Qed.

Lemma join_ends_newline ls :
  ls <> [] -> join [NL] (ls ++ [[]]) = join [NL] ls ++ [NL].
Proof. intros H. now rewrite join_snoc. Qed.

Lemma clean_text_lines c :
  newline_only c -> line_ends_clean c = true -> rtrimmed c ->
  join [NL] (splitlines c) = c /\ Forall rtrimmed (splitlines c).
Proof.
  intros Hn Hc Hr.
  destruct (lines_of_clean c Hn Hc) as (ls & Hne & Ej & Hu & Hrs).
  destruct c as [|x c]; [now split|].
  assert (Hlast : last ls [] <> []).
  { intros E. destruct (exists_last Hne) as (ls' & z & Ez). subst ls.
    rewrite last_last in E. subst z.
    destruct ls' as [|l ls']; [discriminate Ej|].
    rewrite join_ends_newline in Ej by discriminate.
    apply rtrimmed_no_final_newline in Hr. rewrite <- Ej in Hr.
    unfold ends_with_newline in Hr. rewrite last_last in Hr.
    discriminate Hr. }
  rewrite <- Ej. rewrite (splitlines_join ls Hu Hlast). now split.
Qed.

Lemma clean_markdown_tidy text :
  trimmed (clean_markdown text)
  /\ no_blank_run (clean_markdown text) = true
  /\ newline_only (clean_markdown text)
  /\ line_ends_clean (clean_markdown text) = true.
Proof.
  unfold clean_markdown.
  set (t := replace [CR] [NL] (replace [CR; NL] [NL] _)).
  assert (Hu : Forall unbroken (map rstrip (splitlines t))).
  { apply Forall_forall. intros l Hl. apply in_map_iff in Hl.
    destruct Hl as (l0 & <- & Hl0). apply rstrip_unbroken.
    pose proof (splitlines_unbroken t) as H.
    rewrite Forall_forall in H. now apply H. }
  assert (Hr : Forall rtrimmed (map rstrip (splitlines t))).
  { apply Forall_forall. intros l Hl. apply in_map_iff in Hl.
    destruct Hl as (l0 & <- & _). apply rstrip_rtrimmed. }
  split; [apply strip_trimmed|].
  split; [apply strip_no_blank_run, re_sub_no_blank_run|].
  split.
  - apply newline_only_strip. unfold re_sub.
    apply (collapse_forall _ _ _ _ (Nat.le_refl _)); [reflexivity|].
    now apply newline_only_join.
  - apply line_ends_clean_strip. unfold re_sub.
    apply (line_ends_clean_collapse _ _ _ (Nat.le_refl _)).
    now apply line_ends_clean_join.
Qed.

Lemma map_rstrip_trimmed ls : Forall rtrimmed ls -> map rstrip ls = ls.
Proof.
  induction 1 as [|l ls Hl _ IH]; [reflexivity|].
  cbn [map]. now rewrite Hl, IH.
Qed.

Lemma newline_only_no_CR c : newline_only c -> ~ In CR c.
Proof.
  unfold newline_only. rewrite Forall_forall. intros H Hin.
  specialize (H CR Hin eq_refl). discriminate H.
Qed.

(** A tidy text without tags and quote markers is left as it is. *)
Lemma clean_markdown_fixed c :
  re_search html_tag None c = false ->
  re_search blockquote None c = false ->
  trimmed c -> no_blank_run c = true ->
  newline_only c -> line_ends_clean c = true ->
  clean_markdown c = c.
Proof.
  intros Htag Hquote Ht Hb Hn Hc. unfold clean_markdown, re_sub.
  rewrite (re_sub_no_match html_tag [] c None Htag).
  rewrite (re_sub_no_match blockquote [] c None Hquote).
  pose proof (newline_only_no_CR c Hn) as HCR.
  rewrite (replace_without CR [NL] [NL] c HCR).
  rewrite (replace_without CR [] [NL] c HCR).
  destruct (clean_text_lines c Hn Hc (proj2 Ht)) as [Ej Hr].
  rewrite (map_rstrip_trimmed _ Hr), Ej.
  change (sub_from blank_run [NL; NL] 0 None c)
    with (re_sub blank_run [NL; NL] c).
  rewrite (re_sub_blank_run_id c Hb). now apply trimmed_strip.
Qed.

(** ** The tree and the flat dump *)

Lemma body_not_heading : matches sub_heading_pattern BODY = false.
Proof. vm_compute. reflexivity. Qed.

Lemma main_heading_named text :
  matches main_heading_pattern text = true -> str_eqb text FRONT = false.
Proof.
  intros H. destruct (str_eqb text FRONT) eqn:E; [|reflexivity].
  apply str_eqb_eq in E. subst. rewrite front_not_heading in H.
  discriminate H.
Qed.

Lemma sub_heading_named text :
  matches sub_heading_pattern text = true -> str_eqb text BODY = false.
Proof.
  intros H. destruct (str_eqb text BODY) eqn:E; [|reflexivity].
  apply str_eqb_eq in E. subst. rewrite body_not_heading in H.
  discriminate H.
Qed.

Lemma section_units_close_sub sec sub :
  section_units (close_sub sec sub) = section_units sec ++ sub_units sub.
Proof.
  unfold close_sub, section_units.
  destruct (nonempty (content sub) || negb (str_eqb (sub_heading sub) BODY))
    eqn:E; cbn [heading sub_sections].
  - rewrite flat_map_app. cbn [flat_map].
    now rewrite app_nil_r, app_assoc.
  - apply orb_false_iff in E. destruct E as [Ec Eh].
    apply nonempty_false in Ec. apply negb_false_iff in Eh.
    unfold sub_units. rewrite Ec, Eh. now rewrite !app_nil_r.
Qed.

Lemma tree_units_close_section secs sec :
  tree_units (close_section secs sec) = tree_units secs ++ section_units sec.
Proof.
  unfold close_section, tree_units.
  destruct (nonempty (sub_sections sec) || negb (str_eqb (heading sec) FRONT))
    eqn:E.
  - rewrite flat_map_app. cbn [flat_map]. now rewrite app_nil_r.
  - apply orb_false_iff in E. destruct E as [Ec Eh].
    apply nonempty_false in Ec. apply negb_false_iff in Eh.
    unfold section_units. rewrite Ec, Eh. now rewrite !app_nil_r.
Qed.

Lemma units_fresh_section text :
  section_units {| heading := text; sub_sections := [] |} =
  if str_eqb text FRONT then [] else [text].
Proof.
  unfold section_units. cbn [heading sub_sections flat_map].
  apply app_nil_r.
Qed.

Lemma units_fresh_sub text :
  sub_units {| sub_heading := text; content := [] |} =
  if str_eqb text BODY then [] else [text].
Proof. unfold sub_units. cbn [sub_heading content]. apply app_nil_r. Qed.

Lemma pending_units_para st para :
  pending_units (tree_para st para) =
  pending_units st ++ (if nonempty (strip para) then [strip para] else []).
Proof.
  destruct (tree_para_cases st para)
    as [[Hn ->]|[(Hn & Hm & ->)|[(Hn & Hm & Hb & ->)|(Hn & Hp & ->)]]];
    rewrite Hn.
  - now rewrite app_nil_r.
  - unfold pending_units. cbn [stored current_section current_sub_section].
    rewrite tree_units_close_section, section_units_close_sub.
    rewrite units_fresh_section, units_fresh_sub.
    rewrite (main_heading_named _ Hm), str_eqb_refl.
    now rewrite !app_nil_r, <- !app_assoc.
  - unfold pending_units. cbn [stored current_section current_sub_section].
    rewrite section_units_close_sub, units_fresh_sub.
    rewrite (sub_heading_named _ Hb).
    now rewrite <- !app_assoc.
  - unfold pending_units. cbn [stored current_section current_sub_section].
    unfold sub_units. cbn [sub_heading content].
    now rewrite <- !app_assoc.
Qed.

Lemma pending_units_fold paragraphs : forall st,
  pending_units (fold_left tree_para paragraphs st) =
  pending_units st ++ docx_to_json paragraphs.
Proof.
  induction paragraphs as [|para rest IH]; intros st.
  - cbn [fold_left docx_to_json]. now rewrite app_nil_r.
  - cbn [fold_left]. rewrite IH, pending_units_para, docx_to_json_cons.
    now rewrite <- app_assoc.
Qed.

Lemma tree_units_finish st : tree_units (tree_finish st) = pending_units st.
Proof.
  unfold tree_finish, pending_units.
  now rewrite tree_units_close_section, section_units_close_sub.
Qed.

Lemma tree_units_sections paragraphs :
  tree_units (tree_sections paragraphs) = docx_to_json paragraphs.
Proof.
  unfold tree_sections. now rewrite tree_units_finish, pending_units_fold.
Qed.

(** ** The headings of the tree *)

Lemma named_sections_close secs sec :
  named_sections (close_section secs sec) =
  named_sections secs ++ named_sections [sec].
Proof.
  unfold close_section, named_sections.
  destruct (nonempty (sub_sections sec) || negb (str_eqb (heading sec) FRONT))
    eqn:E.
  - now rewrite map_app, filter_app.
  - apply orb_false_iff in E. destruct E as [_ Eh].
    cbn [map filter]. rewrite Eh. now rewrite app_nil_r.
Qed.

Lemma named_subs_close sec sub :
  named_subs (close_sub sec sub) =
  named_subs sec ++
  (if str_eqb (sub_heading sub) BODY then [] else [sub_heading sub]).
Proof.
  unfold close_sub, named_subs.
  destruct (nonempty (content sub) || negb (str_eqb (sub_heading sub) BODY))
    eqn:E; cbn [sub_sections].
  - rewrite map_app, filter_app. cbn [map filter].
    now destruct (str_eqb (sub_heading sub) BODY).
  - apply orb_false_iff in E. destruct E as [_ Eh].
    apply negb_false_iff in Eh. rewrite Eh. now rewrite app_nil_r.
Qed.

Lemma flat_named_subs_close secs sec :
  flat_map named_subs (close_section secs sec) =
  flat_map named_subs secs ++ named_subs sec.
Proof.
  unfold close_section.
  destruct (nonempty (sub_sections sec) || negb (str_eqb (heading sec) FRONT))
    eqn:E.
  - rewrite flat_map_app. cbn [flat_map]. now rewrite app_nil_r.
  - apply orb_false_iff in E. destruct E as [Ec _].
    apply nonempty_false in Ec. unfold named_subs. rewrite Ec.
    now rewrite app_nil_r.
Qed.

Lemma is_plain_not_heading text :
  is_plain text = true ->
  matches main_heading_pattern text = false /\ is_sub_heading text = false.
Proof.
  intros H. destruct (is_plain_true _ H) as [Hm Hs].
  split; [assumption|]. unfold is_sub_heading. now rewrite Hs, andb_false_r.
Qed.

Lemma headings_para st para :
  let st' := tree_para st para in
  let text := strip para in
  named_sections (stored st' ++ [current_section st']) =
  named_sections (stored st ++ [current_section st]) ++
  (if nonempty text && matches main_heading_pattern text then [text] else [])
  /\
  flat_map named_subs (stored st') ++ named_subs (current_section st')
  ++ (if str_eqb (sub_heading (current_sub_section st')) BODY then []
      else [sub_heading (current_sub_section st')]) =
  (flat_map named_subs (stored st) ++ named_subs (current_section st)
   ++ (if str_eqb (sub_heading (current_sub_section st)) BODY then []
       else [sub_heading (current_sub_section st)])) ++
  (if nonempty text && is_sub_heading text then [text] else []).
Proof.
  cbv zeta.
  destruct (tree_para_cases st para)
    as [[Hn ->]|[(Hn & Hm & ->)|[(Hn & Hm & Hb & ->)|(Hn & Hp & ->)]]];
    rewrite Hn; cbn [andb].
  - now rewrite !app_nil_r.
  - unfold is_sub_heading. rewrite Hm. cbn [negb andb].
    cbn [stored current_section current_sub_section sub_heading].
    rewrite str_eqb_refl. split.
    + unfold named_sections at 1. rewrite map_app, filter_app.
      fold (named_sections
              (close_section (stored st)
                 (close_sub (current_section st) (current_sub_section st)))).
      rewrite named_sections_close. unfold named_sections.
      cbn [map filter heading]. rewrite close_sub_heading.
      rewrite (main_heading_named _ Hm). cbn [negb].
      now rewrite map_app, filter_app.
    + rewrite flat_named_subs_close, named_subs_close.
      unfold named_subs at 3. cbn [sub_sections map filter]. reflexivity.
  - unfold is_sub_heading. rewrite Hm, Hb. cbn [negb andb].
    cbn [stored current_section current_sub_section sub_heading].
    rewrite (sub_heading_named _ Hb). split.
    + unfold named_sections. rewrite !map_app. cbn [map].
      rewrite close_sub_heading. now rewrite app_nil_r.
    + rewrite named_subs_close. now rewrite <- !app_assoc.
  - destruct (is_plain_not_heading _ Hp) as [-> ->].
    cbn [stored current_section current_sub_section sub_heading].
    now rewrite !app_nil_r.
Qed.

Lemma headings_fold paragraphs : forall st,
  let st' := fold_left tree_para paragraphs st in
  named_sections (stored st' ++ [current_section st']) =
  named_sections (stored st ++ [current_section st]) ++
  filter (matches main_heading_pattern) (docx_to_json paragraphs)
  /\
  flat_map named_subs (stored st') ++ named_subs (current_section st')
  ++ (if str_eqb (sub_heading (current_sub_section st')) BODY then []
      else [sub_heading (current_sub_section st')]) =
  (flat_map named_subs (stored st) ++ named_subs (current_section st)
   ++ (if str_eqb (sub_heading (current_sub_section st)) BODY then []
       else [sub_heading (current_sub_section st)])) ++
  filter is_sub_heading (docx_to_json paragraphs).
Proof.
  induction paragraphs as [|para rest IH]; intros st; cbv zeta.
  - cbn [fold_left docx_to_json filter]. now rewrite !app_nil_r.
  - cbn [fold_left]. destruct (IH (tree_para st para)) as [IH1 IH2].
    destruct (headings_para st para) as [H1 H2]. cbv zeta in *.
    rewrite IH1, IH2, H1, H2, docx_to_json_cons, !filter_app.
    rewrite <- !app_assoc.
    destruct (nonempty (strip para)); cbn [andb filter app].
    + destruct (matches main_heading_pattern (strip para));
        destruct (is_sub_heading (strip para)); now split.
    + now split.
Qed.

Lemma headings_sections paragraphs :
  named_sections (tree_sections paragraphs) =
  filter (matches main_heading_pattern) (docx_to_json paragraphs)
  /\ flat_map named_subs (tree_sections paragraphs) =
     filter is_sub_heading (docx_to_json paragraphs).
Proof.
  destruct (headings_fold paragraphs init_tstate) as [H1 H2].
  cbv zeta in *. unfold tree_sections, tree_finish.
  set (st := fold_left tree_para paragraphs init_tstate) in *.
  split.
  - rewrite named_sections_close. unfold named_sections in *.
    rewrite map_app, filter_app in H1. cbn [map] in *.
    rewrite close_sub_heading. rewrite H1. reflexivity.
  - rewrite flat_named_subs_close, named_subs_close.
    rewrite app_assoc in H2. rewrite app_assoc. rewrite H2. reflexivity.
Qed.

(** ** A main heading starts the tree afresh *)

Lemma close_section_app secs secs' sec :
  close_section (secs ++ secs') sec = secs ++ close_section secs' sec.
Proof.
  unfold close_section. destruct (_ || _); [|reflexivity].
  now rewrite app_assoc.
Qed.

Lemma tree_para_add_stored secs st para :
  tree_para (add_stored secs st) para = add_stored secs (tree_para st para).
Proof.
  destruct (tree_para_cases st para)
    as [[Hn E]|[(Hn & Hm & E)|[(Hn & Hm & Hb & E)|(Hn & Hp & E)]]];
    rewrite E; unfold tree_para; rewrite Hn; cbn [negb];
    try (destruct (is_plain_true _ Hp) as [Hm Hb]);
    rewrite ?Hm, ?Hb; unfold add_stored;
    cbn [stored current_section current_sub_section];
    rewrite ?close_section_app; reflexivity.
Qed.

Lemma tree_fold_add_stored paragraphs : forall secs st,
  fold_left tree_para paragraphs (add_stored secs st) =
  add_stored secs (fold_left tree_para paragraphs st).
Proof.
  induction paragraphs as [|para rest IH]; intros secs st; [reflexivity|].
  cbn [fold_left]. now rewrite tree_para_add_stored, IH.
Qed.

Lemma tree_finish_add_stored secs st :
  tree_finish (add_stored secs st) = secs ++ tree_finish st.
Proof.
  unfold tree_finish, add_stored.
  cbn [stored current_section current_sub_section].
  apply close_section_app.
Qed.

Lemma empty_not_heading : matches main_heading_pattern [] = false.
Proof. vm_compute. reflexivity. Qed.

Lemma main_heading_nonempty text :
  matches main_heading_pattern text = true -> nonempty text = true.
Proof.
  destruct text; [|reflexivity]. rewrite empty_not_heading. discriminate.
Qed.

Lemma tree_para_main st para :
  matches main_heading_pattern (strip para) = true ->
  tree_para st para = add_stored (tree_finish st) (tree_para init_tstate para).
Proof.
  intros Hm. unfold tree_para.
  rewrite (main_heading_nonempty _ Hm), Hm. cbn [negb].
  unfold add_stored, tree_finish.
  cbn [stored current_section current_sub_section init_tstate].
  f_equal. symmetry.
  replace (close_section [] _) with (@nil section).
  - apply app_nil_r.
  - unfold close_sub, close_section.
    cbn [content sub_heading nonempty sub_sections heading orb].
    now rewrite !str_eqb_refl.
Qed.

Lemma tree_sections_main paragraphs para rest :
  matches main_heading_pattern (strip para) = true ->
  tree_sections (paragraphs ++ para :: rest) =
  tree_sections paragraphs ++ tree_sections (para :: rest).
Proof.
  intros Hm. unfold tree_sections.
  rewrite fold_left_app. cbn [fold_left].
  rewrite (tree_para_main _ para Hm).
  now rewrite tree_fold_add_stored, tree_finish_add_stored.
Qed.

(** ** Sentinels stand first *)

Lemma close_sub_in_place sec sub :
  subs_in_place sec ->
  (sub_sections sec <> [] -> sub_headed sub) ->
  subs_in_place (close_sub sec sub).
Proof.
  unfold subs_in_place, close_sub. intros Hs Hsub.
  destruct (_ || _); [|assumption]. cbn [sub_sections].
  destruct (sub_sections sec) as [|a l] eqn:E; [constructor|].
  cbn [app tl] in *. apply Forall_app. split; [assumption|].
  constructor; [|constructor]. apply Hsub. discriminate.
Qed.

Lemma close_section_in_place secs sec :
  Forall headed (tl secs) -> (secs <> [] -> headed sec) ->
  Forall headed (tl (close_section secs sec)).
Proof.
  unfold close_section. intros Hs Hsec.
  destruct (_ || _); [|assumption].
  destruct secs as [|a l]; [constructor|].
  cbn [app tl] in *. apply Forall_app. split; [assumption|].
  constructor; [|constructor]. apply Hsec. discriminate.
Qed.

Lemma close_section_subs secs sec :
  Forall subs_in_place secs -> subs_in_place sec ->
  Forall subs_in_place (close_section secs sec).
Proof.
  unfold close_section. intros Hs Hsec.
  destruct (_ || _); [|assumption].
  apply Forall_app. split; [assumption|]. now constructor.
Qed.

Lemma tree_para_in_place st para :
  tstate_in_place st -> tstate_in_place (tree_para st para).
Proof.
  intros (H1 & H2 & H3 & H4 & H5).
  destruct (tree_para_cases st para)
    as [[Hn ->]|[(Hn & Hm & ->)|[(Hn & Hm & Hb & ->)|(Hn & Hp & ->)]]].
  - repeat split; assumption.
  - unfold tstate_in_place.
    cbn [stored current_section current_sub_section sub_sections].
    split; [|split; [|split; [|split]]].
    + apply close_section_in_place; [assumption|].
      intros Hne. unfold headed. rewrite close_sub_heading. now apply H2.
    + intros _. exact Hm.
    + apply close_section_subs; [assumption|].
      now apply close_sub_in_place.
    + constructor.
    + congruence.
  - unfold tstate_in_place.
    cbn [stored current_section current_sub_section sub_heading].
    split; [assumption|]. split.
    { intros Hne. unfold headed. rewrite close_sub_heading. now apply H2. }
    split; [assumption|]. split; [now apply close_sub_in_place|].
    intros _. exact Hb.
  - unfold tstate_in_place.
    cbn [stored current_section current_sub_section sub_heading].
    repeat split; assumption.
Qed.

Lemma tree_fold_in_place paragraphs : forall st,
  tstate_in_place st -> tstate_in_place (fold_left tree_para paragraphs st).
Proof.
  induction paragraphs as [|para rest IH]; intros st H; [assumption|].
  cbn [fold_left]. apply IH. now apply tree_para_in_place.
Qed.

Lemma tree_sections_in_place paragraphs :
  Forall headed (tl (tree_sections paragraphs))
  /\ Forall subs_in_place (tree_sections paragraphs).
Proof.
  destruct (tree_fold_in_place paragraphs init_tstate)
    as (H1 & H2 & H3 & H4 & H5).
  { unfold tstate_in_place, subs_in_place. cbn.
    repeat split; try constructor; congruence. }
  unfold tree_sections, tree_finish. split.
  - apply close_section_in_place; [assumption|].
    intros Hne. unfold headed. rewrite close_sub_heading. now apply H2.
  - apply close_section_subs; [assumption|]. now apply close_sub_in_place.
Qed.

(** ** The flat dump, and the tree built from it *)

Lemma tree_para_strip st para : tree_para st (strip para) = tree_para st para.
Proof. unfold tree_para. now rewrite strip_idempotent. Qed.

Lemma tree_para_blank st para :
  nonempty (strip para) = false -> tree_para st para = st.
Proof. intros H. unfold tree_para. now rewrite H. Qed.

Lemma tree_fold_flat paragraphs : forall st,
  fold_left tree_para (docx_to_json paragraphs) st =
  fold_left tree_para paragraphs st.
Proof.
  induction paragraphs as [|para rest IH]; intros st; [reflexivity|].
  cbn [docx_to_json fold_left]. destruct (nonempty (strip para)) eqn:E.
  - cbn [fold_left]. now rewrite tree_para_strip, IH.
  - now rewrite (tree_para_blank _ _ E), IH.
Qed.

Lemma docx_to_json_again paragraphs :
  docx_to_json (docx_to_json paragraphs) = docx_to_json paragraphs.
Proof.
  induction paragraphs as [|para rest IH]; [reflexivity|].
  cbn [docx_to_json]. destruct (nonempty (strip para)) eqn:E; [|assumption].
  cbn [docx_to_json]. now rewrite strip_idempotent, E, IH.
Qed.

Lemma docx_to_json_app a b :
  docx_to_json (a ++ b) = docx_to_json a ++ docx_to_json b.
Proof. now rewrite !docx_to_json_filter, map_app, filter_app. Qed.

(** ** File names *)

Lemma docx_chars : u ".docx" = [46; 100; 111; 99; 120].
Proof. vm_compute. reflexivity. Qed.

Lemma starts_with_self p t : starts_with p (p ++ t) = true.
Proof.
  induction p as [|x p IH]; [reflexivity|]. cbn [app starts_with].
  now rewrite N.eqb_refl.
Qed.

Lemma starts_with_split p : forall s,
  starts_with p s = true -> exists t, s = p ++ t.
Proof.
  induction p as [|x p IH]; intros s H; [now exists s|].
  destruct s as [|y s]; [discriminate|]. cbn [starts_with] in H.
  apply andb_true_iff in H. destruct H as [Hx H].
  apply N.eqb_eq in Hx. subst y. destruct (IH s H) as [t ->]. now exists t.
Qed.

Lemma ends_with_split suffix s :
  ends_with suffix s = true -> exists stem, s = stem ++ suffix.
Proof.
  unfold ends_with. intros H. destruct (starts_with_split _ _ H) as [t E].
  exists (rev t). apply (f_equal (@rev N)) in E.
  now rewrite rev_involutive, rev_app_distr, rev_involutive in E.
Qed.

Lemma ends_with_app stem suffix : ends_with suffix (stem ++ suffix) = true.
Proof. unfold ends_with. rewrite rev_app_distr. apply starts_with_self. Qed.

(** ".docx" has no border: an occurrence that starts inside [a] lies inside
    [a]. *)
Lemma docx_unbordered a :
  a <> [] -> starts_with (u ".docx") (a ++ u ".docx") = true ->
  starts_with (u ".docx") a = true.
Proof.
  rewrite docx_chars.
  destruct a as [|x1 [|x2 [|x3 [|x4 [|x5 a]]]]]; intros Hne H;
    [congruence|exfalso..|exact H]; simpl in H;
    repeat match type of H with
    | (?a && ?b) = true =>
        let H1 := fresh in
        apply andb_true_iff in H; destruct H as [H1 H]
    end; discriminate.
Qed.

Lemma replace_docx_hit new s :
  replace (u ".docx") new (u ".docx" ++ s) = new ++ replace (u ".docx") new s.
Proof. unfold replace. rewrite docx_chars. reflexivity. Qed.

Lemma replace_miss old new x s :
  starts_with old (x :: s) = false ->
  replace old new (x :: s) = x :: replace old new s.
Proof. intros H. unfold replace. cbn [replace_from]. now rewrite H. Qed.

Lemma replace_app_docx new n : forall a,
  (length a <= n)%nat ->
  replace (u ".docx") new (a ++ u ".docx") =
  replace (u ".docx") new a ++ new.
Proof.
  induction n as [|n IH]; intros a Hlen.
  - destruct a; [|simpl in Hlen; lia]. cbn [app].
    rewrite <- (app_nil_r (u ".docx")) at 2.
    now rewrite replace_docx_hit, app_nil_r.
  - destruct a as [|x a].
    { cbn [app]. rewrite <- (app_nil_r (u ".docx")) at 2.
      now rewrite replace_docx_hit, app_nil_r. }
    destruct (starts_with (u ".docx") (x :: a)) eqn:E.
    + destruct (starts_with_split _ _ E) as [t Et]. rewrite Et.
      rewrite <- app_assoc, !replace_docx_hit, <- app_assoc. f_equal.
      apply IH. apply (f_equal (@length N)) in Et.
      rewrite length_app, docx_chars in Et. simpl in Et, Hlen. lia.
    + assert (E' : starts_with (u ".docx") ((x :: a) ++ u ".docx") = false).
      { destruct (starts_with _ ((x :: a) ++ _)) eqn:E'; [|reflexivity].
        rewrite docx_unbordered in E; [discriminate|discriminate|assumption]. }
      cbn [app] in *. rewrite (replace_miss _ _ _ _ E'), (replace_miss _ _ _ _ E).
      cbn [app]. f_equal. apply IH. simpl in Hlen. lia.
Qed.

Lemma replace_absent old new s : occurs old s = false -> replace old new s = s.
Proof.
  induction s as [|x s IH]; intros H; [reflexivity|].
  cbn [occurs] in H. apply orb_false_iff in H. destruct H as [Hx Hs].
  rewrite (replace_miss _ _ _ _ Hx). now rewrite IH.
Qed.

Lemma differ_at_end (a b : str) (x y : N) :
  (x =? y) = false -> str_eqb (a ++ [x]) (b ++ [y]) = false.
Proof.
  intros Hxy. destruct (str_eqb (a ++ [x]) (b ++ [y])) eqn:E; [|reflexivity].
  apply str_eqb_eq in E. apply app_inj_tail in E. destruct E as [_ ->].
  now rewrite N.eqb_refl in Hxy.
Qed.

(** ** The title of a document *)

Lemma rfind_from_app c a : forall b i found,
  rfind_from c (a ++ b) i found =
  rfind_from c b (i + length a) (rfind_from c a i found).
Proof.
  induction a as [|x a IH]; intros b i found.
  - cbn [app length rfind_from]. now rewrite Nat.add_0_r.
  - cbn [app length rfind_from]. rewrite IH. f_equal. lia.
Qed.

Lemma rfind_from_absent c s : forall i found,
  forallb (fun x => negb (x =? c)) s = true -> rfind_from c s i found = found.
Proof.
  induction s as [|x s IH]; intros i found H; [reflexivity|].
  cbn [forallb rfind_from] in *. apply andb_true_iff in H.
  destruct H as [Hx Hs]. apply negb_true_iff in Hx. rewrite Hx.
  now apply IH.
Qed.

Lemma splitext_root_docx stem :
  forallb (fun c => negb (c =? chr "/")) stem = true ->
  existsb (fun c => negb (c =? chr ".")) stem = true ->
  splitext_root (stem ++ u ".docx") = stem.
Proof.
  intros Hsep Hdot. unfold splitext_root.
  rewrite !rfind_from_app. rewrite (rfind_from_absent _ stem 0 None Hsep).
  replace (rfind_from (chr "/") (u ".docx") (0 + length stem) None)
    with (@None nat) by (rewrite docx_chars; reflexivity).
  replace (rfind_from (chr ".") (u ".docx") (0 + length stem)
             (rfind_from (chr ".") stem 0 None))
    with (Some (length stem)) by (rewrite docx_chars; reflexivity).
  cbn [Nat.leb skipn andb]. rewrite Nat.sub_0_r.
  rewrite firstn_app, Nat.sub_diag, firstn_all. cbn [firstn].
  now rewrite app_nil_r, Hdot.
Qed.

(** ** genQA_pair/gen_qa.py: the fallback of [parse_json_response] *)

Lemma brace_tail {B} (f : str -> B) : forall s prev c,
  rep_greedy (fun _ => true) 0 prev s c
    (fun p s' c' =>
       rmatch (Cls (lit "}")) p s' c' (fun _ s'' _ => Some (f s''))) =
  match after_last_brace s with
  | Some r => Some (f r)
  | None => None
  end.
Proof.
  induction s as [|x s IH]; intros prev c.
  - cbn [rep_greedy after_last_brace]. apply rmatch_cls_nil.
  - cbn [rep_greedy after_last_brace Nat.pred]. rewrite IH.
    destruct (after_last_brace s) as [r|]; [reflexivity|].
    rewrite rmatch_cls_cons. now destruct (lit "}" x).
Qed.

Lemma match_len_brace prev s :
  match_len brace_span prev s =
  match s with
  | x :: s' =>
      if lit "{" x then
        match after_last_brace s' with
        | Some r => Some (length s - length r)%nat
        | None => None
        end
      else None
  | [] => None
  end.
Proof.
  unfold match_len, brace_span. rewrite rmatch_cat.
  destruct s as [|x s']; [apply rmatch_cls_nil|].
  rewrite rmatch_cls_cons. destruct (lit "{" x); [|reflexivity].
  rewrite rmatch_cat, rmatch_greedy.
  apply (brace_tail (fun r => (length (x :: s') - length r)%nat)).
Qed.

Lemma no_brace_after post :
  forallb (fun c => negb (lit "}" c)) post = true ->
  after_last_brace post = None.
Proof.
  induction post as [|x post IH]; intros H; [reflexivity|].
  cbn [forallb after_last_brace] in *. apply andb_true_iff in H.
  destruct H as [Hx H]. rewrite (IH H). apply negb_true_iff in Hx.
  now rewrite Hx.
Qed.

Lemma after_last_brace_app mid post :
  after_last_brace post = None ->
  after_last_brace (mid ++ chr "}" :: post) = Some post.
Proof.
  intros H. induction mid as [|x mid IH].
  - cbn [app after_last_brace]. rewrite H. unfold lit.
    now rewrite N.eqb_refl.
  - cbn [app after_last_brace]. now rewrite IH.
Qed.

Lemma firstn_before {A} (a b : list A) :
  firstn (length (a ++ b) - length b) (a ++ b) = a.
Proof.
  rewrite length_app, Nat.add_sub, firstn_app, Nat.sub_diag, firstn_all.
  cbn [firstn]. apply app_nil_r.
Qed.

Lemma brace_span_found pre mid post : forall prev,
  forallb (fun c => negb (lit "{" c)) pre = true ->
  forallb (fun c => negb (lit "}" c)) post = true ->
  re_search_group brace_span prev (pre ++ chr "{" :: mid ++ chr "}" :: post)
  = Some (chr "{" :: mid ++ [chr "}"]).
Proof.
  intros prev Hpre Hpost. revert prev.
  induction pre as [|x pre IH]; intros prev.
  - cbn [app re_search_group]. rewrite match_len_brace.
    unfold lit at 1. rewrite N.eqb_refl.
    rewrite (after_last_brace_app mid post (no_brace_after _ Hpost)).
    f_equal.
    change (chr "{" :: mid ++ chr "}" :: post)
      with ((chr "{" :: mid) ++ chr "}" :: post).
    replace ((chr "{" :: mid) ++ chr "}" :: post)
      with ((chr "{" :: mid ++ [chr "}"]) ++ post)
      by (cbn [app]; now rewrite <- app_assoc).
    apply firstn_before.
  - cbn [forallb] in Hpre. apply andb_true_iff in Hpre.
    destruct Hpre as [Hx Hpre]. apply negb_true_iff in Hx.
    cbn [app re_search_group]. rewrite match_len_brace, Hx.
    now apply IH.
Qed.

Lemma brace_span_absent s : forall prev,
  forallb (fun c => negb (lit "{" c)) s = true ->
  re_search_group brace_span prev s = None.
Proof.
  induction s as [|x s IH]; intros prev H.
  - cbn [re_search_group]. now rewrite match_len_brace.
  - cbn [forallb] in H. apply andb_true_iff in H. destruct H as [Hx H].
    apply negb_true_iff in Hx.
    cbn [re_search_group]. rewrite match_len_brace, Hx. now apply IH.
Qed.

Lemma lstrip_app_solid a x b :
  isspace x = false -> lstrip (a ++ x :: b) = lstrip a ++ x :: b.
Proof.
  intros Hx. induction a as [|y a IH].
  - cbn [app lstrip]. now rewrite Hx.
  - cbn [app lstrip]. now destruct (isspace y).
Qed.

Lemma rstrip_solid_nonempty x b :
  isspace x = false -> nonempty (rstrip (x :: b)) = true.
Proof.
  intros Hx. rewrite rstrip_cons, Hx. now destruct (nonempty (rstrip b)).
Qed.

Lemma rstrip_app_solid a x b :
  isspace x = false -> rstrip (a ++ x :: b) = a ++ rstrip (x :: b).
Proof.
  intros Hx. induction a as [|y a IH]; [reflexivity|].
  cbn [app]. rewrite rstrip_cons, IH.
  destruct (rstrip (x :: b)) eqn:E.
  - pose proof (rstrip_solid_nonempty x b Hx) as H. now rewrite E in H.
  - now destruct a.
Qed.

Lemma rstrip_solid_head x b :
  isspace x = false -> rstrip (x :: b) = x :: rstrip b.
Proof.
  intros Hx. rewrite rstrip_cons, Hx.
  destruct (rstrip b); reflexivity.
Qed.

Lemma forallb_incl {A} (p : A -> bool) (a b : list A) :
  (forall x, In x a -> In x b) -> forallb p b = true -> forallb p a = true.
Proof.
  intros Hin H. rewrite forallb_forall in *. auto.
Qed.

Lemma strip_around_braces pre mid post :
  strip (pre ++ chr "{" :: mid ++ chr "}" :: post) =
  lstrip pre ++ chr "{" :: mid ++ chr "}" :: rstrip post.
Proof.
  unfold strip. rewrite lstrip_app_solid by reflexivity.
  change (lstrip pre ++ chr "{" :: mid ++ chr "}" :: post)
    with (lstrip pre ++ (chr "{" :: mid) ++ chr "}" :: post).
  rewrite app_assoc, rstrip_app_solid by reflexivity.
  rewrite rstrip_solid_head by reflexivity.
  now rewrite <- app_assoc.
Qed.

Lemma parse_json_response_fallback loads pre mid post :
  forallb (fun c => negb (lit "{" c)) pre = true ->
  forallb (fun c => negb (lit "}" c)) post = true ->
  loads (strip (pre ++ chr "{" :: mid ++ chr "}" :: post)) = None ->
  parse_json_response loads (pre ++ chr "{" :: mid ++ chr "}" :: post) =
  loads (chr "{" :: mid ++ [chr "}"]).
Proof.
  intros Hpre Hpost Hload. unfold parse_json_response. rewrite Hload.
  rewrite strip_around_braces, brace_span_found.
  - now destruct (loads (chr "{" :: mid ++ [chr "}"])).
  - apply (forallb_incl _ _ pre); [apply lstrip_incl|assumption].
  - apply (forallb_incl _ _ post); [apply rstrip_incl|assumption].
Qed.

Lemma parse_json_response_no_brace loads raw :
  forallb (fun c => negb (lit "{" c)) raw = true ->
  loads (strip raw) = None ->
  parse_json_response loads raw = None.
Proof.
  intros Hraw Hload. unfold parse_json_response. rewrite Hload.
  rewrite brace_span_absent; [reflexivity|].
  apply (forallb_incl _ _ raw); [apply strip_incl|assumption].
Qed.

(** ** genQA_pair/gen_qa.py: dictionaries *)

Lemma dict_get_set k v d : dict_get k (dict_set k v d) = Some v.
Proof.
  induction d as [|[k' v'] d IH]; cbn [dict_set dict_get].
  - now rewrite str_eqb_refl.
  - destruct (str_eqb k k') eqn:E; cbn [dict_get].
    + now rewrite str_eqb_refl.
    + now rewrite E.
Qed.

Lemma dict_get_set_other k k' v d :
  str_eqb k' k = false -> dict_get k' (dict_set k v d) = dict_get k' d.
Proof.
  intros Hk. induction d as [|[k0 v0] d IH]; cbn [dict_set dict_get].
  - now rewrite Hk.
  - destruct (str_eqb k k0) eqn:E; cbn [dict_get].
    + apply str_eqb_eq in E. subst k0. now rewrite Hk.
    + now rewrite IH.
Qed.

Lemma dict_set_set k v1 v2 d :
  dict_set k v2 (dict_set k v1 d) = dict_set k v2 d.
Proof.
  induction d as [|[k' v'] d IH]; cbn [dict_set].
  - now rewrite str_eqb_refl.
  - destruct (str_eqb k k') eqn:E; cbn [dict_set].
    + now rewrite str_eqb_refl.
    + now rewrite E, IH.
Qed.

Lemma dict_set_keys k v d :
  map fst (dict_set k v d) =
  match dict_get k d with
  | Some _ => map fst d
  | None => map fst d ++ [k]
  end.
Proof.
  induction d as [|[k' v'] d IH]; cbn [dict_set dict_get map fst app];
    [reflexivity|].
  destruct (str_eqb k k') eqn:E; cbn [map fst].
  - apply str_eqb_eq in E. now subst.
  - rewrite IH. now destruct (dict_get k d).
Qed.

(** ** genQA_pair/gen_qa.py: [inject_source_document] *)

Lemma inject_pair_injectable doc_name qa_pair :
  injectable qa_pair = true ->
  exists d,
    qa_pair = JObj d /\
    inject_pair doc_name qa_pair =
    Some (JObj (dict_set META
                  (JObj (dict_set SOURCE (JStr doc_name) (meta_fields d))) d)).
Proof.
  unfold injectable, inject_pair, meta_fields.
  destruct qa_pair as [| | | | | |d]; try discriminate.
  intros H. exists d. split; [reflexivity|].
  destruct (dict_get META d) as [[| | | | | |m]|]; try discriminate;
    reflexivity.
Qed.

Lemma inject_pair_none doc_name qa_pair :
  injectable qa_pair = false -> inject_pair doc_name qa_pair = None.
Proof.
  unfold injectable, inject_pair.
  destruct qa_pair as [| | | | | |d]; try reflexivity.
  destruct (dict_get META d) as [[| | | | | |m]|]; try discriminate;
    reflexivity.
Qed.

Lemma inject_injectable doc_name qa_pair :
  match inject_pair doc_name qa_pair with
  | Some _ => injectable qa_pair = true
  | None => injectable qa_pair = false
  end.
Proof.
  destruct (injectable qa_pair) eqn:E.
  - destruct (inject_pair_injectable doc_name _ E) as (d & _ & ->).
    reflexivity.
  - now rewrite (inject_pair_none _ _ E).
Qed.

Lemma inject_pair_again d1 d2 qa_pair qa_pair' :
  inject_pair d1 qa_pair = Some qa_pair' ->
  inject_pair d2 qa_pair' = inject_pair d2 qa_pair.
Proof.
  intros H. pose proof (inject_injectable d1 qa_pair) as Hi.
  rewrite H in Hi.
  destruct (inject_pair_injectable d1 _ Hi) as (d & -> & E1).
  rewrite E1 in H. injection H as <-.
  destruct (inject_pair_injectable d2 _ Hi) as (d' & [= <-] & ->).
  unfold inject_pair. rewrite dict_get_set.
  now rewrite !dict_set_set.
Qed.

(** * Further properties of the converters *)

(** ** converters/dock_to_md.py *)

(** X1: whatever the input, the text returned by [clean_markdown] holds no
    HTML-like tag: [<[^>]+>] finds nothing in it.  The later steps of the
    function (removing quote markers, joining stripped lines, collapsing
    blank lines) bring no tag back. *)
Theorem clean_markdown_no_tag (text : str) :
  re_search html_tag None (clean_markdown text) = false.
Proof. apply (untagged_no_tag _ Quiet), clean_markdown_untagged. Qed.

(** X2: [beautify_structure] brings no HTML-like tag into a text: when
    [<[^>]+>] finds nothing in the input, it finds nothing in the output. *)
Theorem beautify_structure_no_tag (text : str) :
  re_search html_tag None text = false ->
  re_search html_tag None (beautify_structure text) = false.
Proof.
  intros H. apply (untagged_no_tag _ Quiet), beautify_structure_untagged.
  now apply no_tag_untagged.
Qed.

Lemma beautify_structure_no_tag_witness :
  re_search html_tag None
    (u "一、a > b" ++ [NL] ++ u "1.x" ++ [NL] ++ u "(二) c <") = false
  /\ re_search html_tag None
       (beautify_structure
          (u "一、a > b" ++ [NL] ++ u "1.x" ++ [NL] ++ u "(二) c <")) = false.
Proof.
  split; [vm_compute; reflexivity|].
  apply (beautify_structure_no_tag
           (u "一、a > b" ++ [NL] ++ u "1.x" ++ [NL] ++ u "(二) c <")).
  vm_compute. reflexivity.
Defined.

(** X3: the text rendered from the Markdown of a document ([clean_markdown],
    then [beautify_structure]) holds no HTML-like tag. *)
Theorem render_no_tag (md_text : str) :
  re_search html_tag None (render md_text) = false.
Proof.
  unfold render. apply (untagged_no_tag _ Quiet), beautify_structure_untagged.
  apply clean_markdown_untagged.
Qed.

(** X4: the text returned by [clean_markdown] is stripped, has no three
    newlines in a row and no line boundary other than the newline (no
    carriage return is left), none of its lines ends in white space, and it
    is the join of its lines. *)
Theorem clean_markdown_lines (text : str) :
  strip (clean_markdown text) = clean_markdown text
  /\ no_blank_run (clean_markdown text) = true
  /\ newline_only (clean_markdown text)
  /\ Forall (fun l => rstrip l = l) (splitlines (clean_markdown text))
  /\ join [NL] (splitlines (clean_markdown text)) = clean_markdown text.
Proof.
  destruct (clean_markdown_tidy text) as (Ht & Hb & Hn & Hc).
  destruct (clean_text_lines _ Hn Hc (proj2 Ht)) as [Ej Hr].
  split; [now apply trimmed_strip|]. repeat split; assumption.
Qed.

(** X5: [clean_markdown] removes one quote marker per line and pass, and
    that is all a second pass can change: when no line of the cleaned text
    starts with [>], cleaning it again returns it as it is. *)
Theorem clean_markdown_twice (text : str) :
  re_search blockquote None (clean_markdown text) = false ->
  clean_markdown (clean_markdown text) = clean_markdown text.
Proof.
  intros Hquote. destruct (clean_markdown_tidy text) as (Ht & Hb & Hn & Hc).
  apply clean_markdown_fixed; try assumption.
  apply (untagged_no_tag _ Quiet), clean_markdown_untagged.
Qed.

Lemma clean_markdown_twice_witness :
  re_search blockquote None (clean_markdown sample_document) = false
  /\ clean_markdown (clean_markdown sample_document) =
     clean_markdown sample_document.
Proof.
  split; [vm_compute; reflexivity|].
  apply (clean_markdown_twice sample_document). vm_compute. reflexivity.
Defined.

(** X6: [beautify_structure] works line by line: the lines of its output
    that are not empty are the lines of the input that are not blank, each
    stripped and formatted on its own (heading, list item, or the line
    itself), in the same order.  The loop state only decides where empty
    lines go. *)
Theorem beautify_line_local (text : str) :
  filter nonempty (splitlines (beautify_structure text)) =
  map format_line (text_lines text).
Proof. apply beautify_structure_kept. Qed.

(** X7: [beautify_structure] returns the empty string exactly for the
    texts made of white space only. *)
Theorem blank_document (text : str) :
  beautify_structure text = [] <-> forallb isspace text = true.
Proof.
  pose proof (beautify_structure_blank text) as H. split.
  - intros E. rewrite E in H. cbn [nonempty] in H.
    now destruct (forallb isspace text).
  - intros E. rewrite E in H. now apply nonempty_false.
Qed.

(** ** Lists and the text around them *)

Lemma classify_cases l :
  match classify l with
  | Part => exists m, re_match p_part l = Some m
  | Article =>
      re_match p_part l = None /\ exists m, re_match p_article l = Some m
  | SubItem =>
      re_match p_part l = None /\ re_match p_article l = None /\
      exists m, re_match p_sub l = Some m
  | NumberedItem =>
      re_match p_part l = None /\ re_match p_article l = None /\
      re_match p_sub l = None /\ exists m, re_match p_num_item l = Some m
  | Plain =>
      re_match p_part l = None /\ re_match p_article l = None /\
      re_match p_sub l = None /\ re_match p_num_item l = None
  end.
Proof.
  unfold classify, matches.
  destruct (re_match p_part l) as [m1|]; [now exists m1|].
  destruct (re_match p_article l) as [m2|]; [split; [reflexivity|now exists m2]|].
  destruct (re_match p_sub l) as [m3|];
    [split; [reflexivity|split; [reflexivity|now exists m3]]|].
  destruct (re_match p_num_item l) as [m4|]; repeat split; now exists m4.
Qed.

Lemma empty_not_item : re_match p_num_item [] = None.
Proof. vm_compute. reflexivity. Qed.

Lemma item_step (out : list str) flag (raw : str) :
  unbroken raw -> classify (strip raw) = NumberedItem ->
  beautify_line (out, flag) raw =
  (before_item out flag ++ [format_line (strip raw)], false)
  /\ item_line (format_line (strip raw)).
Proof.
  intros Hraw Hc. destruct (strip_tidy _ Hraw) as [Ht Hu].
  pose proof (classify_cases (strip raw)) as H. rewrite Hc in H.
  destruct H as (P1 & P2 & P3 & m & P4).
  unfold format_line. rewrite P1, P2, P3, P4. split.
  - destruct (beautify_line_case out flag raw)
      as [Hb|m' Hn E1|m' Hn E1 E2|m' Hn E1 E2 E3|m' Hn E1 E2 E3 E4
         |Hn E1 E2 E3 E4]; try congruence.
    apply nonempty_false in Hb. rewrite Hb, empty_not_item in P4.
    discriminate P4.
  - now apply (item_text_line (strip raw)).
Qed.

Lemma plain_step (out : list str) flag (raw : str) :
  unbroken raw -> nonempty (strip raw) = true ->
  classify (strip raw) = Plain ->
  beautify_line (out, flag) raw = (before_para out raw ++ [strip raw], false)
  /\ para_line (strip raw)
  /\ format_line (strip raw) = strip raw.
Proof.
  intros Hraw Hne Hc. destruct (strip_tidy _ Hraw) as [[Ht _] Hu].
  pose proof (classify_cases (strip raw)) as H. rewrite Hc in H.
  destruct H as (P1 & P2 & P3 & P4).
  unfold format_line. rewrite P1, P2, P3, P4. split; [|split].
  - destruct (beautify_line_case out flag raw)
      as [Hb|m' Hn E1|m' Hn E1 E2|m' Hn E1 E2 E3|m' Hn E1 E2 E3 E4
         |Hn E1 E2 E3 E4]; congruence.
  - repeat split; try assumption; try apply Ht. now apply nonempty_true.
  - reflexivity.
Qed.

Lemma two_lines (a b : str) :
  unbroken a -> unbroken b -> nonempty (strip b) = true ->
  beautify_structure (a ++ NL :: b) =
  join [NL]
    (final_lines
       (fst (beautify_line (beautify_line ([], false) a) b))).
Proof.
  intros Ha Hb Hne. rewrite beautify_structure_lines.
  rewrite splitlines_app_nl by assumption.
  rewrite splitlines_single; [reflexivity| |assumption].
  intros ->. discriminate Hne.
Qed.

Lemma final_lines_solid_last (out : list str) (l : str) :
  nonempty l = true -> final_lines (out ++ [l]) = out ++ [l].
Proof.
  intros H. apply final_lines_fixed. right. now rewrite last_nonblank_snoc.
Qed.

Lemma last_nonblank_single (l : str) : last_nonblank [l] = nonempty l.
Proof. apply (last_nonblank_snoc [] l). Qed.

Lemma item_nonempty (raw : str) :
  classify (strip raw) = NumberedItem -> nonempty (strip raw) = true.
Proof.
  intros Hc. pose proof (classify_cases (strip raw)) as H. rewrite Hc in H.
  destruct H as (_ & _ & _ & m & P4).
  destruct (strip raw); [|reflexivity].
  rewrite empty_not_item in P4. discriminate P4.
Qed.

Lemma text_then_item (a b : str) :
  unbroken a -> unbroken b ->
  nonempty (strip a) = true -> classify (strip a) = Plain ->
  classify (strip b) = NumberedItem ->
  beautify_structure (a ++ NL :: b) =
  strip a ++ [NL; NL] ++ format_line (strip b).
Proof.
  intros Ha Hb Hne Hca Hcb.
  rewrite two_lines by (assumption || now apply item_nonempty).
  destruct (plain_step [] false a Ha Hne Hca) as (-> & Hpa & _).
  destruct (item_step (before_para [] a ++ [strip a]) false b Hb Hcb)
    as (-> & Hib).
  cbn [fst]. unfold before_para at 1. cbn [nonempty andb app].
  unfold before_item. rewrite last_nonblank_single, Hne.
  cbn [last negb andb]. rewrite (para_not_item _ Hpa). cbn [negb].
  change ((([strip a] ++ [[]]) ++ [format_line (strip b)]))
    with ([strip a; []] ++ [format_line (strip b)]).
  rewrite final_lines_solid_last
    by now apply solid_nonempty, item_solid.
  cbn [app]. rewrite !join_cons2, join_single. reflexivity.
Qed.

Lemma item_then_item (a b : str) :
  unbroken a -> unbroken b ->
  classify (strip a) = NumberedItem -> classify (strip b) = NumberedItem ->
  beautify_structure (a ++ NL :: b) =
  format_line (strip a) ++ [NL] ++ format_line (strip b).
Proof.
  intros Ha Hb Hca Hcb.
  rewrite two_lines by (assumption || now apply item_nonempty).
  destruct (item_step [] false a Ha Hca) as (-> & Hia).
  destruct (item_step (before_item [] false ++ [format_line (strip a)])
              false b Hb Hcb) as (-> & Hib).
  cbn [fst]. unfold before_item at 2. rewrite last_nonblank_nil.
  cbn [andb app]. unfold before_item. rewrite last_nonblank_single.
  cbn [last].
  destruct (item_reread _ Hia) as (_ & _ & _ & _ & ->).
  cbn [negb]. rewrite !andb_false_r.
  change ([format_line (strip a)] ++ [format_line (strip b)])
    with ([format_line (strip a)] ++ [format_line (strip b)]).
  rewrite final_lines_solid_last
    by now apply solid_nonempty, item_solid.
  cbn [app]. rewrite join_cons2, join_single. reflexivity.
Qed.

Lemma item_then_text (a b : str) :
  unbroken a -> unbroken b ->
  classify (strip a) = NumberedItem ->
  nonempty (strip b) = true -> classify (strip b) = Plain ->
  beautify_structure (a ++ NL :: b) =
  format_line (strip a)
  ++ (if matches leading_space b then [NL] else [NL; NL]) ++ strip b.
Proof.
  intros Ha Hb Hca Hne Hcb.
  rewrite two_lines by assumption.
  destruct (item_step [] false a Ha Hca) as (-> & Hia).
  destruct (plain_step (before_item [] false ++ [format_line (strip a)])
              false b Hb Hne Hcb) as (-> & Hpb & _).
  cbn [fst]. unfold before_item. rewrite last_nonblank_nil.
  cbn [andb app]. unfold before_para. cbn [nonempty last andb].
  destruct (item_reread _ Hia) as (_ & _ & _ & _ & ->). cbn [andb].
  destruct (matches leading_space b); cbn [negb].
  - rewrite final_lines_solid_last by assumption.
    cbn [app]. rewrite join_cons2, join_single. reflexivity.
  - change (([format_line (strip a)] ++ [[]]) ++ [strip b])
      with ([format_line (strip a); []] ++ [strip b]).
    rewrite final_lines_solid_last by assumption.
    cbn [app]. rewrite !join_cons2, join_single. reflexivity.
Qed.

(** X23: numbered lists and the text around them.  For two lines of input,
    the renderer puts one empty line between a plain text line and a
    numbered item that follows it, none between two numbered items, and one
    empty line between a numbered item and a plain text line that follows
    it, unless that line starts with white space: an indented line is kept
    directly under the item. *)
Theorem list_spacing (a b : str) :
  unbroken a -> unbroken b ->
  (nonempty (strip a) = true -> classify (strip a) = Plain ->
   classify (strip b) = NumberedItem ->
   beautify_structure (a ++ NL :: b) =
   strip a ++ [NL; NL] ++ format_line (strip b))
  /\ (classify (strip a) = NumberedItem ->
      classify (strip b) = NumberedItem ->
      beautify_structure (a ++ NL :: b) =
      format_line (strip a) ++ [NL] ++ format_line (strip b))
  /\ (classify (strip a) = NumberedItem ->
      nonempty (strip b) = true -> classify (strip b) = Plain ->
      beautify_structure (a ++ NL :: b) =
      format_line (strip a)
      ++ (if matches leading_space b then [NL] else [NL; NL]) ++ strip b).
Proof.
  intros Ha Hb. split; [|split]; intros.
  - now apply text_then_item.
  - now apply item_then_item.
  - now apply item_then_text.
Qed.

Lemma list_spacing_witness :
  unbroken (u "1.機關") /\ unbroken (u " 續行")
  /\ beautify_structure (u "1.機關" ++ NL :: u " 續行") =
     u "1. 機關" ++ [NL] ++ u "續行"
  /\ beautify_structure (u "1.機關" ++ NL :: u "2.廠商") =
     u "1. 機關" ++ [NL] ++ u "2. 廠商".
Proof.
  assert (Ha : unbroken (u "1.機關")) by now apply unbroken_literal.
  assert (Hb : unbroken (u " 續行")) by now apply unbroken_literal.
  assert (Hc : unbroken (u "2.廠商")) by now apply unbroken_literal.
  split; [exact Ha|]. split; [exact Hb|]. split.
  - destruct (list_spacing (u "1.機關") (u " 續行") Ha Hb) as (_ & _ & H).
    rewrite H; vm_compute; reflexivity.
  - destruct (list_spacing (u "1.機關") (u "2.廠商") Ha Hc) as (_ & H & _).
    rewrite H; vm_compute; reflexivity.
Defined.

(** ** Headings and the text around them *)

Lemma empty_is_plain : classify [] = Plain.
Proof. vm_compute. reflexivity. Qed.

Lemma heading_nonempty (l : str) :
  is_heading_level (classify l) = true -> nonempty l = true.
Proof.
  destruct l; [|reflexivity]. rewrite empty_is_plain. discriminate.
Qed.

Lemma heading_step (out : list str) flag (raw : str) :
  unbroken raw -> is_heading_level (classify (strip raw)) = true ->
  beautify_line (out, flag) raw =
  (ensure_blank out ++ [format_line (strip raw); []], true)
  /\ nonempty (format_line (strip raw)) = true.
Proof.
  intros Hraw Hc. destruct (strip_tidy _ Hraw) as [Ht Hu].
  pose proof (heading_nonempty _ Hc) as Hne. unfold format_line.
  destruct (beautify_line_case out flag raw)
    as [Hb|m' Hn E1|m' Hn E1 E2|m' Hn E1 E2 E3|m' Hn E1 E2 E3 E4
       |Hn E1 E2 E3 E4]; try congruence.
  - rewrite E1. split; [reflexivity|].
    apply solid_nonempty, heading_solid.
    now apply (part_heading_line (strip raw)).
  - rewrite E1, E2. split; [reflexivity|].
    apply solid_nonempty, heading_solid.
    now apply (article_heading_line (strip raw)).
  - rewrite E1, E2, E3. split; [reflexivity|].
    apply solid_nonempty, heading_solid.
    now apply (sub_heading_is_line (strip raw)).
  - rewrite (classify_item _ _ E1 E2 E3 E4) in Hc. discriminate Hc.
  - rewrite (classify_plain _ E1 E2 E3 E4) in Hc. discriminate Hc.
Qed.

(** What a line that is not blank appends, whatever its level: possibly an
    empty line, the formatted line, and an empty line again behind a
    heading. *)
Lemma line_step (out : list str) flag (raw : str) :
  unbroken raw -> nonempty (strip raw) = true ->
  nonempty (format_line (strip raw)) = true /\
  exists (sep : bool),
    beautify_line (out, flag) raw =
    ((if sep then out ++ [[]] else out)
     ++ format_line (strip raw)
        :: (if is_heading_level (classify (strip raw)) then [[]] else []),
     is_heading_level (classify (strip raw)))
    /\ (is_heading_level (classify (strip raw)) = true ->
        sep = last_nonblank out)
    /\ (last_nonblank out = false -> sep = false).
Proof.
  intros Hraw Hne.
  destruct (is_heading_level (classify (strip raw))) eqn:Hh.
  - destruct (heading_step out flag raw Hraw Hh) as (-> & Hf).
    split; [assumption|]. exists (last_nonblank out).
    split; [reflexivity|]. split; [reflexivity|]. now intros ->.
  - destruct (classify (strip raw)) eqn:Hc; try discriminate Hh.
    + destruct (item_step out flag raw Hraw Hc) as (-> & Hi).
      split; [now apply solid_nonempty, item_solid|].
      unfold before_item.
      exists (last_nonblank out && negb flag
              && negb (matches list_item_start (last out []))).
      split; [reflexivity|]. split; [discriminate|]. now intros ->.
    + destruct (plain_step out flag raw Hraw Hne Hc) as (-> & Hp & ->).
      split; [assumption|]. unfold before_para.
      exists (nonempty out && matches list_item_start (last out [])
              && negb (matches leading_space raw)).
      split; [reflexivity|]. split; [discriminate|].
      unfold last_nonblank. intros Hl.
      destruct (nonempty out); [|reflexivity]. cbn [andb] in *.
      apply negb_false_iff, str_eqb_eq in Hl. rewrite Hl.
      now rewrite matches_item_nil.
Qed.

Lemma final_lines_blank_last (out : list str) :
  final_lines (out ++ [[]]) = out.
Proof.
  unfold final_lines. rewrite last_nonblank_snoc. cbn [nonempty].
  apply removelast_last.
Qed.

Lemma heading_then_line (a b : str) :
  unbroken a -> unbroken b ->
  is_heading_level (classify (strip a)) = true ->
  nonempty (strip b) = true ->
  beautify_structure (a ++ NL :: b) =
  format_line (strip a) ++ [NL; NL] ++ format_line (strip b).
Proof.
  intros Ha Hb Hca Hne. rewrite two_lines by assumption.
  destruct (heading_step [] false a Ha Hca) as (-> & Hfa).
  unfold ensure_blank at 1. rewrite last_nonblank_nil. cbn [app].
  destruct (line_step [format_line (strip a); []] true b Hb Hne)
    as (Hfb & sep & -> & _ & Hsep).
  rewrite Hsep by apply (last_nonblank_snoc [format_line (strip a)] []).
  cbn [fst app].
  destruct (is_heading_level (classify (strip b))).
  - change [format_line (strip a); []; format_line (strip b); []]
      with ([format_line (strip a); []; format_line (strip b)] ++ [[]]).
    rewrite final_lines_blank_last.
    rewrite !join_cons2, join_single. reflexivity.
  - change [format_line (strip a); []; format_line (strip b)]
      with ([format_line (strip a); []] ++ [format_line (strip b)]).
    rewrite final_lines_solid_last by assumption.
    cbn [app]. rewrite !join_cons2, join_single. reflexivity.
Qed.

Lemma line_then_heading (a b : str) :
  unbroken a -> unbroken b ->
  nonempty (strip a) = true ->
  is_heading_level (classify (strip b)) = true ->
  beautify_structure (a ++ NL :: b) =
  format_line (strip a) ++ [NL; NL] ++ format_line (strip b).
Proof.
  intros Ha Hb Hne Hcb.
  destruct (is_heading_level (classify (strip a))) eqn:Hca.
  { apply heading_then_line; try assumption. now apply heading_nonempty. }
  rewrite two_lines by (assumption || now apply heading_nonempty).
  destruct (line_step [] false a Ha Hne) as (Hfa & sep & -> & _ & Hsep).
  rewrite Hsep by apply last_nonblank_nil. rewrite Hca. cbn [app].
  destruct (heading_step [format_line (strip a)] false b Hb Hcb)
    as (-> & Hfb).
  cbn [fst]. unfold ensure_blank. rewrite last_nonblank_single, Hfa.
  change (([format_line (strip a)] ++ [[]]) ++ [format_line (strip b); []])
    with ([format_line (strip a); []; format_line (strip b)] ++ [[]]).
  rewrite final_lines_blank_last.
  rewrite !join_cons2, join_single. reflexivity.
Qed.

Lemma text_then_text (a b : str) :
  unbroken a -> unbroken b ->
  nonempty (strip a) = true -> classify (strip a) = Plain ->
  nonempty (strip b) = true -> classify (strip b) = Plain ->
  beautify_structure (a ++ NL :: b) = strip a ++ [NL] ++ strip b.
Proof.
  intros Ha Hb Hna Hca Hnb Hcb. rewrite two_lines by assumption.
  destruct (plain_step [] false a Ha Hna Hca) as (-> & Hpa & _).
  destruct (plain_step (before_para [] a ++ [strip a]) false b Hb Hnb Hcb)
    as (-> & Hpb & _).
  cbn [fst]. unfold before_para at 2. cbn [nonempty andb app].
  unfold before_para. cbn [nonempty last andb].
  rewrite (para_not_item _ Hpa). cbn [andb].
  rewrite final_lines_solid_last by assumption.
  cbn [app]. rewrite join_cons2, join_single. reflexivity.
Qed.

(** X25: headings and the text around them.  For two lines of input that
    are not blank, the renderer puts exactly one empty line between them
    whenever one of the two is a heading (Part, Article or Sub-item), and
    none between two plain text lines. *)
Theorem heading_spacing (a b : str) :
  unbroken a -> unbroken b ->
  nonempty (strip a) = true -> nonempty (strip b) = true ->
  (is_heading_level (classify (strip a))
   || is_heading_level (classify (strip b)) = true ->
   beautify_structure (a ++ NL :: b) =
   format_line (strip a) ++ [NL; NL] ++ format_line (strip b))
  /\ (classify (strip a) = Plain -> classify (strip b) = Plain ->
      beautify_structure (a ++ NL :: b) = strip a ++ [NL] ++ strip b).
Proof.
  intros Ha Hb Hna Hnb. split.
  - intros H. apply orb_true_iff in H. destruct H as [H|H].
    + now apply heading_then_line.
    + now apply line_then_heading.
  - intros Hca Hcb. now apply text_then_text.
Qed.

Lemma heading_spacing_witness :
  unbroken (u "前言") /\ unbroken (u "(一)適用範圍")
  /\ nonempty (strip (u "前言")) = true
  /\ nonempty (strip (u "(一)適用範圍")) = true
  /\ beautify_structure (u "前言" ++ NL :: u "(一)適用範圍") =
     u "前言" ++ [NL; NL] ++ u "### （一）適用範圍".
Proof.
  assert (Ha : unbroken (u "前言")) by now apply unbroken_literal.
  assert (Hb : unbroken (u "(一)適用範圍")) by now apply unbroken_literal.
  split; [exact Ha|]. split; [exact Hb|].
  split; [vm_compute; reflexivity|]. split; [vm_compute; reflexivity|].
  destruct (heading_spacing (u "前言") (u "(一)適用範圍") Ha Hb) as (H & _);
    [vm_compute; reflexivity..|].
  rewrite H; vm_compute; reflexivity.
Defined.

(** ** Blank lines between two lines *)

Lemma blank_step (out : list str) flag (raw : str) :
  is_blank raw = true ->
  beautify_line (out, flag) raw = (ensure_blank out, false).
Proof.
  intros Hb.
  assert (Hne : nonempty (strip raw) = false).
  { rewrite strip_nonempty. unfold is_blank in Hb. now rewrite Hb. }
  destruct (beautify_line_case out flag raw)
    as [_|m' Hn E1|m' Hn E1 E2|m' Hn E1 E2 E3|m' Hn E1 E2 E3 E4
       |Hn E1 E2 E3 E4]; congruence.
Qed.

Lemma ensure_blank_again (out : list str) :
  ensure_blank (ensure_blank out) = ensure_blank out.
Proof.
  unfold ensure_blank. destruct (last_nonblank out) eqn:E.
  - now rewrite last_nonblank_snoc.
  - now rewrite E.
Qed.

Lemma blank_fold blanks : forall (out : list str) flag,
  blanks <> [] -> Forall (fun l => is_blank l = true) blanks ->
  fold_left beautify_line blanks (out, flag) = (ensure_blank out, false).
Proof.
  induction blanks as [|l blanks IH]; intros out flag Hne H; [congruence|].
  inversion H as [|? ? Hl Hrest]; subst. cbn [fold_left].
  rewrite (blank_step out flag l Hl).
  destruct blanks as [|l' blanks]; [reflexivity|].
  rewrite IH by (discriminate || assumption).
  now rewrite ensure_blank_again.
Qed.

Lemma last_nonblank_pair (l : str) : last_nonblank [l; []] = false.
Proof. apply (last_nonblank_snoc [l] []). Qed.

(** X26: any number of blank lines between two lines of input that are not
    blank leaves exactly one empty line between the two rendered lines,
    whatever their levels. *)
Theorem blank_lines_between (a b : str) (blanks : list str) :
  unbroken a -> unbroken b ->
  nonempty (strip a) = true -> nonempty (strip b) = true ->
  blanks <> [] ->
  Forall (fun l => unbroken l /\ is_blank l = true) blanks ->
  beautify_structure (join [NL] (a :: blanks ++ [b])) =
  format_line (strip a) ++ [NL; NL] ++ format_line (strip b).
Proof.
  intros Ha Hb Hna Hnb Hne Hblanks.
  assert (Hu : Forall unbroken (a :: blanks ++ [b])).
  { constructor; [assumption|]. apply Forall_app. split.
    - eapply Forall_impl; [|exact Hblanks]. now intros l [H _].
    - now constructor. }
  assert (Hbl : Forall (fun l => is_blank l = true) blanks).
  { eapply Forall_impl; [|exact Hblanks]. now intros l [_ H]. }
  rewrite beautify_structure_lines, splitlines_join; [|assumption|].
  2: { change (a :: blanks ++ [b]) with ((a :: blanks) ++ [b]).
       rewrite last_last. intros ->. discriminate Hnb. }
  unfold beautify_lines. cbn [fold_left]. rewrite fold_left_app.
  destruct (line_step [] false a Ha Hna) as (Hfa & sep & -> & _ & Hsep).
  rewrite Hsep by apply last_nonblank_nil. cbn [app].
  rewrite (blank_fold blanks _ _ Hne Hbl). cbn [fold_left].
  assert (E : ensure_blank
                (format_line (strip a)
                 :: (if is_heading_level (classify (strip a))
                     then [[]] else [])) = [format_line (strip a); []]).
  { unfold ensure_blank. destruct (is_heading_level (classify (strip a))).
    - now rewrite last_nonblank_pair.
    - now rewrite last_nonblank_single, Hfa. }
  rewrite E.
  destruct (line_step [format_line (strip a); []] false b Hb Hnb)
    as (Hfb & sep' & -> & _ & Hsep').
  rewrite Hsep' by apply (last_nonblank_snoc [format_line (strip a)] []).
  cbn [fst app].
  destruct (is_heading_level (classify (strip b))).
  - change [format_line (strip a); []; format_line (strip b); []]
      with ([format_line (strip a); []; format_line (strip b)] ++ [[]]).
    rewrite final_lines_blank_last.
    rewrite !join_cons2, join_single. reflexivity.
  - change [format_line (strip a); []; format_line (strip b)]
      with ([format_line (strip a); []] ++ [format_line (strip b)]).
    rewrite final_lines_solid_last by assumption.
    cbn [app]. rewrite !join_cons2, join_single. reflexivity.
Qed.

Lemma blank_lines_between_witness :
  beautify_structure (join [NL] (u "1.機關" :: [[]; u "  "; []] ++ [u "2.廠商"]))
  = u "1. 機關" ++ [NL; NL] ++ u "2. 廠商".
Proof.
  transitivity (format_line (strip (u "1.機關")) ++ [NL; NL]
                ++ format_line (strip (u "2.廠商")));
    [|vm_compute; reflexivity].
  apply (blank_lines_between (u "1.機關") (u "2.廠商") [[]; u "  "; []]).
  - now apply unbroken_literal.
  - now apply unbroken_literal.
  - vm_compute. reflexivity.
  - vm_compute. reflexivity.
  - discriminate.
  - repeat constructor; now apply unbroken_literal.
Defined.

(** ** converters/docx_to_json.py and docx_to_json.py *)

(** X8: the tree loses nothing and adds nothing: its headings,
    sub-headings and content lines, read in traversal order with the two
    sentinel names left out, are the [content] list of the flat dump, that
    is, the stripped non-empty paragraphs in their order. *)
Theorem tree_flatten (paragraphs : list str) :
  tree_units (tree_sections paragraphs) = docx_to_json paragraphs.
Proof. apply tree_units_sections. Qed.

(** X9: the section headings of the tree other than the sentinel are the
    paragraphs that match the main heading pattern, in order, and the
    sub-headings other than the sentinel are the paragraphs that match the
    sub-heading pattern and not the main one. *)
Theorem section_headings (paragraphs : list str) :
  named_sections (tree_sections paragraphs) =
  filter (matches main_heading_pattern) (docx_to_json paragraphs)
  /\ flat_map named_subs (tree_sections paragraphs) =
     filter is_sub_heading (docx_to_json paragraphs).
Proof. apply headings_sections. Qed.

(** X10: a main heading starts the tree afresh: the tree of a paragraph
    list is the tree of the paragraphs before a main heading followed by
    the tree of the paragraphs from that heading on. *)
Theorem main_heading_splits (paragraphs : list str) (para : str)
    (rest : list str) :
  matches main_heading_pattern (strip para) = true ->
  tree_sections (paragraphs ++ para :: rest) =
  tree_sections paragraphs ++ tree_sections (para :: rest).
Proof. apply tree_sections_main. Qed.

Lemma main_heading_splits_witness :
  matches main_heading_pattern (strip (u " 二、權責 ")) = true
  /\ tree_sections ([u "前言"; u "(一) 甲"] ++ u " 二、權責 " :: [u "內容"]) =
     tree_sections [u "前言"; u "(一) 甲"]
     ++ tree_sections (u " 二、權責 " :: [u "內容"]).
Proof.
  split; [vm_compute; reflexivity|].
  apply (main_heading_splits [u "前言"; u "(一) 甲"] (u " 二、權責 ")
           [u "內容"]).
  vm_compute. reflexivity.
Defined.

(** X11: sentinels stand first.  Every section of the tree behind the
    first one was opened by a main heading, so only the first section can
    be the sentinel section; in every section, every sub-section behind the
    first one was opened by a sub-heading, so only the first sub-section
    can be the sentinel one. *)
Theorem sentinels_first (paragraphs : list str) :
  Forall headed (tl (tree_sections paragraphs))
  /\ Forall subs_in_place (tree_sections paragraphs)
  /\ (forall sec, In sec (tl (tree_sections paragraphs)) ->
        str_eqb (heading sec) FRONT = false)
  /\ (forall sec sub,
        In sec (tree_sections paragraphs) -> In sub (tl (sub_sections sec)) ->
        str_eqb (sub_heading sub) BODY = false).
Proof.
  destruct (tree_sections_in_place paragraphs) as [H1 H2].
  split; [assumption|]. split; [assumption|]. split.
  - intros sec Hin. rewrite Forall_forall in H1.
    now apply main_heading_named, H1.
  - intros sec sub Hsec Hsub. rewrite Forall_forall in H2.
    specialize (H2 sec Hsec). unfold subs_in_place in H2.
    rewrite Forall_forall in H2. now apply sub_heading_named, H2.
Qed.

(** X12: the tree can be built from the flat dump as well: on the
    [content] list of [docx_to_json] the tree builder returns the tree of
    the paragraphs themselves. *)
Theorem tree_of_flat_dump (paragraphs : list str) :
  tree_sections (docx_to_json paragraphs) = tree_sections paragraphs.
Proof. unfold tree_sections. now rewrite tree_fold_flat. Qed.

(** X13: the [content] list of the flat dump is clean: dumping it again
    returns it unchanged, and the dump of two paragraph lists in a row is
    the two dumps in a row. *)
Theorem flat_dump_fixed (paragraphs more : list str) :
  docx_to_json (docx_to_json paragraphs) = docx_to_json paragraphs
  /\ docx_to_json (paragraphs ++ more) =
     docx_to_json paragraphs ++ docx_to_json more.
Proof. split; [apply docx_to_json_again|apply docx_to_json_app]. Qed.

(** ** File names and titles *)

(** X14: a file name the two JSON converters accept (it ends in ".docx"
    and does not start with "~") is given an output name that ends in
    ".json", differs from the file name, and is not accepted as an input
    itself: no source file is overwritten, and no output is read again. *)
Theorem json_name_docx (filename : str) :
  is_docx filename = true ->
  ends_with (u ".json") (json_name filename) = true
  /\ str_eqb (json_name filename) filename = false
  /\ is_docx (json_name filename) = false.
Proof.
  unfold is_docx. intros H. apply andb_true_iff in H. destruct H as [H _].
  destruct (ends_with_split _ _ H) as [stem ->]. unfold json_name.
  rewrite (replace_app_docx _ _ stem (Nat.le_refl _)).
  split; [apply ends_with_app|].
  assert (Ej : u ".json" = [46; 106; 115; 111] ++ [110])
    by (vm_compute; reflexivity).
  assert (Ed : u ".docx" = [46; 100; 111; 99] ++ [120])
    by (vm_compute; reflexivity).
  split.
  - rewrite Ej, Ed at 2. rewrite !app_assoc. now apply differ_at_end.
  - replace (ends_with (u ".docx") (replace (u ".docx") (u ".json") stem
                                      ++ u ".json")) with false; [reflexivity|].
    symmetry. unfold ends_with. rewrite rev_app_distr.
    rewrite Ej, Ed. reflexivity.
Qed.

Lemma json_name_docx_witness :
  is_docx (u "採購規定.docx") = true
  /\ ends_with (u ".json") (json_name (u "採購規定.docx")) = true
  /\ str_eqb (json_name (u "採購規定.docx")) (u "採購規定.docx") = false
  /\ is_docx (json_name (u "採購規定.docx")) = false.
Proof.
  split; [vm_compute; reflexivity|].
  apply (json_name_docx (u "採購規定.docx")). vm_compute. reflexivity.
Defined.

(** X15: for a file name [stem ++ ".docx"] in which ".docx" does not occur
    inside the stem, the output names are the stem with the new extension:
    [stem ++ ".json"] for the JSON converters and [stem ++ ".md"] for the
    Markdown converter. *)
Theorem single_docx_name (stem : str) :
  occurs (u ".docx") stem = false ->
  json_name (stem ++ u ".docx") = stem ++ u ".json"
  /\ md_name (stem ++ u ".docx") = stem ++ u ".md".
Proof.
  intros H. unfold json_name, md_name.
  rewrite !(replace_app_docx _ _ stem (Nat.le_refl _)).
  now rewrite !(replace_absent _ _ _ H).
Qed.

Lemma single_docx_name_witness :
  occurs (u ".docx") (u "v1.2 採購規定") = false
  /\ json_name (u "v1.2 採購規定" ++ u ".docx") = u "v1.2 採購規定" ++ u ".json"
  /\ md_name (u "v1.2 採購規定" ++ u ".docx") = u "v1.2 採購規定" ++ u ".md".
Proof.
  split; [vm_compute; reflexivity|].
  apply (single_docx_name (u "v1.2 採購規定")). vm_compute. reflexivity.
Defined.

(** X16: for a file name [stem ++ ".docx"] whose stem holds no "/" and at
    least one character other than ".", the title [add_metadata] writes
    into the front matter is the stem, the source is the whole file name,
    and the body follows stripped and ended by one newline. *)
Theorem title_of_docx (stem body : str) :
  forallb (fun c => negb (c =? chr "/")) stem = true ->
  existsb (fun c => negb (c =? chr ".")) stem = true ->
  add_metadata (stem ++ u ".docx") body =
  u "---" ++ [NL] ++ u "source: " ++ (stem ++ u ".docx") ++ [NL] ++
  u "title: " ++ stem ++ [NL] ++ u "type: regulation" ++ [NL] ++
  u "---" ++ [NL] ++ [NL] ++ strip body ++ [NL].
Proof.
  intros Hsep Hdot. unfold add_metadata, metadata_header.
  rewrite (splitext_root_docx stem Hsep Hdot).
  now rewrite <- !app_assoc.
Qed.

Lemma title_of_docx_witness :
  forallb (fun c => negb (c =? chr "/")) (u "v1.2 採購規定") = true
  /\ existsb (fun c => negb (c =? chr ".")) (u "v1.2 採購規定") = true
  /\ add_metadata (u "v1.2 採購規定" ++ u ".docx") (u " 一、目的 ") =
     u "---" ++ [NL] ++ u "source: " ++ (u "v1.2 採購規定" ++ u ".docx")
     ++ [NL] ++ u "title: " ++ u "v1.2 採購規定" ++ [NL] ++
     u "type: regulation" ++ [NL] ++ u "---" ++ [NL] ++ [NL] ++
     strip (u " 一、目的 ") ++ [NL].
Proof.
  split; [vm_compute; reflexivity|]. split; [vm_compute; reflexivity|].
  apply (title_of_docx (u "v1.2 採購規定") (u " 一、目的 "));
    vm_compute; reflexivity.
Defined.

(** ** The extension, in upper and in lower case *)

Lemma lower_from_app fs whole a : forall i b,
  lower_from fs whole i (a ++ b) =
  lower_from fs whole i a ++ lower_from fs whole (i + length a) b.
Proof.
  induction a as [|c a IH]; intros i b.
  - cbn [app lower_from length]. now rewrite Nat.add_0_r.
  - cbn [app lower_from length]. rewrite IH, <- app_assoc.
    do 3 f_equal. lia.
Qed.

Lemma two_cases (c x y : N) :
  in_set [x; y] c = true -> c = x \/ c = y.
Proof.
  unfold in_set. cbn [existsb]. rewrite orb_false_r. intros H.
  apply orb_true_iff in H. destruct H as [H|H]; apply N.eqb_eq in H; auto.
Qed.

Lemma docx_variant_cases ext :
  docx_variant ext = true ->
  exists d o c x,
    ext = [46; d; o; c; x] /\ (d = 100 \/ d = 68) /\ (o = 111 \/ o = 79)
    /\ (c = 99 \/ c = 67) /\ (x = 120 \/ x = 88).
Proof.
  unfold docx_variant.
  destruct ext as [|p [|d [|o [|c [|x [|z ext]]]]]]; try discriminate.
  intros H. repeat (apply andb_true_iff in H; destruct H as [H ?]).
  apply N.eqb_eq in H. subst p. exists d, o, c, x.
  split; [reflexivity|].
  repeat split; now apply two_cases.
Qed.

Lemma lower_from_variant fs whole i ext :
  docx_variant ext = true -> lower_from fs whole i ext = u ".docx".
Proof.
  intros H. destruct (docx_variant_cases ext H)
    as (d & o & c & x & -> & [-> | ->] & [-> | ->] & [-> | ->] & [-> | ->]);
    vm_compute; reflexivity.
Qed.

Lemma variant_absent stem ext :
  docx_variant ext = true -> str_eqb ext (u ".docx") = false ->
  occurs (u ".docx") stem = false ->
  occurs (u ".docx") (stem ++ ext) = false.
Proof.
  intros Hv Hne. destruct (docx_variant_cases ext Hv)
    as (d & o & c & x & -> & Hd & Ho & Hc & Hx).
  rewrite docx_chars in *.
  assert (Hext : occurs [46; 100; 111; 99; 120] [46; d; o; c; x] = false).
  { cbn [occurs starts_with]. cbn [str_eqb] in Hne.
    rewrite !andb_true_r in *. rewrite !andb_false_r.
    rewrite (N.eqb_sym 100 d), (N.eqb_sym 111 o), (N.eqb_sym 99 c),
      (N.eqb_sym 120 x). cbn [N.eqb Pos.eqb andb] in *. rewrite Hne.
    destruct Hd as [-> | ->], Ho as [-> | ->], Hc as [-> | ->],
      Hx as [-> | ->]; reflexivity. }
  induction stem as [|t stem IH]; intros Hs; [exact Hext|].
  cbn [occurs] in Hs. apply orb_false_iff in Hs. destruct Hs as [Ht Hs].
  cbn [app occurs]. rewrite (IH Hs), orb_false_r.
  destruct (starts_with [46; 100; 111; 99; 120] (t :: stem ++ [46; d; o; c; x]))
    eqn:E; [|reflexivity].
  exfalso.
  destruct stem as [|t2 [|t3 [|t4 [|t5 stem]]]]; cbn [app starts_with] in E, Ht;
    repeat match type of E with
    | (?a && ?b) = true =>
        let H1 := fresh in
        apply andb_true_iff in E; destruct E as [H1 E];
        try apply N.eqb_eq in H1
    end; subst;
    try (destruct Hd as [Hd|Hd]; discriminate Hd);
    try (destruct Ho as [Ho|Ho]; discriminate Ho);
    try (destruct Hc as [Hc|Hc]; discriminate Hc);
    try discriminate.
Qed.

(** X24: [convert_all_docx_to_md] tests the extension without regard to
    case and replaces it with regard to case.  A file name that ends in
    ".docx" in any mix of upper and lower case is converted; when the
    extension is not all in lower case (and ".docx" does not occur in the
    stem), the name of the file written is the file name itself, without
    ".md". *)
Theorem extension_case (final_sigma : str -> nat -> bool) (stem ext : str) :
  docx_variant ext = true ->
  is_md_source final_sigma (stem ++ ext) = true
  /\ (str_eqb ext (u ".docx") = false ->
      occurs (u ".docx") stem = false ->
      md_name (stem ++ ext) = stem ++ ext).
Proof.
  intros Hv. split.
  - unfold is_md_source, lower. rewrite lower_from_app.
    rewrite (lower_from_variant _ _ _ _ Hv). apply ends_with_app.
  - intros Hne Hs. unfold md_name. apply replace_absent.
    now apply variant_absent.
Qed.

Lemma extension_case_witness :
  docx_variant (u ".DOCX") = true
  /\ is_md_source (fun _ _ => false) (u "採購規定" ++ u ".DOCX") = true
  /\ md_name (u "採購規定" ++ u ".DOCX") = u "採購規定" ++ u ".DOCX".
Proof.
  split; [vm_compute; reflexivity|].
  destruct (extension_case (fun _ _ => false) (u "採購規定") (u ".DOCX"))
    as [H1 H2]; [vm_compute; reflexivity|].
  split; [exact H1|]. apply H2; vm_compute; reflexivity.
Defined.

(** ** genQA_pair/gen_qa.py: [append_to_output] *)

Lemma append_to_output_spec file new_pairs :
  append_to_output file new_pairs =
  match stored_pairs file with
  | Some old =>
      if encodable (JArr (old ++ new_pairs))
      then (FileOf (JObj [(QA_PAIRS, JArr (old ++ new_pairs))]),
            Some (length (old ++ new_pairs)))
      else (BadFile, None)
  | None => (file, None)
  end.
Proof.
  unfold append_to_output, stored_pairs.
  destruct file as [| |[| | | | | |d]]; try reflexivity.
  destruct (dict_get QA_PAIRS d) as [[| | | | | |m]|]; reflexivity.
Qed.

Lemma stored_pairs_written pairs :
  stored_pairs (FileOf (JObj [(QA_PAIRS, JArr pairs)])) = Some pairs.
Proof.
  unfold stored_pairs. cbn [dict_get]. now rewrite str_eqb_refl.
Qed.

Lemma append_to_output_success file new_pairs file' n :
  append_to_output file new_pairs = (file', Some n) ->
  exists old,
    stored_pairs file = Some old /\
    encodable (JArr (old ++ new_pairs)) = true /\
    file' = FileOf (JObj [(QA_PAIRS, JArr (old ++ new_pairs))]) /\
    n = length (old ++ new_pairs).
Proof.
  rewrite append_to_output_spec.
  destruct (stored_pairs file) as [old|]; [|discriminate].
  destruct (encodable (JArr (old ++ new_pairs))) eqn:E; [|discriminate].
  intros [= <- <-]. now exists old.
Qed.

(** * Further properties of the generator of question-answer pairs *)

(** X17: when the whole response is not valid JSON, [parse_json_response]
    parses the text from the first [{] to the last [}] instead: whatever
    stands in front of the first [{] and behind the last [}] (a code fence,
    an introduction) is ignored, and the result is what [json.loads] makes
    of that text, the [ValueError] included when it rejects it too.  A
    response without any [{] that is not valid JSON raises [ValueError]. *)
Theorem parse_fallback (loads : str -> option json) (raw : str) :
  loads (strip raw) = None ->
  (forall pre mid post,
     raw = pre ++ chr "{" :: mid ++ chr "}" :: post ->
     forallb (fun c => negb (lit "{" c)) pre = true ->
     forallb (fun c => negb (lit "}" c)) post = true ->
     parse_json_response loads raw = loads (chr "{" :: mid ++ [chr "}"]))
  /\ (forallb (fun c => negb (lit "{" c)) raw = true ->
      parse_json_response loads raw = None).
Proof.
  intros Hload. split.
  - intros pre mid post -> Hpre Hpost.
    now apply parse_json_response_fallback.
  - intros Hraw. now apply parse_json_response_no_brace.
Qed.

Lemma parse_fallback_witness :
  (fun s => if str_eqb s (u "{}") then Some (JObj []) else None)
    (strip (u "```json" ++ [NL] ++ u "{}" ++ [NL] ++ u "```")) = None
  /\ parse_json_response
       (fun s => if str_eqb s (u "{}") then Some (JObj []) else None)
       (u "```json" ++ [NL] ++ u "{}" ++ [NL] ++ u "```") = Some (JObj []).
Proof.
  split; [vm_compute; reflexivity|].
  destruct (parse_fallback
              (fun s => if str_eqb s (u "{}") then Some (JObj []) else None)
              (u "```json" ++ [NL] ++ u "{}" ++ [NL] ++ u "```"))
    as [H _]; [vm_compute; reflexivity|].
  rewrite (H (u "```json" ++ [NL]) [] ([NL] ++ u "```"));
    vm_compute; reflexivity.
Defined.

(** X18: [inject_source_document] returns exactly when every pair is a
    [dict] whose ["meta_info"], if it has one, is a [dict]; it then returns
    as many pairs as it was given.  On any other pair the loop raises
    ([AttributeError] or [TypeError]). *)
Theorem inject_source_document_returns (pairs : list json) (doc_name : str) :
  match inject_source_document pairs doc_name with
  | Some out =>
      forallb injectable pairs = true /\ length out = length pairs
  | None => forallb injectable pairs = false
  end.
Proof.
  induction pairs as [|p pairs IH]; [now split|].
  cbn [inject_source_document forallb].
  pose proof (inject_injectable doc_name p) as Hp.
  destruct (inject_pair doc_name p) as [p'|]; rewrite Hp; [|reflexivity].
  cbn [andb].
  destruct (inject_source_document pairs doc_name) as [out|]; [|assumption].
  destruct IH as [IH1 IH2]. split; [assumption|]. cbn [length]. now f_equal.
Qed.

(** X19: in the list [inject_source_document] returns, every pair is the
    pair given with ["meta_info"]["source_document"] set to [doc_name]:
    the other keys of the pair and of its ["meta_info"] keep their values,
    and the keys of the pair keep their order, ["meta_info"] being put last
    when the pair had none. *)
Theorem inject_source_document_fields (pairs : list json) (doc_name : str)
    (out : list json) :
  inject_source_document pairs doc_name = Some out ->
  Forall2
    (fun p p' =>
       exists d d' m',
         p = JObj d /\ p' = JObj d' /\
         dict_get META d' = Some (JObj m') /\
         dict_get SOURCE m' = Some (JStr doc_name) /\
         (forall k, str_eqb k SOURCE = false ->
                    dict_get k m' = dict_get k (meta_fields d)) /\
         (forall k, str_eqb k META = false -> dict_get k d' = dict_get k d) /\
         map fst d' =
         match dict_get META d with
         | Some _ => map fst d
         | None => map fst d ++ [META]
         end)
    pairs out.
Proof.
  revert out. induction pairs as [|p pairs IH]; intros out H.
  - injection H as <-. constructor.
  - cbn [inject_source_document] in H.
    pose proof (inject_injectable doc_name p) as Hp.
    destruct (inject_pair doc_name p) as [p'|] eqn:Ep; [|discriminate].
    destruct (inject_source_document pairs doc_name) as [rest|];
      [|discriminate].
    injection H as <-. constructor; [|now apply IH].
    destruct (inject_pair_injectable doc_name _ Hp) as (d & -> & E).
    rewrite E in Ep. injection Ep as <-.
    exists d, (dict_set META
                 (JObj (dict_set SOURCE (JStr doc_name) (meta_fields d))) d),
           (dict_set SOURCE (JStr doc_name) (meta_fields d)).
    split; [reflexivity|]. split; [reflexivity|].
    split; [apply dict_get_set|]. split; [apply dict_get_set|].
    split; [intros k Hk; now apply dict_get_set_other|].
    split; [intros k Hk; now apply dict_get_set_other|].
    apply dict_set_keys.
Qed.

Lemma inject_source_document_fields_witness :
  inject_source_document
    [JObj [(u "task_type", JStr (u "review"))];
     JObj [(META, JObj [(SOURCE, JStr (u "old")); (u "n", JInt 1)])]]
    (u "規定.md") =
  Some [JObj [(u "task_type", JStr (u "review"));
              (META, JObj [(SOURCE, JStr (u "規定.md"))])];
        JObj [(META, JObj [(SOURCE, JStr (u "規定.md")); (u "n", JInt 1)])]]
  /\ length
       [JObj [(u "task_type", JStr (u "review"));
              (META, JObj [(SOURCE, JStr (u "規定.md"))])];
        JObj [(META, JObj [(SOURCE, JStr (u "規定.md")); (u "n", JInt 1)])]]
     = 2%nat.
Proof.
  split; [vm_compute; reflexivity|].
  apply (Forall2_length
           (inject_source_document_fields
              [JObj [(u "task_type", JStr (u "review"))];
               JObj [(META, JObj [(SOURCE, JStr (u "old")); (u "n", JInt 1)])]]
              (u "規定.md") _ ltac:(vm_compute; reflexivity))).
Defined.

(** X20: the last document name wins: injecting a second name into the
    list returned for a first one gives what injecting the second name into
    the pairs themselves gives.  In particular, injecting the same name
    again changes nothing. *)
Theorem inject_source_document_again (pairs : list json) (d1 d2 : str)
    (out : list json) :
  inject_source_document pairs d1 = Some out ->
  inject_source_document out d2 = inject_source_document pairs d2.
Proof.
  revert out. induction pairs as [|p pairs IH]; intros out H.
  - injection H as <-. reflexivity.
  - cbn [inject_source_document] in H.
    destruct (inject_pair d1 p) as [p'|] eqn:Ep; [|discriminate].
    destruct (inject_source_document pairs d1) as [rest|]; [|discriminate].
    injection H as <-. cbn [inject_source_document].
    now rewrite (inject_pair_again d1 d2 p p' Ep), (IH rest eq_refl).
Qed.

Lemma inject_source_document_again_witness :
  inject_source_document [JObj [(u "task_type", JStr (u "review"))]] (u "a.md")
  = Some [JObj [(u "task_type", JStr (u "review"));
                (META, JObj [(SOURCE, JStr (u "a.md"))])]]
  /\ inject_source_document
       [JObj [(u "task_type", JStr (u "review"));
              (META, JObj [(SOURCE, JStr (u "a.md"))])]] (u "b.md") =
     inject_source_document [JObj [(u "task_type", JStr (u "review"))]]
       (u "b.md").
Proof.
  split; [vm_compute; reflexivity|].
  apply (inject_source_document_again
           [JObj [(u "task_type", JStr (u "review"))]] (u "a.md") (u "b.md")).
  vm_compute. reflexivity.
Defined.

(** X21: two calls of [append_to_output] in a row do what one call with
    both lists does: after a call that returned, appending [second] leaves
    the file and returns the number that appending [first ++ second] to the
    original file does; when it returns, the number is the earlier one plus
    the length of [second], and the file holds the pairs stored before,
    then [first], then [second]. *)
Theorem append_to_output_twice (file : out_file) (first second : list json)
    (file1 : out_file) (n1 : nat) :
  append_to_output file first = (file1, Some n1) ->
  append_to_output file1 second = append_to_output file (first ++ second)
  /\ (forall file2 n2,
        append_to_output file1 second = (file2, Some n2) ->
        n2 = (n1 + length second)%nat /\
        exists old,
          stored_pairs file = Some old /\
          stored_pairs file2 = Some (old ++ first ++ second)).
Proof.
  intros H.
  destruct (append_to_output_success _ _ _ _ H) as (old & Ho & He & -> & ->).
  split.
  - rewrite !append_to_output_spec, stored_pairs_written, Ho.
    now rewrite <- !app_assoc.
  - intros file2 n2 H2.
    destruct (append_to_output_success _ _ _ _ H2)
      as (old' & Ho' & _ & -> & ->).
    rewrite stored_pairs_written in Ho'. injection Ho' as <-.
    split; [now rewrite (length_app (old ++ first))|].
    exists old. split; [assumption|].
    now rewrite stored_pairs_written, <- app_assoc.
Qed.

Lemma append_to_output_twice_witness :
  append_to_output NoFile [JStr (u "a")] =
    (FileOf (JObj [(QA_PAIRS, JArr [JStr (u "a")])]), Some 1%nat)
  /\ append_to_output (FileOf (JObj [(QA_PAIRS, JArr [JStr (u "a")])]))
       [JStr (u "b")] =
     append_to_output NoFile ([JStr (u "a")] ++ [JStr (u "b")]).
Proof.
  split; [vm_compute; reflexivity|].
  apply (append_to_output_twice NoFile [JStr (u "a")] [JStr (u "b")]
           (FileOf (JObj [(QA_PAIRS, JArr [JStr (u "a")])])) 1).
  vm_compute. reflexivity.
Defined.

(** X22: when [append_to_output] raises, either it raised before writing
    (the file cannot be read as an object whose ["qa_pairs"], if any, is a
    list) and the file is as it was, or it raised while writing (a string
    of the pairs holds a surrogate code point, which UTF-8 cannot encode)
    and the file is left without valid content: the pairs stored before are
    lost. *)
Theorem append_to_output_raises (file : out_file) (new_pairs : list json) :
  snd (append_to_output file new_pairs) = None ->
  (stored_pairs file = None /\
   fst (append_to_output file new_pairs) = file)
  \/ (exists old,
        stored_pairs file = Some old /\
        encodable (JArr (old ++ new_pairs)) = false /\
        fst (append_to_output file new_pairs) = BadFile /\
        stored_pairs (fst (append_to_output file new_pairs)) = None).
Proof.
  rewrite append_to_output_spec.
  destruct (stored_pairs file) as [old|] eqn:Ho; [|now left].
  destruct (encodable (JArr (old ++ new_pairs))) eqn:E; [discriminate|].
  intros _. right. exists old. now repeat split.
Qed.

Lemma append_to_output_raises_witness :
  snd (append_to_output (FileOf (JObj [(QA_PAIRS, JArr [JStr (u "a")])]))
         [JStr [55296]]) = None
  /\ fst (append_to_output (FileOf (JObj [(QA_PAIRS, JArr [JStr (u "a")])]))
            [JStr [55296]]) = BadFile.
Proof.
  split; [vm_compute; reflexivity|].
  destruct (append_to_output_raises
              (FileOf (JObj [(QA_PAIRS, JArr [JStr (u "a")])]))
              [JStr [55296]]) as [[H _]|(old & _ & _ & H & _)];
    [vm_compute; reflexivity|vm_compute in H; discriminate H|exact H].
Defined.
